(** * Static Data Authentication of ccid-utils (src/emv_sda.c)

    A shallow embedding of the SDA trust-chain verification: the C functions
    of [emv_sda.c] become functions of a small state monad over the byte
    buffers the tag store owns, the transaction context and a trace of the
    calls made to external collaborators.  An access outside a buffer is
    undefined behaviour and is kept apart from an ordinary failure. *)

From stdpp Require Import base gmap list strings.
From Stdlib Require Import ZArith Lia.

Open Scope Z_scope.

(** ** Machine data *)

(** A byte is a [Z] in [0, 256); a buffer is the list of its bytes. *)
Abbreviation bytes := (list Z).

(** A pointer to the first byte of a buffer of the tag store. *)
Abbreviation loc := positive.

(** [size_t] is 64 bits wide; its arithmetic wraps around. *)
Definition SIZE_MOD : Z := 2 ^ 64.
Definition size_add (a b : Z) : Z := (a + b) mod SIZE_MOD.
Definition size_sub (a b : Z) : Z := (a - b) mod SIZE_MOD.

(** [(unsigned)ret] for an [int], and a [size_t] passed for an [int]. *)
Definition to_unsigned (z : Z) : Z := z mod 2 ^ 32.
Definition to_int (z : Z) : Z := (z + 2 ^ 31) mod 2 ^ 32 - 2 ^ 31.

Definition SHA_DIGEST_LENGTH : Z := 20.

Definition blen (b : bytes) : Z := Z.of_nat (length b).

(** The [n] bytes of [b] from offset [off] on, when they all lie inside [b]. *)
Definition slice (b : bytes) (off n : Z) : option bytes :=
  if bool_decide (0 ≤ off ∧ 0 ≤ n ∧ off + n ≤ blen b)
  then Some (take (Z.to_nat n) (drop (Z.to_nat off) b))
  else None.

(** [b] with [src] written at offset [off], when [src] fits. *)
Definition blit (b : bytes) (off : Z) (src : bytes) : option bytes :=
  if bool_decide (0 ≤ off ∧ off + blen src ≤ blen b)
  then Some (take (Z.to_nat off) b ++ src ++ drop (Z.to_nat off + length src) b)
  else None.

(** [memcmp] of two equally long byte strings: zero exactly when they agree. *)
Definition memcmp (a b : bytes) : Z :=
  if bool_decide (a = b) then 0 else 1.

(** ** The structures of the program *)

(** Modelled from the spec: [struct _emv_data] is declared in
    emv-internal.h, which is not among the sources.  A parsed data element
    is a length-stated view of a buffer; [d_data] is [None] for NULL. *)
Record _emv_data := { d_data : option loc; d_len : Z }.

(** An RSA public key.  A BIGNUM is kept as the big-endian byte string that
    [BN_bin2bn] was given. *)
Record RSA := { rsa_n : bytes; rsa_e : bytes }.

(** [struct sda_req]. *)
Record sda_req := {
  ca_pk_idx : Z;
  pk_cert : loc;     pk_cert_len : Z;
  pk_r : loc;        pk_r_len : Z;
  pk_exp : loc;      pk_exp_len : Z;
  ssa_data : loc;    ssa_data_len : Z
}.

(** Modelled from the spec: [struct _emv] is declared in emv-internal.h,
    which is not among the sources.  These are the fields that
    [emv_sda.c] reads and writes; [e_tags] is the keyed tag store behind
    [_emv_retrieve_data], [db_sda] the SDA-relevant records in the order
    they were parsed. *)
Record _emv := {
  e_aip : Z * Z;                 (* uint8_t e_aip[2] *)
  e_tags : gmap Z _emv_data;
  db_sda : list _emv_data;
  db_numsda : Z;
  e_ca_pk : option RSA;
  e_iss_pk : option RSA;
  e_sda_ok : Z
}.

Definition set_e_ca_pk (k : option RSA) (e : _emv) : _emv :=
  {| e_aip := e_aip e; e_tags := e_tags e; db_sda := db_sda e;
     db_numsda := db_numsda e; e_ca_pk := k; e_iss_pk := e_iss_pk e;
     e_sda_ok := e_sda_ok e |}.

Definition set_e_iss_pk (k : option RSA) (e : _emv) : _emv :=
  {| e_aip := e_aip e; e_tags := e_tags e; db_sda := db_sda e;
     db_numsda := db_numsda e; e_ca_pk := e_ca_pk e; e_iss_pk := k;
     e_sda_ok := e_sda_ok e |}.

Definition set_e_sda_ok (v : Z) (e : _emv) : _emv :=
  {| e_aip := e_aip e; e_tags := e_tags e; db_sda := db_sda e;
     db_numsda := db_numsda e; e_ca_pk := e_ca_pk e; e_iss_pk := e_iss_pk e;
     e_sda_ok := v |}.

(** ** Calls that leave the program *)

Inductive event :=
| EvRetrieve (tag : Z)                       (* _emv_retrieve_data *)
| EvDataInt (d : option _emv_data)           (* emv_data_int *)
| EvMod (idx : Z)                            (* the modulus callback *)
| EvExp (idx : Z)                            (* the exponent callback *)
| EvSHA1 (msg : bytes)                       (* SHA1 *)
| EvRSA (flen : Z) (from : bytes) (key : RSA) (* RSA_public_encrypt *)
| EvPrintf (s : string)                      (* printf *)
| EvHexDump (b : bytes).                     (* hex_dump *)

Definition is_rsa (ev : event) : bool :=
  match ev with EvRSA _ _ _ => true | _ => false end.
Definition is_sha1 (ev : event) : bool :=
  match ev with EvSHA1 _ => true | _ => false end.
Definition is_crypto (ev : event) : bool := is_rsa ev || is_sha1 ev.

(** ** State *)

(** The buffers of the tag store, the transaction context, the calls made
    so far and the number of allocation requests made so far. *)
Record world := {
  w_heap : gmap loc bytes;
  w_emv : _emv;
  w_trace : list event;
  w_nalloc : nat
}.

Inductive result (A : Type) : Type :=
| Ok (a : A) (w : world)
| Undef.
Arguments Ok {A} a w.
Arguments Undef {A}.

Definition M (A : Type) : Type := world → result A.

Definition ret {A} (a : A) : M A := λ w, Ok a w.

Definition bind {A B} (c : M A) (k : A → M B) : M B :=
  λ w, match c w with
       | Ok a w' => k a w'
       | Undef => Undef
       end.

Notation "'let*' x ':=' c 'in' k" := (bind c (λ x, k))
  (at level 10, x pattern, c at level 100, k at level 200, only parsing).
Notation "c ';;' k" := (bind c (λ _, k))
  (at level 100, k at level 200, right associativity, only parsing).

Definition undefined {A} : M A := λ _, Undef.

Definition lift {A} (o : option A) : M A :=
  match o with Some a => ret a | None => undefined end.

Definition emit (ev : event) : M unit :=
  λ w, Ok tt {| w_heap := w_heap w; w_emv := w_emv w;
                w_trace := w_trace w ++ [ev]; w_nalloc := w_nalloc w |}.

(** A diagnostic, recorded without its final newline. *)
Definition printf (s : string) : M unit := emit (EvPrintf s).

Definition get_emv : M _emv := λ w, Ok (w_emv w) w.

Definition get_heap : M (gmap loc bytes) := λ w, Ok (w_heap w) w.

Definition set_buffer (p : loc) (b : bytes) : M unit :=
  λ w, Ok tt {| w_heap := <[p := b]> (w_heap w); w_emv := w_emv w;
                w_trace := w_trace w; w_nalloc := w_nalloc w |}.

Definition modify_emv (f : _emv → _emv) : M unit :=
  λ w, Ok tt {| w_heap := w_heap w; w_emv := f (w_emv w);
                w_trace := w_trace w; w_nalloc := w_nalloc w |}.

(** The whole buffer [p] points to. *)
Definition deref (p : loc) : M bytes :=
  λ w, match w_heap w !! p with
       | Some b => Ok b w
       | None => Undef
       end.

(** [p[i]]. *)
Definition load (p : loc) (i : Z) : M Z :=
  let* b := deref p in
  if bool_decide (0 ≤ i ∧ i < blen b)
  then lift (b !! Z.to_nat i)
  else undefined.

(** The source of [memcpy(_, p + off, n)]. *)
Definition load_range (p : loc) (off n : Z) : M bytes :=
  let* b := deref p in lift (slice b off n).

(** [memcpy(p + off, src, |src|)]. *)
Definition store_range (p : loc) (off : Z) (src : bytes) : M unit :=
  let* b := deref p in
  let* b' := lift (blit b off src) in
  set_buffer p b'.

(** ** The program *)

(** *** External collaborators

    The hash and the raw RSA transform belong to the cryptographic
    library, the integer decoder to the tag parser; the tag numbers and
    the AIP bit are macros of headers outside this file.  The allocator
    answers the [k]-th request with [alloc_ok k], and [junk k i] is the
    content of byte [i] of the [k]-th block before anything is written
    to it. *)

Class Externals := {
  SHA1 : bytes → bytes;
  RSA_public_encrypt : Z → bytes → RSA → Z * bytes;
  emv_data_int : gmap loc bytes → option _emv_data → Z;
  alloc_ok : nat → bool;
  junk : nat → nat → Z;
  EMV_AIP_SDA : Z;
  EMV_TAG_CA_PK_INDEX : Z;
  EMV_TAG_ISS_PK_CERT : Z;
  EMV_TAG_ISS_PK_R : Z;
  EMV_TAG_ISS_PK_EXP : Z;
  EMV_TAG_SSA_DATA : Z
}.

Section Program.

Context `{!Externals}.

(** One allocation request to the library ([RSA_new], [BN_bin2bn]):
    [false] is NULL. *)
Definition lib_alloc : M bool :=
  λ w, Ok (alloc_ok (w_nalloc w))
          {| w_heap := w_heap w; w_emv := w_emv w;
             w_trace := w_trace w; w_nalloc := S (w_nalloc w) |}.

(** [malloc(n)]: a scratch buffer of [n] bytes of unspecified content,
    or NULL. *)
Definition malloc (n : Z) : M (option bytes) :=
  λ w, let k := w_nalloc w in
       Ok (if alloc_ok k then Some (junk k <$> seq 0 (Z.to_nat n)) else None)
          {| w_heap := w_heap w; w_emv := w_emv w;
             w_trace := w_trace w; w_nalloc := S k |}.

(** [BN_bin2bn(s, len, NULL)] on a scratch or callback buffer [s]. *)
Definition BN_bin2bn (s : bytes) (len : Z) : M (option bytes) :=
  let* b := lift (slice s 0 len) in
  let* ok := lib_alloc in
  ret (if ok then Some b else None).

Definition sha1 (msg : bytes) (msg_len : Z) : M bytes :=
  let* m := lift (slice msg 0 msg_len) in
  emit (EvSHA1 m);;
  ret (SHA1 m).

(** Modelled from the spec: [_emv_retrieve_data(e, tag)] is defined outside
    the sources; it is the keyed lookup of the tag store, NULL when the
    tag is absent. *)
Definition _emv_retrieve_data (tag : Z) : M (option _emv_data) :=
  emit (EvRetrieve tag);;
  let* e := get_emv in
  ret (e_tags e !! tag).

Definition call_emv_data_int (d : option _emv_data) : M Z :=
  emit (EvDataInt d);;
  let* h := get_heap in
  ret (emv_data_int h d).

(** *** emsa_pss_decode *)

Definition emsa_pss_decode (msg : bytes) (msg_len : Z) (em : loc) (em_len : Z)
  : M Z :=
  let* md := sha1 msg msg_len in
  let* last := load em (size_sub em_len 1) in
  if bool_decide (last ≠ 0xbc) then
    printf "emsa-pss: bad trailer";;
    ret 0
  else
    let mdb_len := size_sub (size_sub em_len SHA_DIGEST_LENGTH) 1 in
    let* blk := load_range em mdb_len SHA_DIGEST_LENGTH in
    if bool_decide (memcmp blk md ≠ 0) then ret 0
    else ret 1.

(** *** get_required_data

    [None] is the return value 0; on 1 the filled request is returned. *)

Definition get_required_data : M (option sda_req) :=
  let* d := _emv_retrieve_data EMV_TAG_CA_PK_INDEX in
  let* i := call_emv_data_int d in
  if bool_decide (i < 0) then ret None else
  let* d := _emv_retrieve_data EMV_TAG_ISS_PK_CERT in
  match d with None => ret None | Some d_cert =>
  match d_data d_cert with None => ret None | Some p_cert =>
  let* d := _emv_retrieve_data EMV_TAG_ISS_PK_R in
  match d with None => ret None | Some d_r =>
  match d_data d_r with None => ret None | Some p_r =>
  let* d := _emv_retrieve_data EMV_TAG_ISS_PK_EXP in
  match d with None => ret None | Some d_exp =>
  match d_data d_exp with None => ret None | Some p_exp =>
  let* d := _emv_retrieve_data EMV_TAG_SSA_DATA in
  match d with None => ret None | Some d_ssa =>
  match d_data d_ssa with None => ret None | Some p_ssa =>
  ret (Some {| ca_pk_idx := i;
               pk_cert := p_cert; pk_cert_len := d_len d_cert;
               pk_r := p_r; pk_r_len := d_len d_r;
               pk_exp := p_exp; pk_exp_len := d_len d_exp;
               ssa_data := p_ssa; ssa_data_len := d_len d_ssa |})
  end end end end end end end end.

(** *** get_ca_key

    The callbacks return their buffer, or [None] for NULL; the length
    they report is the length of that buffer.  The result pairs the key
    with the value stored through [key_len].  Keys are values here.  Of
    the error paths, [err_free_key] releases the key object once.
    [err_free_mod], taken when the exponent cannot be allocated, calls
    [BN_free(key->n)] and falls through to [RSA_free(key)], which
    releases [key->n] a second time: that path is undefined. *)

Definition get_ca_key (idx : Z) (mod_cb exp_cb : Z → option bytes)
  : M (option (RSA * Z)) :=
  emit (EvMod idx);;
  match mod_cb idx with None => ret None | Some modulus =>
  let mod_len := blen modulus in
  emit (EvExp idx);;
  match exp_cb idx with None => ret None | Some exponent =>
  let exp_len := blen exponent in
  let* key := lib_alloc in
  if negb key then ret None else
  let* n := BN_bin2bn modulus mod_len in
  match n with None => ret None | Some n =>
  let* e := BN_bin2bn exponent exp_len in
  match e with None => undefined | Some e =>
  ret (Some ({| rsa_n := n; rsa_e := e |}, mod_len))
  end end end end.

(** *** recover

    The transform is given the caller's buffer and the scratch buffer; a
    transform that writes more than the scratch buffer holds is
    undefined. *)

Definition recover (ptr : loc) (len : Z) (key : RSA) : M Z :=
  let* tmp := malloc len in
  match tmp with None => ret 0 | Some tmp =>
  let* from := deref ptr in
  emit (EvRSA (to_int len) from key);;
  let '(r, out) := RSA_public_encrypt (to_int len) from key in
  let* tmp := lift (blit tmp 0 out) in
  if bool_decide (r < 0) || bool_decide (to_unsigned r ≠ len) then ret 0
  else
    let* t := lift (slice tmp 0 len) in
    store_range ptr 0 t;;
    ret 1
  end.

(** *** check_pk_cert *)

Definition check_pk_cert (req : sda_req) : M Z :=
  let* b0 := load (pk_cert req) 0 in
  if bool_decide (b0 ≠ 0x6a) then
    printf "emv-sda: bad certificate header";;
    ret 0
  else
  let* b1 := load (pk_cert req) 1 in
  if bool_decide (b1 ≠ 0x02) then
    printf "emv-sda: bad certificate format";;
    ret 0
  else
  let* b11 := load (pk_cert req) 11 in
  if bool_decide (b11 ≠ 0x01) then
    printf "emv-sda: unexpected hash algorithm";;
    ret 0
  else
  let cert_part := size_sub (pk_cert_len req) (SHA_DIGEST_LENGTH + 2) in
  let msg_len :=
    size_add (size_add cert_part (pk_r_len req)) (pk_exp_len req) in
  let* msg := malloc msg_len in
  match msg with None => ret 0 | Some msg =>
  let* c := load_range (pk_cert req) 1 cert_part in
  let* msg := lift (blit msg 0 c) in
  let tmp := cert_part in
  let* r := load_range (pk_r req) 0 (pk_r_len req) in
  let* msg := lift (blit msg tmp r) in
  let tmp := tmp + pk_r_len req in
  let* x := load_range (pk_exp req) 0 (pk_exp_len req) in
  let* msg := lift (blit msg tmp x) in
  emsa_pss_decode msg msg_len (pk_cert req) (pk_cert_len req)
  end.

(** *** make_issuer_pk *)

Definition make_issuer_pk (req : sda_req) : M (option RSA) :=
  let* tmp := malloc (pk_cert_len req) in
  match tmp with None => ret None | Some tmp =>
  let kb_len := size_sub (pk_cert_len req) (15 + 21) in
  let* kb := load_range (pk_cert req) 15 kb_len in
  let* tmp := lift (blit tmp 0 kb) in
  let* r := load_range (pk_r req) 0 (pk_r_len req) in
  let* tmp := lift (blit tmp kb_len r) in
  printf "Retrieved issuer public key:";;
  emit (EvHexDump kb);;
  let* key := lib_alloc in
  if negb key then ret None else
  let* n := BN_bin2bn tmp (pk_cert_len req) in
  let* x := load_range (pk_exp req) 0 (pk_exp_len req) in
  let* e := BN_bin2bn x (pk_exp_len req) in
  match n, e with
  | Some n, Some e => ret (Some {| rsa_n := n; rsa_e := e |})
  | _, _ => ret None
  end
  end.

(** *** get_issuer_pk *)

Definition get_issuer_pk (req : sda_req) (ca_key : RSA) (key_len : Z)
  : M (option RSA) :=
  if bool_decide (pk_cert_len req ≠ key_len) then
    printf "emv-sda: issuer pubkey cert failed len check";;
    ret None
  else
  let* ok := recover (pk_cert req) key_len ca_key in
  if bool_decide (ok = 0) then
    printf "emv-sda: RSA recovery failed on pubkey cert";;
    ret None
  else
  let* ok := check_pk_cert req in
  if bool_decide (ok = 0) then ret None
  else make_issuer_pk req.

(** *** check_ssa *)

(** [for (i = 0; i < num; i++)] with the loop state [s]. *)
Fixpoint for_loop {S} (idx : list nat) (s : S) (body : nat → S → M S) : M S :=
  match idx with
  | [] => ret s
  | i :: idx' => let* s' := body i s in for_loop idx' s' body
  end.

(** The body of the first loop: [data_len += rec[i]->d_len]. *)
Definition add_record_len (rec : list _emv_data) (i : nat) (data_len : Z)
  : M Z :=
  let* r := lift (rec !! i) in
  ret (size_add data_len (d_len r)).

(** The body of the second loop:
    [memcpy(tmp, rec[i]->d_data, rec[i]->d_len); tmp += rec[i]->d_len]. *)
Definition copy_record (rec : list _emv_data) (i : nat) (st : bytes * Z)
  : M (bytes * Z) :=
  let '(msg, tmp) := st in
  let* r := lift (rec !! i) in
  let* p := lift (d_data r) in
  let* d := load_range p 0 (d_len r) in
  let* msg := lift (blit msg tmp d) in
  ret (msg, tmp + d_len r).

Definition check_ssa (ptr : loc) (len : Z) (rec : list _emv_data) (num : Z)
    (aip : Z * Z) : M Z :=
  let* data_len := for_loop (seq 0 (Z.to_nat num)) 2 (add_record_len rec) in
  let cf_len := size_sub len (SHA_DIGEST_LENGTH + 2) in
  let msg_len := size_add cf_len data_len in
  let* msg := malloc msg_len in
  match msg with None => ret 0 | Some msg =>
  let* cf := load_range ptr 1 cf_len in
  let* msg := lift (blit msg 0 cf) in
  let tmp := cf_len in
  let* filled :=
    for_loop (seq 0 (Z.to_nat num)) (msg, tmp) (copy_record rec) in
  let '(msg, tmp) := filled in
  let* msg := lift (blit msg tmp [aip.1; aip.2]) in
  emsa_pss_decode msg msg_len ptr len
  end.

(** *** verify_ssa_data *)

Definition verify_ssa_data (rec : list _emv_data) (num_rec : Z) (req : sda_req)
    (iss_key : RSA) (aip : Z * Z) : M Z :=
  let* ok := recover (ssa_data req) (ssa_data_len req) iss_key in
  if bool_decide (ok = 0) then
    printf "emv-sda: RSA recovery failed on SSA data";;
    ret 0
  else
  let* b0 := load (ssa_data req) 0 in
  if bool_decide (b0 ≠ 0x6a) then
    printf "error: SSA data bad signature byte";;
    ret 0
  else
  let* b1 := load (ssa_data req) 1 in
  if bool_decide (b1 ≠ 0x03) then
    printf "error: SSA data bad format";;
    ret 0
  else
  let* b2 := load (ssa_data req) 2 in
  if bool_decide (b2 ≠ 0x01) then
    printf "error: unexpected hash format in SSA data";;
    ret 0
  else
  check_ssa (ssa_data req) (ssa_data_len req) rec num_rec aip.

(** *** emv_authenticate_static_data *)

Definition emv_authenticate_static_data (mod_cb exp_cb : Z → option bytes)
  : M Z :=
  let* e := get_emv in
  if bool_decide (Z.land (e_aip e).1 EMV_AIP_SDA = 0) then
    printf "emv-sda: card doesn't support SDA";;
    ret 0
  else
  let* req := get_required_data in
  match req with
  | None =>
    printf "emv-sda: required data elements not present";;
    ret 0
  | Some req =>
  let* ca := get_ca_key (ca_pk_idx req) mod_cb exp_cb in
  match ca with
  | None =>
    printf "emv-sda: bad CA key";;
    ret 0
  | Some (ca_key, ca_key_len) =>
  modify_emv (set_e_ca_pk (Some ca_key));;
  let* iss := get_issuer_pk req ca_key ca_key_len in
  modify_emv (set_e_iss_pk iss);;
  match iss with
  | None => ret 0
  | Some iss_key =>
  let* e := get_emv in
  let* ok := verify_ssa_data (db_sda e) (db_numsda e) req iss_key (e_aip e) in
  if bool_decide (ok = 0) then ret 0
  else
    modify_emv (set_e_sda_ok 1);;
    ret 1
  end end end.

(** *** emv_sda_ok *)

Definition emv_sda_ok : M Z :=
  let* e := get_emv in
  ret (if bool_decide (e_sda_ok e = 0) then 0 else 1).

End Program.

(** ** Reference behaviour of the cryptographic library

    SHA-1 as FIPS 180 defines it and the raw RSA public transform as
    [RSA_public_encrypt] computes it without padding.  The program is
    verified for arbitrary externals; these two serve to run it on
    concrete cards. *)

Module Reference.

Definition os2ip (b : bytes) : Z := fold_left (λ acc x, acc * 256 + x) b 0.

Fixpoint i2osp (len : nat) (x : Z) : bytes :=
  match len with
  | O => []
  | S n => i2osp n (x / 256) ++ [x mod 256]
  end.

Definition rotl (n x : Z) : Z :=
  Z.lor (Z.shiftl x n mod 2 ^ 32) (Z.shiftr x (32 - n)).

Definition sha1_pad (msg : bytes) : bytes :=
  let ml := blen msg in
  msg ++ [0x80] ++ replicate (Z.to_nat ((55 - ml) mod 64)) 0 ++ i2osp 8 (8 * ml).

Fixpoint chunks (fuel : nat) (n : nat) (b : bytes) : list bytes :=
  match fuel, b with
  | _, [] => []
  | O, _ => []
  | S fuel', _ => take n b :: chunks fuel' n (drop n b)
  end.

Fixpoint sha1_extend (n : nat) (ws : list Z) : list Z :=
  match n with
  | O => ws
  | S n' =>
    let w := rotl 1 (Z.lxor (Z.lxor (nth 2 ws 0) (nth 7 ws 0))
                            (Z.lxor (nth 13 ws 0) (nth 15 ws 0))) in
    sha1_extend n' (w :: ws)
  end.

Definition sha1_schedule (chunk : bytes) : list Z :=
  rev (sha1_extend 64 (rev (os2ip <$> chunks 16 4 chunk))).

Definition sha1_round (st : Z * Z * Z * Z * Z) (iw : nat * Z) :=
  let '(a, b, c, d, e) := st in
  let '(i, w) := iw in
  let '(f, k) :=
    if (i <? 20)%nat then
      (Z.lor (Z.land b c) (Z.land (Z.lxor b 0xFFFFFFFF) d), 0x5A827999)
    else if (i <? 40)%nat then
      (Z.lxor (Z.lxor b c) d, 0x6ED9EBA1)
    else if (i <? 60)%nat then
      (Z.lor (Z.lor (Z.land b c) (Z.land b d)) (Z.land c d), 0x8F1BBCDC)
    else
      (Z.lxor (Z.lxor b c) d, 0xCA62C1D6) in
  let t := (rotl 5 a + f + e + k + w) mod 2 ^ 32 in
  (t, a, rotl 30 b, c, d).

Definition sha1_chunk (h : Z * Z * Z * Z * Z) (chunk : bytes) :=
  let '(h0, h1, h2, h3, h4) := h in
  let ws := sha1_schedule chunk in
  let '(a, b, c, d, e) := fold_left sha1_round (zip (seq 0 80) ws) h in
  ((h0 + a) mod 2 ^ 32, (h1 + b) mod 2 ^ 32, (h2 + c) mod 2 ^ 32,
   (h3 + d) mod 2 ^ 32, (h4 + e) mod 2 ^ 32).

Definition SHA1 (msg : bytes) : bytes :=
  let p := sha1_pad msg in
  let '(h0, h1, h2, h3, h4) :=
    fold_left sha1_chunk (chunks (length p) 64 p)
      (0x67452301, 0xEFCDAB89, 0x98BADCFE, 0x10325476, 0xC3D2E1F0) in
  i2osp 4 h0 ++ i2osp 4 h1 ++ i2osp 4 h2 ++ i2osp 4 h3 ++ i2osp 4 h4.

(** [b ^ e mod n] by repeated squaring. *)
Fixpoint modpow_pos (b : Z) (e : positive) (n : Z) : Z :=
  match e with
  | xH => b mod n
  | xO e' => let r := modpow_pos b e' n in (r * r) mod n
  | xI e' => let r := modpow_pos b e' n in (r * r * b) mod n
  end.

Definition modpow (b e n : Z) : Z :=
  match e with
  | Zpos p => modpow_pos b p n
  | _ => 1 mod n
  end.

(** [BN_num_bytes]. *)
Definition num_bytes (x : Z) : Z := (Z.log2 x + 8) / 8.

(** Without padding the input must be exactly as long as the modulus and
    smaller than it; the output then has the length of the modulus. *)
Definition RSA_public_encrypt (flen : Z) (from : bytes) (key : RSA)
  : Z * bytes :=
  let n := os2ip (rsa_n key) in
  let num := num_bytes n in
  if bool_decide (flen ≠ num) then (-1, [])
  else
    let m := os2ip (take (Z.to_nat flen) from) in
    if bool_decide (n ≤ m) then (-1, [])
    else (num, i2osp (Z.to_nat num) (modpow m (os2ip (rsa_e key)) n)).

End Reference.

(** ** Concrete cards

    A three-tier chain with 40-byte keys and public exponent 3, signed
    with the matching private keys; a certificate whose remainder has
    four bytes instead of 36; and a certificate under a 16-byte key. *)

Module Fixture.

Definition ca_modulus : bytes :=
  [0xcb; 0xbd; 0x7c; 0x9c; 0x3f; 0x86; 0x14; 0x2f;
   0x2d; 0x8f; 0x3f; 0xb4; 0xb6; 0x74; 0x90; 0x36;
   0x43; 0xde; 0x9b; 0x25; 0x08; 0x22; 0x6d; 0x98;
   0x2b; 0xc1; 0x4b; 0x26; 0xde; 0x42; 0x06; 0x04;
   0xd2; 0x0e; 0x2b; 0xa9; 0x31; 0x70; 0x40; 0x33].
Definition iss_modulus : bytes :=
  [0xb8; 0xbb; 0x9f; 0x68; 0xa5; 0xd5; 0x39; 0x6d;
   0x59; 0xf2; 0x1d; 0x0e; 0x50; 0x80; 0xc9; 0x23;
   0x07; 0x06; 0x08; 0xa8; 0x49; 0x17; 0x31; 0x21;
   0xb2; 0x22; 0x9a; 0xb0; 0x4a; 0xf8; 0x5e; 0xf0;
   0xc6; 0xaa; 0x11; 0x75; 0x35; 0x5a; 0xad; 0xa7].
Definition cert : bytes :=
  [0xbe; 0xa5; 0xdc; 0x8e; 0x51; 0xff; 0xd4; 0xcc;
   0x45; 0xa1; 0x8c; 0xff; 0x37; 0x80; 0x25; 0x96;
   0xe0; 0xb2; 0x24; 0xe3; 0x80; 0x81; 0x49; 0xb9;
   0xcf; 0x6e; 0x96; 0xe8; 0xce; 0x13; 0xfc; 0xa9;
   0xc0; 0xd0; 0x65; 0xfd; 0x5b; 0x68; 0xc5; 0x11].
Definition cert_recovered : bytes :=
  [0x6a; 0x02; 0x41; 0x11; 0x22; 0xff; 0x12; 0x30;
   0x00; 0x00; 0x01; 0x01; 0x01; 0x28; 0x01; 0xb8;
   0xbb; 0x9f; 0x68; 0x93; 0xb4; 0x8d; 0xf6; 0x79;
   0x94; 0xc2; 0xec; 0x82; 0x08; 0x18; 0x30; 0x0f;
   0x05; 0x46; 0x07; 0xa0; 0x62; 0xee; 0x34; 0xbc].
Definition remainder : bytes :=
  [0xa5; 0xd5; 0x39; 0x6d; 0x59; 0xf2; 0x1d; 0x0e;
   0x50; 0x80; 0xc9; 0x23; 0x07; 0x06; 0x08; 0xa8;
   0x49; 0x17; 0x31; 0x21; 0xb2; 0x22; 0x9a; 0xb0;
   0x4a; 0xf8; 0x5e; 0xf0; 0xc6; 0xaa; 0x11; 0x75;
   0x35; 0x5a; 0xad; 0xa7].
Definition exponent : bytes :=
  [0x03].
Definition ssa : bytes :=
  [0x9b; 0x80; 0xa2; 0x02; 0x30; 0x1a; 0x70; 0x41;
   0x68; 0x5f; 0x5c; 0xbd; 0x26; 0x6b; 0x1e; 0xa4;
   0xb9; 0xb9; 0x5f; 0x2b; 0x67; 0xc3; 0x73; 0x5d;
   0xe7; 0x88; 0xd6; 0x08; 0x0e; 0x06; 0xe2; 0xdd;
   0x14; 0xa8; 0xfe; 0xc6; 0x6b; 0x2a; 0x55; 0x81].
Definition ssa_recovered : bytes :=
  [0x6a; 0x03; 0x01; 0xda; 0xc0; 0xbb; 0xbb; 0xbb;
   0xbb; 0xbb; 0xbb; 0xbb; 0xbb; 0xbb; 0xbb; 0xbb;
   0xbb; 0xbb; 0xbb; 0x4c; 0xfd; 0x45; 0x4c; 0x99;
   0xf9; 0x72; 0xa5; 0xc3; 0xe6; 0x05; 0xfb; 0x17;
   0x38; 0xff; 0x83; 0x23; 0x87; 0xdf; 0xbc; 0xbc].
Definition rec1 : bytes :=
  [0x9f; 0x10; 0x07; 0x06; 0x01; 0x0a; 0x03; 0xa0;
   0x00; 0x00].
Definition rec2 : bytes :=
  [0x5a; 0x08; 0x47; 0x61; 0x73; 0x90; 0x01; 0x01;
   0x00; 0x10].
Definition aip : Z * Z := (0x58, 0x00).

Definition short_remainder : bytes :=
  [0xc1; 0xc2; 0xc3; 0xc5].
Definition cert_short : bytes :=
  [0x44; 0xb1; 0x31; 0x08; 0x1b; 0xbf; 0x00; 0xa0;
   0x67; 0xe0; 0xb6; 0xdf; 0x12; 0xc8; 0x3d; 0xbb;
   0x06; 0x0d; 0x01; 0xab; 0xcd; 0xaf; 0x82; 0xcd;
   0x5d; 0x4d; 0x78; 0x12; 0xe5; 0x36; 0x66; 0x65;
   0xc0; 0x78; 0x4f; 0x18; 0x9c; 0x4d; 0x1a; 0xb6].
Definition cert_short_recovered : bytes :=
  [0x6a; 0x02; 0x41; 0x11; 0x22; 0xff; 0x12; 0x30;
   0x00; 0x00; 0x01; 0x01; 0x01; 0x08; 0x01; 0xd1;
   0xd2; 0xd3; 0xd4; 0x46; 0xf5; 0x62; 0xff; 0xc7;
   0xbb; 0x2e; 0xcb; 0xcc; 0xef; 0x1e; 0x04; 0x7f;
   0x73; 0xb6; 0x8a; 0xa5; 0x5e; 0x54; 0x88; 0xbc].

Definition small_modulus : bytes :=
  [0xdf; 0xb4; 0xfe; 0x47; 0xe4; 0xa3; 0xd0; 0x8f;
   0x2a; 0x61; 0x9d; 0x3b; 0xfd; 0xfe; 0xfe; 0xd9].
Definition small_cert : bytes :=
  [0xbb; 0x6e; 0x51; 0x5d; 0x81; 0xa1; 0x5d; 0xa9;
   0x72; 0x8d; 0x56; 0xa2; 0xbc; 0xe0; 0xc8; 0x57].
Definition small_cert_recovered : bytes :=
  [0x6a; 0x02; 0x41; 0x11; 0x22; 0xff; 0x12; 0x30;
   0x00; 0x00; 0x01; 0x01; 0x01; 0x10; 0x01; 0xbc].

(** The integer a data element holds, negative when there is none. *)
Definition data_int (h : gmap loc bytes) (d : option _emv_data) : Z :=
  match d with
  | Some {| d_data := Some p |} =>
    match h !! p with
    | Some b => Reference.os2ip b
    | None => -1
    end
  | _ => -1
  end.

(** The library, with an allocator that answers [ok] and leaves [jk] in
    fresh blocks. *)
Definition externals (ok : nat → bool) (jk : nat → nat → Z) : Externals := {|
  SHA1 := Reference.SHA1;
  RSA_public_encrypt := Reference.RSA_public_encrypt;
  emv_data_int := data_int;
  alloc_ok := ok;
  junk := jk;
  EMV_AIP_SDA := 0x40;
  EMV_TAG_CA_PK_INDEX := 0x8f;
  EMV_TAG_ISS_PK_CERT := 0x90;
  EMV_TAG_ISS_PK_R := 0x92;
  EMV_TAG_ISS_PK_EXP := 0x9f32;
  EMV_TAG_SSA_DATA := 0x93
|}.

Definition always : nat → bool := λ _, true.
(** An allocator whose third answer is NULL. *)
Definition third_fails : nat → bool := λ k, negb (Nat.eqb k 2).
Definition zeroes : nat → nat → Z := λ _ _, 0.

Definition elem (p : loc) (b : bytes) : _emv_data :=
  {| d_data := Some p; d_len := blen b |}.

(** A card whose tag store holds the five elements and whose two
    SDA-relevant records are [rec1] and [rec2], before any attempt. *)
Definition card (c r ssa_block : bytes) : world := {|
  w_heap := list_to_map [(1%positive, [1]); (2%positive, c); (3%positive, r);
                         (4%positive, exponent); (5%positive, ssa_block);
                         (6%positive, rec1); (7%positive, rec2)];
  w_emv := {|
    e_aip := aip;
    e_tags := list_to_map [(0x8f, elem 1 [1]); (0x90, elem 2 c);
                           (0x92, elem 3 r); (0x9f32, elem 4 exponent);
                           (0x93, elem 5 ssa_block)];
    db_sda := [elem 6 rec1; elem 7 rec2];
    db_numsda := 2;
    e_ca_pk := None;
    e_iss_pk := None;
    e_sda_ok := 0 |};
  w_trace := [];
  w_nalloc := 0
|}.

(** The CA key provider knows key 1 only. *)
Definition ca_mod (m : bytes) (idx : Z) : option bytes :=
  if bool_decide (idx = 1) then Some m else None.
Definition ca_exp (idx : Z) : option bytes :=
  if bool_decide (idx = 1) then Some exponent else None.

(** The request [get_required_data] builds from a card. *)
Definition request (c r ssa_block : bytes) : sda_req := {|
  ca_pk_idx := 1;
  pk_cert := 2; pk_cert_len := blen c;
  pk_r := 3; pk_r_len := blen r;
  pk_exp := 4; pk_exp_len := blen exponent;
  ssa_data := 5; ssa_data_len := blen ssa_block
|}.

Definition ca_key : RSA := {| rsa_n := ca_modulus; rsa_e := exponent |}.
Definition iss_key : RSA := {| rsa_n := iss_modulus; rsa_e := exponent |}.
Definition small_key : RSA := {| rsa_n := small_modulus; rsa_e := exponent |}.

(** A block that passes the header checks of the certificate stage as far
    as its length allows. *)
Definition header22 : bytes :=
  [0x6a; 0x02; 0; 0; 0; 0; 0; 0; 0; 0; 0; 0x01; 0; 0; 0; 0; 0; 0; 0; 0; 0; 0].

(** The recovered certificate with a wrong first byte; the bytes the
    digest covers are untouched. *)
Definition bad_header_cert : bytes := 0x6b :: tail cert_recovered.

(** A certificate element one byte shorter than the CA modulus. *)
Definition cert39 : bytes := take 39 cert.

(** The library with an allocator that never fails and hands out zeroed
    blocks. *)
Definition lib : Externals := externals always zeroes.

(** What an attempt returns and leaves behind, [None] when undefined. *)
Definition outcome {A} (r : result A) : option (A * world) :=
  match r with
  | Ok a w => Some (a, w)
  | Undef => None
  end.

(** The state a computation leaves, [w] when it is undefined. *)
Definition state_after {A} (r : result A) (w : world) : world :=
  match r with
  | Ok _ w' => w'
  | Undef => w
  end.

End Fixture.

(** ** Vocabulary of the properties *)

(** Every defined run of [c] relates the state before to the state after. *)
Definition preserves {A} (R : relation world) (c : M A) : Prop :=
  ∀ w a w', c w = Ok a w' → R w w'.

(** No buffer is written. *)
Definition heap_kept : relation world := λ w w', w_heap w' = w_heap w.

(** Only buffers in [L] are written. *)
Definition heap_frame (L : loc → Prop) : relation world :=
  λ w w', ∀ l, ¬ L l → w_heap w' !! l = w_heap w !! l.

(** The transaction context is not written. *)
Definition emv_kept : relation world := λ w w', w_emv w' = w_emv w.

(** The calls made in between all satisfy [P]. *)
Definition trace_grows (P : event → Prop) : relation world :=
  λ w w', ∃ evs, w_trace w' = w_trace w ++ evs ∧ Forall P evs.

(** The state [w] with the context changed by [f], with the event [ev]
    appended. *)
Definition with_emv (f : _emv → _emv) (w : world) : world :=
  {| w_heap := w_heap w; w_emv := f (w_emv w);
     w_trace := w_trace w; w_nalloc := w_nalloc w |}.
Definition with_event (ev : event) (w : world) : world :=
  {| w_heap := w_heap w; w_emv := w_emv w;
     w_trace := w_trace w ++ [ev]; w_nalloc := w_nalloc w |}.

(** The call [ev] is neither an RSA transform nor a hash. *)
Definition no_crypto (ev : event) : Prop := is_crypto ev = false.

(** The state [w] after one allocation request. *)
Definition with_alloc (w : world) : world :=
  {| w_heap := w_heap w; w_emv := w_emv w;
     w_trace := w_trace w; w_nalloc := S (w_nalloc w) |}.

(** The last byte of a block, and the [SHA_DIGEST_LENGTH] bytes before it. *)
Definition trailer (b : bytes) : option Z := last b.
Definition digest_field (b : bytes) : option bytes :=
  slice b (blen b - SHA_DIGEST_LENGTH - 1) SHA_DIGEST_LENGTH.

(** The pointer [p] designates the block [b], of [len] bytes. *)
Definition holds (w : world) (p : loc) (len : Z) (b : bytes) : Prop :=
  w_heap w !! p = Some b ∧ blen b = len.

(** The bytes of a recovered block [b] at the offsets from 1 up to
    [blen b - (SHA_DIGEST_LENGTH + 2)]. *)
Definition signed_part (b : bytes) : bytes :=
  take (Z.to_nat (blen b - (SHA_DIGEST_LENGTH + 2))) (drop 1 b).

(** The bytes of a recovered certificate [c] at the offsets
    [15, blen c - 21). *)
Definition key_body (c : bytes) : bytes :=
  take (Z.to_nat (blen c - (15 + 21))) (drop 15 c).

(** The records [recs] designate the buffers [bufs], in this order. *)
Definition record_bytes (w : world) (recs : list _emv_data)
    (bufs : list bytes) : Prop :=
  Forall2 (λ d b, ∃ p, d_data d = Some p ∧ holds w p (d_len d) b) recs bufs.

(** The three header bytes a stage looks at. *)
Definition cert_header_ok (c : bytes) : Prop :=
  c !! 0%nat = Some 0x6a ∧ c !! 1%nat = Some 0x02 ∧ c !! 11%nat = Some 0x01.
Definition ssa_header_ok (s : bytes) : Prop :=
  s !! 0%nat = Some 0x6a ∧ s !! 1%nat = Some 0x03 ∧ s !! 2%nat = Some 0x01.

(** The two comparisons of the decoder on block [b] for the digest [md]. *)
Definition trailer_ok (b : bytes) : Prop := trailer b = Some 0xbc.
Definition digest_ok (b md : bytes) : Prop := digest_field b = Some md.

(** The six ways an attempt can go.  In each of the first five a stage
    fails and the attempt ends in the state that stage left, with at most
    a diagnostic or the NULL issuer key added; in the last every stage
    passed. *)

Section Shapes.

Context `{!Externals}.

Definition sda_supported (w : world) : Prop :=
  Z.land (e_aip (w_emv w)).1 EMV_AIP_SDA ≠ 0.

Inductive run_shape (mod_cb exp_cb : Z → option bytes) (w : world)
  : Z → world → Prop :=
| stop_at_aip :
    ¬ sda_supported w →
    run_shape mod_cb exp_cb w 0
      (with_event (EvPrintf "emv-sda: card doesn't support SDA") w)
| stop_at_data w1 :
    sda_supported w →
    get_required_data w = Ok None w1 →
    run_shape mod_cb exp_cb w 0
      (with_event (EvPrintf "emv-sda: required data elements not present") w1)
| stop_at_ca_key req w1 w2 :
    sda_supported w →
    get_required_data w = Ok (Some req) w1 →
    get_ca_key (ca_pk_idx req) mod_cb exp_cb w1 = Ok None w2 →
    run_shape mod_cb exp_cb w 0 (with_event (EvPrintf "emv-sda: bad CA key") w2)
| stop_at_issuer req w1 ca_key ca_key_len w2 w3 :
    sda_supported w →
    get_required_data w = Ok (Some req) w1 →
    get_ca_key (ca_pk_idx req) mod_cb exp_cb w1
      = Ok (Some (ca_key, ca_key_len)) w2 →
    get_issuer_pk req ca_key ca_key_len
      (with_emv (set_e_ca_pk (Some ca_key)) w2) = Ok None w3 →
    run_shape mod_cb exp_cb w 0 (with_emv (set_e_iss_pk None) w3)
| stop_at_ssa req w1 ca_key ca_key_len w2 iss_key w3 w4 :
    sda_supported w →
    get_required_data w = Ok (Some req) w1 →
    get_ca_key (ca_pk_idx req) mod_cb exp_cb w1
      = Ok (Some (ca_key, ca_key_len)) w2 →
    get_issuer_pk req ca_key ca_key_len
      (with_emv (set_e_ca_pk (Some ca_key)) w2) = Ok (Some iss_key) w3 →
    (let w3' := with_emv (set_e_iss_pk (Some iss_key)) w3 in
     verify_ssa_data (db_sda (w_emv w3')) (db_numsda (w_emv w3')) req iss_key
       (e_aip (w_emv w3')) w3' = Ok 0 w4) →
    run_shape mod_cb exp_cb w 0 w4
| all_stages_passed req w1 ca_key ca_key_len w2 iss_key w3 ok w4 :
    sda_supported w →
    get_required_data w = Ok (Some req) w1 →
    get_ca_key (ca_pk_idx req) mod_cb exp_cb w1
      = Ok (Some (ca_key, ca_key_len)) w2 →
    get_issuer_pk req ca_key ca_key_len
      (with_emv (set_e_ca_pk (Some ca_key)) w2) = Ok (Some iss_key) w3 →
    (let w3' := with_emv (set_e_iss_pk (Some iss_key)) w3 in
     verify_ssa_data (db_sda (w_emv w3')) (db_numsda (w_emv w3')) req iss_key
       (e_aip (w_emv w3')) w3' = Ok ok w4) →
    ok ≠ 0 →
    run_shape mod_cb exp_cb w 1 (with_emv (set_e_sda_ok 1) w4).

(** Every stage of the attempt from [w] passes. *)
Definition every_stage_passed (mod_cb exp_cb : Z → option bytes) (w : world)
  : Prop :=
  ∃ req w1 ca_key ca_key_len w2 iss_key w3 ok w4,
    sda_supported w ∧
    get_required_data w = Ok (Some req) w1 ∧
    get_ca_key (ca_pk_idx req) mod_cb exp_cb w1
      = Ok (Some (ca_key, ca_key_len)) w2 ∧
    get_issuer_pk req ca_key ca_key_len
      (with_emv (set_e_ca_pk (Some ca_key)) w2) = Ok (Some iss_key) w3 ∧
    (let w3' := with_emv (set_e_iss_pk (Some iss_key)) w3 in
     verify_ssa_data (db_sda (w_emv w3')) (db_numsda (w_emv w3')) req iss_key
       (e_aip (w_emv w3')) w3' = Ok ok w4) ∧
    ok ≠ 0.

End Shapes.

(** ** Vocabulary of further properties *)

Section Elements.

Context `{!Externals}.

(** The tag store has an element for [tag], and the element has data. *)
Definition element_present (w : world) (tag : Z) : Prop :=
  ∃ d p, e_tags (w_emv w) !! tag = Some d ∧ d_data d = Some p.

(** The CA key index the card states, as [emv_data_int] decodes it. *)
Definition card_index (w : world) : Z :=
  emv_data_int (w_heap w) (e_tags (w_emv w) !! EMV_TAG_CA_PK_INDEX).

(** The path of [get_ca_key idx] on which the modulus is released twice,
    for the requests from the [k]-th on: both callbacks answer, the key
    object and the modulus are allocated, and the allocation of the
    exponent fails. *)
Definition releases_twice (idx : Z) (mod_cb exp_cb : Z → option bytes)
    (k : nat) : Prop :=
  is_Some (mod_cb idx) ∧ is_Some (exp_cb idx) ∧
  alloc_ok k = true ∧ alloc_ok (S k) = true ∧ alloc_ok (S (S k)) = false.

(** The queries [get_required_data] makes when nothing is missing. *)
Definition retrieval_order (w : world) : list event :=
  [EvRetrieve EMV_TAG_CA_PK_INDEX;
   EvDataInt (e_tags (w_emv w) !! EMV_TAG_CA_PK_INDEX);
   EvRetrieve EMV_TAG_ISS_PK_CERT;
   EvRetrieve EMV_TAG_ISS_PK_R;
   EvRetrieve EMV_TAG_ISS_PK_EXP;
   EvRetrieve EMV_TAG_SSA_DATA].

End Elements.

(** The fields of the context that an attempt only reads. *)
Definition same_inputs (e e' : _emv) : Prop :=
  e_aip e' = e_aip e ∧ e_tags e' = e_tags e ∧
  db_sda e' = db_sda e ∧ db_numsda e' = db_numsda e.

(** The same buffers exist, each as long as before. *)
Definition lengths_kept : relation world :=
  λ w w', ∀ l, blen <$> (w_heap w' !! l) = blen <$> (w_heap w !! l).

(** The last [SHA_DIGEST_LENGTH + 1] bytes of a block. *)
Definition tail21 (b : bytes) : bytes :=
  drop (length b - Z.to_nat (SHA_DIGEST_LENGTH + 1)) b.

(** ** The chip card slot

    [chipcard_wait_for_card] of chipcard.c.  The commands to the reader
    and the wait for its interrupt belong to other files: each takes the
    reader, with the slot's cached status, from one state to the next,
    and the two commands also return an [int], which this function does
    not look at.  [CHIPCARD_NOT_PRESENT] is a macro of the public header. *)

Module Chipcard.

Class Reader := {
  reader : Type;
  cc_status : reader → Z;
  _PC_to_RDR_GetSlotStatus : reader → Z * reader;
  _RDR_to_PC : reader → Z * reader;
  _cci_wait_for_interrupt : reader → reader;
  CHIPCARD_NOT_PRESENT : Z
}.

(** The calls that leave the function. *)
Inductive call := GetSlotStatus | Read | WaitForInterrupt.

Section Slot.

Context `{!Reader}.

(** The reader and the calls made so far. *)
Record slot := { rd : reader; calls : list call }.

Definition get_slot_status (s : slot) : Z * slot :=
  let '(r, d) := _PC_to_RDR_GetSlotStatus (rd s) in
  (r, {| rd := d; calls := calls s ++ [GetSlotStatus] |}).

Definition read_response (s : slot) : Z * slot :=
  let '(r, d) := _RDR_to_PC (rd s) in
  (r, {| rd := d; calls := calls s ++ [Read] |}).

Definition wait_for_interrupt (s : slot) : slot :=
  {| rd := _cci_wait_for_interrupt (rd s);
     calls := calls s ++ [WaitForInterrupt] |}.

(** [chipcard_slot_status]: the cached status, without any call. *)
Definition chipcard_slot_status (s : slot) : Z := cc_status (rd s).

(** The [do ... while] loop, run for at most [fuel] rounds; [None] when
    the rounds are used up before the loop is left. *)
Fixpoint chipcard_wait_for_card (fuel : nat) (s : slot) : option (Z * slot) :=
  match fuel with
  | O => None
  | S fuel =>
    let s := (get_slot_status s).2 in
    let s := (read_response s).2 in
    if bool_decide (cc_status (rd s) ≠ CHIPCARD_NOT_PRESENT) then Some (1, s)
    else
      let s := wait_for_interrupt s in
      if bool_decide (cc_status (rd s) = CHIPCARD_NOT_PRESENT)
      then chipcard_wait_for_card fuel s
      else Some (1, s)
  end.

(** The reader after one status query and its response, and after the
    wait for an interrupt that follows when no card showed. *)
Definition polled (d : reader) : reader :=
  (_RDR_to_PC (_PC_to_RDR_GetSlotStatus d).2).2.
Definition idled (d : reader) : reader := _cci_wait_for_interrupt (polled d).

(** No card shows in the state [d]; no card shows during the round that
    starts in [d]. *)
Definition absent (d : reader) : Prop := cc_status d = CHIPCARD_NOT_PRESENT.
Definition round_without_card (d : reader) : Prop :=
  absent (polled d) ∧ absent (idled d).

#[export] Instance absent_dec (d : reader) : Decision (absent d) :=
  decide (cc_status d = CHIPCARD_NOT_PRESENT).
#[export] Instance round_without_card_dec (d : reader)
  : Decision (round_without_card d) :=
  and_dec (absent_dec (polled d)) (absent_dec (idled d)).

(** The calls of the round that starts in [d]. *)
Definition round_calls (d : reader) : list call :=
  if bool_decide (absent (polled d))
  then [GetSlotStatus; Read; WaitForInterrupt]
  else [GetSlotStatus; Read].

(** The state in which a round that starts in [d] leaves the reader. *)
Definition round_end (d : reader) : reader :=
  if bool_decide (absent (polled d)) then idled d else polled d.

End Slot.

(** A reader in whose slot a card appears during the [n]-th wait for an
    interrupt; status 2 is "not present". *)
Definition countdown : Reader := {|
  reader := nat;
  cc_status n := if bool_decide (n = 0%nat) then 1 else 2;
  _PC_to_RDR_GetSlotStatus n := (1, n);
  _RDR_to_PC n := (1, n);
  _cci_wait_for_interrupt n := pred n;
  CHIPCARD_NOT_PRESENT := 2
|}.

(** A reader whose slot stays empty and whose commands fail. *)
Definition empty_slot : Reader := {|
  reader := unit;
  cc_status _ := 2;
  _PC_to_RDR_GetSlotStatus _ := (0, tt);
  _RDR_to_PC _ := (0, tt);
  _cci_wait_for_interrupt _ := tt;
  CHIPCARD_NOT_PRESENT := 2
|}.

(** A slot of the first reader two waits before the card appears, and a
    slot of the second; no call has been made yet. *)
Definition waiting : @slot countdown := @Build_slot countdown 2%nat [].
Definition deserted : @slot empty_slot := @Build_slot empty_slot tt [].

End Chipcard.

(** The cryptographic calls among the calls [evs], in order. *)
Inductive crypto_call := Transform | Hash.

Fixpoint crypto_calls (evs : list event) : list crypto_call :=
  match evs with
  | [] => []
  | EvRSA _ _ _ :: evs => Transform :: crypto_calls evs
  | EvSHA1 _ :: evs => Hash :: crypto_calls evs
  | _ :: evs => crypto_calls evs
  end.

(** Every defined run of [c] that returns [a] has made cryptographic
    calls [l] with [Q a l]. *)
Definition makes {A} (c : M A) (Q : A → list crypto_call → Prop) : Prop :=
  ∀ w a w', c w = Ok a w' →
    ∃ evs, w_trace w' = w_trace w ++ evs ∧ Q a (crypto_calls evs).

(** The vocabulary of whole stages. *)
Section Stages.

Context `{!Externals}.

(** The [n] allocation requests from the [k]-th on all succeed. *)
Definition allocs_ok (k n : nat) : Prop :=
  ∀ i, (i < n)%nat → alloc_ok (k + i) = true.

(** What a buffer of [len] bytes holds after [recover] copied the scratch
    block of the [k]-th request over it, the transform having written
    [out] at the start of that block. *)
Definition recovered (k : nat) (len : Z) (out : bytes) : bytes :=
  out ++ drop (length out) (junk k <$> seq 0 (Z.to_nat len)).

(** The [blen c] bytes [make_issuer_pk] builds the modulus from, in the
    scratch block of the [k]-th request: the key body of the recovered
    certificate [c], the remainder [r], and what the block held behind
    them. *)
Definition issuer_modulus (k : nat) (c r : bytes) : bytes :=
  (key_body c ++ r) ++
  drop (length r)
    (drop (length (key_body c)) (junk k <$> seq 0 (Z.to_nat (blen c)))).

(** The element [tag] of the tag store designates the block [b], of
    [len] bytes at [p]. *)
Definition element (w : world) (tag : Z) (p : loc) (len : Z) (b : bytes)
  : Prop :=
  ∃ d, e_tags (w_emv w) !! tag = Some d ∧ d_data d = Some p ∧
       d_len d = len ∧ holds w p len b.

End Stages.

(** ** Facts about the machine data *)

Section Facts.

Context `{!Externals}.

#[local] Instance heap_kept_preorder : PreOrder heap_kept.
Proof.
  split; [done |]. unfold heap_kept. intros w1 w2 w3 H12 H23. congruence.
Qed.

#[local] Instance emv_kept_preorder : PreOrder emv_kept.
Proof.
  split; [done |]. unfold emv_kept. intros w1 w2 w3 H12 H23. congruence.
Qed.

#[local] Instance heap_frame_preorder L : PreOrder (heap_frame L).
Proof.
  split; [done |]. unfold heap_frame. intros w1 w2 w3 H12 H23 l Hl.
  rewrite H23, H12; done.
Qed.

#[local] Instance trace_grows_preorder P : PreOrder (trace_grows P).
Proof.
  split.
  - intros w. exists []. rewrite app_nil_r. done.
  - intros w1 w2 w3 (e1 & H1 & F1) (e2 & H2 & F2). exists (e1 ++ e2).
    rewrite H2, H1, app_assoc. split; [done |]. apply Forall_app; done.
Qed.

Lemma preserves_ret {A} (R : relation world) `{!PreOrder R} (a : A) :
  preserves R (ret a).
Proof. intros w a' w' [= <- <-]. reflexivity. Qed.

Lemma preserves_undefined {A} (R : relation world) :
  preserves R (@undefined A).
Proof. intros w a w' [=]. Qed.

Lemma preserves_lift {A} (R : relation world) `{!PreOrder R} (o : option A) :
  preserves R (lift o).
Proof. destruct o; [by apply preserves_ret | apply preserves_undefined]. Qed.

Lemma preserves_bind {A B} (R : relation world) `{!PreOrder R}
    (c : M A) (k : A → M B) :
  preserves R c → (∀ a, preserves R (k a)) → preserves R (bind c k).
Proof.
  intros Hc Hk w b w' Hrun. unfold bind in Hrun.
  destruct (c w) as [a w1 |] eqn:E; [| done].
  transitivity w1; [by eapply Hc | by eapply Hk].
Qed.

Lemma preserves_for_loop {S} (R : relation world) `{!PreOrder R}
    (idx : list nat) (s : S) (body : nat → S → M S) :
  (∀ i s', preserves R (body i s')) → preserves R (for_loop idx s body).
Proof.
  intros Hbody. revert s. induction idx as [| i idx IH]; intros s; simpl.
  - apply preserves_ret; done.
  - apply preserves_bind; [done | apply Hbody | intros s'; apply IH].
Qed.

(** *** What each primitive does to the state *)

Lemma emit_Ok ev w a w' : emit ev w = Ok a w' → w' = with_event ev w.
Proof. by intros [= <- <-]. Qed.

Lemma get_emv_Ok w e w' : get_emv w = Ok e w' → w' = w ∧ e = w_emv w.
Proof. by intros [= <- <-]. Qed.

Lemma get_heap_Ok w h w' : get_heap w = Ok h w' → w' = w ∧ h = w_heap w.
Proof. by intros [= <- <-]. Qed.

Lemma deref_Ok p w b w' :
  deref p w = Ok b w' → w' = w ∧ w_heap w !! p = Some b.
Proof. unfold deref. intros Hrun. case_match; by simplify_eq. Qed.

Lemma deref_at p w b : w_heap w !! p = Some b → deref p w = Ok b w.
Proof. unfold deref. by intros ->. Qed.

Lemma set_buffer_Ok p b w a w' :
  set_buffer p b w = Ok a w' →
  w_heap w' = <[p := b]> (w_heap w) ∧ w_emv w' = w_emv w ∧
  w_trace w' = w_trace w ∧ w_nalloc w' = w_nalloc w.
Proof. by intros [= <- <-]. Qed.

Lemma lib_alloc_Ok w a w' :
  lib_alloc w = Ok a w' →
  a = alloc_ok (w_nalloc w) ∧ w_heap w' = w_heap w ∧ w_emv w' = w_emv w ∧
  w_trace w' = w_trace w ∧ w_nalloc w' = S (w_nalloc w).
Proof. by intros [= <- <-]. Qed.

Lemma malloc_Ok n w a w' :
  malloc n w = Ok a w' →
  w_heap w' = w_heap w ∧ w_emv w' = w_emv w ∧
  w_trace w' = w_trace w ∧ w_nalloc w' = S (w_nalloc w).
Proof. by intros [= <- <-]. Qed.

(** The primitives that leave the buffers alone. *)

Lemma heap_kept_emit ev : preserves heap_kept (emit ev).
Proof. by intros w a w' ->%emit_Ok. Qed.
Lemma heap_kept_get_emv : preserves heap_kept get_emv.
Proof. by intros w a w' [-> _]%get_emv_Ok. Qed.
Lemma heap_kept_get_heap : preserves heap_kept get_heap.
Proof. by intros w a w' [-> _]%get_heap_Ok. Qed.
Lemma heap_kept_modify_emv f : preserves heap_kept (modify_emv f).
Proof. by intros w a w' [= <- <-]. Qed.
Lemma heap_kept_deref p : preserves heap_kept (deref p).
Proof. by intros w a w' [-> _]%deref_Ok. Qed.
Lemma heap_kept_lib_alloc : preserves heap_kept lib_alloc.
Proof. by intros w a w' (_ & ? & _)%lib_alloc_Ok. Qed.
Lemma heap_kept_malloc n : preserves heap_kept (malloc n).
Proof. by intros w a w' (? & _)%malloc_Ok. Qed.

(** The primitives that leave the transaction context alone. *)

Lemma emv_kept_emit ev : preserves emv_kept (emit ev).
Proof. by intros w a w' ->%emit_Ok. Qed.
Lemma emv_kept_get_emv : preserves emv_kept get_emv.
Proof. by intros w a w' [-> _]%get_emv_Ok. Qed.
Lemma emv_kept_get_heap : preserves emv_kept get_heap.
Proof. by intros w a w' [-> _]%get_heap_Ok. Qed.
Lemma emv_kept_deref p : preserves emv_kept (deref p).
Proof. by intros w a w' [-> _]%deref_Ok. Qed.
Lemma emv_kept_set_buffer p b : preserves emv_kept (set_buffer p b).
Proof. by intros w a w' (_ & ? & _)%set_buffer_Ok. Qed.
Lemma emv_kept_lib_alloc : preserves emv_kept lib_alloc.
Proof. by intros w a w' (_ & _ & ? & _)%lib_alloc_Ok. Qed.
Lemma emv_kept_malloc n : preserves emv_kept (malloc n).
Proof. by intros w a w' (_ & ? & _)%malloc_Ok. Qed.

(** The primitives and the buffers outside [L]. *)

Lemma heap_frame_kept {A} L (c : M A) :
  preserves heap_kept c → preserves (heap_frame L) c.
Proof. intros Hc w a w' Hrun l _. by rewrite (Hc w a w' Hrun). Qed.

Lemma heap_frame_set_buffer (L : loc → Prop) p b :
  L p → preserves (heap_frame L) (set_buffer p b).
Proof.
  intros Hp w a w' (Hh & _)%set_buffer_Ok l Hl. rewrite Hh.
  apply lookup_insert_ne. by intros ->.
Qed.

(** The primitives and the calls they make. *)

Lemma trace_grows_silent {A} P (c : M A) :
  (∀ w a w', c w = Ok a w' → w_trace w' = w_trace w) →
  preserves (trace_grows P) c.
Proof.
  intros Hc w a w' Hrun. exists []. rewrite app_nil_r.
  split; [by eapply Hc | constructor].
Qed.

Lemma trace_grows_emit (P : event → Prop) ev :
  P ev → preserves (trace_grows P) (emit ev).
Proof.
  intros Hev w a w' ->%emit_Ok. exists [ev]. split; [done |].
  by repeat constructor.
Qed.

Lemma trace_grows_get_emv P : preserves (trace_grows P) get_emv.
Proof. apply trace_grows_silent. by intros w a w' [-> _]%get_emv_Ok. Qed.
Lemma trace_grows_get_heap P : preserves (trace_grows P) get_heap.
Proof. apply trace_grows_silent. by intros w a w' [-> _]%get_heap_Ok. Qed.
Lemma trace_grows_modify_emv P f : preserves (trace_grows P) (modify_emv f).
Proof. apply trace_grows_silent. by intros w a w' [= <- <-]. Qed.
Lemma trace_grows_deref P p : preserves (trace_grows P) (deref p).
Proof. apply trace_grows_silent. by intros w a w' [-> _]%deref_Ok. Qed.
Lemma trace_grows_set_buffer P p b : preserves (trace_grows P) (set_buffer p b).
Proof.
  apply trace_grows_silent. by intros w a w' (_ & _ & ? & _)%set_buffer_Ok.
Qed.
Lemma trace_grows_lib_alloc P : preserves (trace_grows P) lib_alloc.
Proof.
  apply trace_grows_silent. by intros w a w' (_ & _ & _ & ? & _)%lib_alloc_Ok.
Qed.
Lemma trace_grows_malloc P n : preserves (trace_grows P) (malloc n).
Proof.
  apply trace_grows_silent. by intros w a w' (_ & _ & ? & _)%malloc_Ok.
Qed.

Create HintDb pres discriminated.

#[local] Hint Resolve
  heap_kept_emit heap_kept_get_emv heap_kept_get_heap heap_kept_modify_emv
  heap_kept_deref heap_kept_lib_alloc heap_kept_malloc
  emv_kept_emit emv_kept_get_emv emv_kept_get_heap emv_kept_deref
  emv_kept_set_buffer emv_kept_lib_alloc emv_kept_malloc
  trace_grows_get_emv trace_grows_get_heap trace_grows_modify_emv
  trace_grows_deref trace_grows_set_buffer trace_grows_lib_alloc
  trace_grows_malloc : pres.

#[local] Hint Extern 2 (preserves (trace_grows _) (emit _)) =>
  apply trace_grows_emit; simpl; done : pres.
#[local] Hint Extern 2 (preserves (heap_frame _) (set_buffer _ _)) =>
  apply heap_frame_set_buffer; simpl; done : pres.
#[local] Hint Extern 5 (preserves (heap_frame _) _) =>
  apply heap_frame_kept : pres.

(** One step through the structure of a computation. *)
Ltac pres_step :=
  match goal with
  | |- preserves _ (bind _ _) =>
    apply preserves_bind; [apply _ | | intros ? ]
  | |- preserves _ (ret _) => apply preserves_ret; apply _
  | |- preserves _ undefined => apply preserves_undefined
  | |- preserves _ (lift _) => apply preserves_lift; apply _
  | |- preserves _ (for_loop _ _ _) =>
    apply preserves_for_loop; [apply _ | intros ? ? ]
  | |- preserves _ (match ?x with _ => _ end) => destruct x
  | |- preserves _ _ => solve [eauto with pres]
  end.

Ltac pres := repeat pres_step.

(** *** Which functions write what *)

Lemma heap_kept_load p i : preserves heap_kept (load p i).
Proof. unfold load. pres. Qed.
Lemma heap_kept_load_range p off n : preserves heap_kept (load_range p off n).
Proof. unfold load_range. pres. Qed.
Lemma heap_kept_BN_bin2bn s len : preserves heap_kept (BN_bin2bn s len).
Proof. unfold BN_bin2bn. pres. Qed.
Lemma heap_kept_sha1 msg n : preserves heap_kept (sha1 msg n).
Proof. unfold sha1. pres. Qed.
Lemma heap_kept_retrieve tag : preserves heap_kept (_emv_retrieve_data tag).
Proof. unfold _emv_retrieve_data. pres. Qed.
Lemma heap_kept_data_int d : preserves heap_kept (call_emv_data_int d).
Proof. unfold call_emv_data_int. pres. Qed.

#[local] Hint Resolve heap_kept_load heap_kept_load_range heap_kept_BN_bin2bn
  heap_kept_sha1 heap_kept_retrieve heap_kept_data_int : pres.

Lemma heap_kept_emsa_pss_decode msg msg_len em em_len :
  preserves heap_kept (emsa_pss_decode msg msg_len em em_len).
Proof. unfold emsa_pss_decode, printf. pres. Qed.

Lemma heap_kept_get_required_data : preserves heap_kept get_required_data.
Proof. unfold get_required_data. pres. Qed.

Lemma heap_kept_get_ca_key idx mod_cb exp_cb :
  preserves heap_kept (get_ca_key idx mod_cb exp_cb).
Proof. unfold get_ca_key. pres. Qed.

#[local] Hint Resolve heap_kept_emsa_pss_decode heap_kept_get_required_data
  heap_kept_get_ca_key : pres.

Lemma heap_kept_check_pk_cert req : preserves heap_kept (check_pk_cert req).
Proof. unfold check_pk_cert, printf. pres. Qed.

Lemma heap_kept_make_issuer_pk req : preserves heap_kept (make_issuer_pk req).
Proof. unfold make_issuer_pk, printf. pres. Qed.

Lemma heap_kept_check_ssa ptr len rec num aip :
  preserves heap_kept (check_ssa ptr len rec num aip).
Proof. unfold check_ssa, add_record_len, copy_record. pres. Qed.

#[local] Hint Resolve heap_kept_check_pk_cert heap_kept_make_issuer_pk
  heap_kept_check_ssa : pres.





(** *** Slices and writes *)

Lemma blen_nonneg (b : bytes) : 0 ≤ blen b.
Proof. unfold blen. lia. Qed.

Lemma blen_app (a b : bytes) : blen (a ++ b) = blen a + blen b.
Proof. unfold blen. rewrite length_app. lia. Qed.

Lemma slice_Some (b : bytes) off n :
  0 ≤ off → 0 ≤ n → off + n ≤ blen b →
  slice b off n = Some (take (Z.to_nat n) (drop (Z.to_nat off) b)).
Proof. intros. unfold slice. by rewrite bool_decide_eq_true_2. Qed.


Lemma slice_blen (b : bytes) off n t :
  slice b off n = Some t → blen t = n ∧ 0 ≤ off ∧ off + n ≤ blen b.
Proof.
  unfold slice. case_bool_decide as Hb; [| done]. intros [= <-].
  unfold blen in *. rewrite length_take, length_drop. lia.
Qed.

Lemma slice_full (b : bytes) : slice b 0 (blen b) = Some b.
Proof.
  rewrite slice_Some by (pose proof (blen_nonneg b); lia).
  unfold blen. rewrite Nat2Z.id. change (Z.to_nat 0) with 0%nat.
  by rewrite drop_0, firstn_all.
Qed.

Lemma slice_all (b : bytes) n : blen b = n → slice b 0 n = Some b.
Proof. intros <-. apply slice_full. Qed.


Lemma blit_Some (b : bytes) off src :
  0 ≤ off → off + blen src ≤ blen b →
  blit b off src =
  Some (take (Z.to_nat off) b ++ src ++ drop (Z.to_nat off + length src) b).
Proof. intros. unfold blit. by rewrite bool_decide_eq_true_2. Qed.

Lemma blit_blen (b : bytes) off src b' :
  blit b off src = Some b' → blen b' = blen b.
Proof.
  unfold blit. case_bool_decide as Hb; [| done]. intros [= <-].
  unfold blen in *. rewrite !length_app, length_take, length_drop. lia.
Qed.

Lemma blit_whole (b src : bytes) :
  blen src = blen b → blit b 0 src = Some src.
Proof.
  intros Hlen. pose proof (blen_nonneg b).
  rewrite blit_Some by lia. simpl. unfold blen in Hlen.
  rewrite drop_ge by lia. by rewrite app_nil_r.
Qed.

Lemma blit_start (b src : bytes) :
  blen src ≤ blen b → blit b 0 src = Some (src ++ drop (length src) b).
Proof. intros. by rewrite blit_Some by lia. Qed.

Lemma blen_junk k n : 0 ≤ n → blen (junk k <$> seq 0 (Z.to_nat n)) = n.
Proof. intros. unfold blen. rewrite length_fmap, length_seq. lia. Qed.

(** *** recover *)

(** What [recover] leaves in the caller's buffer when it succeeds: the
    output of the transform, followed by whatever the scratch buffer held
    beyond it. *)
Lemma recover_run ptr len key w b r out :
  w_heap w !! ptr = Some b →
  blen b = len →
  RSA_public_encrypt (to_int len) b key = (r, out) →
  blen out ≤ len →
  let scratch := junk (w_nalloc w) <$> seq 0 (Z.to_nat len) in
  ∃ v w', recover ptr len key w = Ok v w' ∧ w_emv w' = w_emv w ∧
    if alloc_ok (w_nalloc w) && bool_decide (0 ≤ r) &&
       bool_decide (to_unsigned r = len)
    then v = 1 ∧
         w_heap w' = <[ptr := out ++ drop (length out) scratch]> (w_heap w) ∧
         w_trace w' = w_trace w ++ [EvRSA (to_int len) b key]
    else v = 0 ∧ w_heap w' = w_heap w.
Proof.
  intros Hptr Hlen Hrsa Hout scratch.
  pose proof (blen_nonneg b) as Hb0.
  assert (Hs : blen scratch = len) by (apply blen_junk; lia).
  unfold recover, bind, malloc, ret. simpl.
  destruct (alloc_ok (w_nalloc w)) eqn:Hok; simpl; [| by eauto 10].
  rewrite (deref_at _ _ b) by done. simpl. rewrite Hrsa.
  fold scratch. rewrite blit_start by lia. simpl.
  assert (Ht : blen (out ++ drop (length out) scratch) = len).
  { rewrite blen_app. unfold blen in *. rewrite length_drop. lia. }
  destruct (bool_decide (0 ≤ r)) eqn:Hr; simpl.
  - rewrite (bool_decide_eq_false_2 (r < 0))
      by (apply bool_decide_eq_true_1 in Hr; lia). simpl.
    destruct (bool_decide (to_unsigned r = len)) eqn:Hu; simpl.
    + rewrite (bool_decide_eq_false_2 (to_unsigned r ≠ len))
        by (apply bool_decide_eq_true_1 in Hu; tauto).
      rewrite (slice_all _ _ Ht). simpl.
      unfold store_range, bind. rewrite (deref_at _ _ b) by done. simpl.
      rewrite blit_whole by lia. simpl. eauto 10.
    + rewrite (bool_decide_eq_true_2 (to_unsigned r ≠ len))
        by (by apply bool_decide_eq_false_1 in Hu). simpl. eauto 10.
  - rewrite (bool_decide_eq_true_2 (r < 0))
      by (apply bool_decide_eq_false_1 in Hr; lia). simpl. eauto 10.
Qed.

(** *** Reading through a pointer *)

Lemma load_at p i w b :
  w_heap w !! p = Some b → 0 ≤ i → load p i w = lift (b !! Z.to_nat i) w.
Proof.
  intros Hp Hi. unfold load, bind. rewrite (deref_at _ _ b) by done.
  case_bool_decide as Hin; [done |].
  rewrite lookup_ge_None_2; [done |]. unfold blen in Hin. lia.
Qed.

Lemma load_range_at p off n w b :
  w_heap w !! p = Some b → load_range p off n w = lift (slice b off n) w.
Proof. intros Hp. unfold load_range, bind. by rewrite (deref_at _ _ b). Qed.

Lemma SIZE_MOD_eq : SIZE_MOD = 18446744073709551616.
Proof. reflexivity. Qed.

Lemma size_sub_small a b : 0 ≤ b ≤ a → a < SIZE_MOD → size_sub a b = a - b.
Proof. intros. unfold size_sub. apply Z.mod_small. lia. Qed.


Lemma size_add_small a b :
  0 ≤ a → 0 ≤ b → a + b < SIZE_MOD → size_add a b = a + b.
Proof. intros. unfold size_add. apply Z.mod_small. lia. Qed.

Lemma last_lookup_Z (b : bytes) :
  0 < blen b → b !! Z.to_nat (blen b - 1) = last b.
Proof.
  intros Hb. rewrite last_lookup. f_equal. unfold blen in *. lia.
Qed.

(** *** emsa_pss_decode *)

(** The decoder, step by step, on a block that the pointer really
    designates. *)
Lemma emsa_pss_decode_run msg msg_len em em_len w b :
  blen msg = msg_len →
  w_heap w !! em = Some b →
  let w1 := with_event (EvSHA1 msg) w in
  emsa_pss_decode msg msg_len em em_len w =
  match b !! Z.to_nat (size_sub em_len 1) with
  | None => Undef
  | Some t =>
    if bool_decide (t ≠ 0xbc)
    then Ok 0 (with_event (EvPrintf "emsa-pss: bad trailer") w1)
    else
      match slice b (size_sub (size_sub em_len SHA_DIGEST_LENGTH) 1)
                  SHA_DIGEST_LENGTH with
      | None => Undef
      | Some blk => Ok (if bool_decide (blk = SHA1 msg) then 1 else 0) w1
      end
  end.
Proof.
  intros Hmsg Hem w1. unfold emsa_pss_decode, bind, sha1, bind.
  rewrite (slice_all _ _ Hmsg). simpl. fold w1.
  rewrite (load_at _ _ w1 b) by (done || apply Z.mod_pos_bound; done).
  destruct (b !! Z.to_nat (size_sub em_len 1)) as [t |]; simpl; [| done].
  case_bool_decide; [done |].
  rewrite (load_range_at _ _ _ w1 b) by done.
  destruct (slice b _ _) as [blk |]; simpl; [| done].
  unfold memcmp. destruct (bool_decide (blk = SHA1 msg)); done.
Qed.

Lemma digest_field_eq (b : bytes) :
  SHA_DIGEST_LENGTH + 1 ≤ blen b < SIZE_MOD →
  slice b (size_sub (size_sub (blen b) SHA_DIGEST_LENGTH) 1) SHA_DIGEST_LENGTH
  = digest_field b.
Proof.
  intros Hb. unfold digest_field, SHA_DIGEST_LENGTH in *.
  rewrite (size_sub_small (blen b)) by lia.
  by rewrite size_sub_small by lia.
Qed.

(** On a block with room for a digest and a trailer the decoder always
    answers, and answers 1 exactly when both comparisons pass. *)
Lemma emsa_pss_decode_verdict msg msg_len em em_len w b :
  blen msg = msg_len →
  holds w em em_len b →
  SHA_DIGEST_LENGTH + 1 ≤ em_len < SIZE_MOD →
  ∃ v w', emsa_pss_decode msg msg_len em em_len w = Ok v w' ∧
    (v = 1 ∨ v = 0) ∧
    (v = 1 ↔ trailer_ok b ∧ digest_ok b (SHA1 msg)) ∧
    w_heap w' = w_heap w ∧ w_emv w' = w_emv w ∧
    w_nalloc w' = w_nalloc w ∧
    ∃ evs, w_trace w' = w_trace w ++ EvSHA1 msg :: evs ∧
           Forall no_crypto evs.
Proof.
  intros Hmsg [Hem Hlen] Hrange. subst em_len.
  rewrite (emsa_pss_decode_run _ _ _ _ _ b) by done.
  unfold trailer_ok, digest_ok, trailer.
  assert (Hlast : b !! Z.to_nat (size_sub (blen b) 1) = last b).
  { unfold SHA_DIGEST_LENGTH in *. rewrite size_sub_small by lia.
    apply last_lookup_Z. lia. }
  rewrite Hlast, digest_field_eq by done.
  destruct (last b) as [t |] eqn:Ht.
  2: { apply last_None in Ht. subst b. unfold blen, SHA_DIGEST_LENGTH in *.
       simpl in *. lia. }
  case_bool_decide as Htr.
  - do 2 eexists. split; [done |]. simpl.
    split_and!; try done; [right; done | | ].
    + split; [done |]. intros [[= ->] _]. done.
    + exists [EvPrintf "emsa-pss: bad trailer"].
      rewrite <- app_assoc. split; [done |]. by repeat constructor.
  - subst t.
    assert (is_Some (digest_field b)) as [blk Hblk].
    { unfold digest_field, SHA_DIGEST_LENGTH in *.
      rewrite slice_Some by lia. done. }
    rewrite Hblk. do 2 eexists. split; [done |]. simpl.
    split_and!; try done.
    + case_bool_decide; auto.
    + case_bool_decide; subst; split; try done.
      * intros [_ [= ?]]. done.
    + exists []. split; [done | constructor].
Qed.

(** *** Filling a scratch buffer front to back *)

Lemma blit_app_r (p rest src : bytes) :
  blen src ≤ blen rest →
  blit (p ++ rest) (blen p) src = Some ((p ++ src) ++ drop (length src) rest).
Proof.
  intros Hlen. pose proof (blen_nonneg p).
  rewrite blit_Some by (rewrite ?blen_app; lia).
  unfold blen. rewrite Nat2Z.id, take_app_length, drop_app_add.
  by rewrite <- app_assoc.
Qed.

Lemma signed_part_slice (b : bytes) :
  SHA_DIGEST_LENGTH + 2 ≤ blen b →
  slice b 1 (blen b - (SHA_DIGEST_LENGTH + 2)) = Some (signed_part b).
Proof.
  intros Hb. unfold SHA_DIGEST_LENGTH in *. rewrite slice_Some by lia. done.
Qed.

Lemma signed_part_blen (b : bytes) :
  SHA_DIGEST_LENGTH + 2 ≤ blen b →
  blen (signed_part b) = blen b - (SHA_DIGEST_LENGTH + 2).
Proof.
  intros Hb. pose proof (signed_part_slice b Hb) as Hs.
  by apply slice_blen in Hs as [? _].
Qed.

Lemma lookup_in_block (b : bytes) (i : nat) :
  Z.of_nat i < blen b → is_Some (b !! i).
Proof. intros. apply lookup_lt_is_Some. unfold blen in *. lia. Qed.

(** *** check_pk_cert *)

(** The certificate stage on a recovered certificate [c] of at least
    [SHA_DIGEST_LENGTH + 2] bytes: three header comparisons, then the
    decoder on the message built from [c], the remainder and the
    exponent. *)
Lemma check_pk_cert_run req w c r x :
  holds w (pk_cert req) (pk_cert_len req) c →
  holds w (pk_r req) (pk_r_len req) r →
  holds w (pk_exp req) (pk_exp_len req) x →
  SHA_DIGEST_LENGTH + 2 ≤ pk_cert_len req →
  pk_cert_len req + pk_r_len req + pk_exp_len req < SIZE_MOD →
  let msg := signed_part c ++ r ++ x in
  check_pk_cert req w =
  if bool_decide (c !! 0%nat ≠ Some 0x6a) then
    Ok 0 (with_event (EvPrintf "emv-sda: bad certificate header") w)
  else if bool_decide (c !! 1%nat ≠ Some 0x02) then
    Ok 0 (with_event (EvPrintf "emv-sda: bad certificate format") w)
  else if bool_decide (c !! 11%nat ≠ Some 0x01) then
    Ok 0 (with_event (EvPrintf "emv-sda: unexpected hash algorithm") w)
  else if alloc_ok (w_nalloc w) then
    emsa_pss_decode msg (blen msg) (pk_cert req) (pk_cert_len req)
      (with_alloc w)
  else Ok 0 (with_alloc w).
Proof.
  intros [Hc Hclen] [Hr Hrlen] [Hx Hxlen] Hmin Hmax msg.
  pose proof (blen_nonneg r). pose proof (blen_nonneg x).
  unfold SHA_DIGEST_LENGTH in *.
  destruct (lookup_in_block c 0) as [b0 Hb0]; [lia |].
  destruct (lookup_in_block c 1) as [b1 Hb1]; [lia |].
  destruct (lookup_in_block c 11) as [b11 Hb11]; [lia |].
  unfold check_pk_cert, bind, printf. unfold SHA_DIGEST_LENGTH.
  rewrite (load_at _ _ w c) by done. change (Z.to_nat 0) with 0%nat.
  rewrite Hb0. simpl.
  destruct (bool_decide (b0 ≠ 106)) eqn:E0.
  { rewrite bool_decide_eq_true_2; [done |].
    apply bool_decide_eq_true_1 in E0. congruence. }
  rewrite bool_decide_eq_false_2
    by (apply bool_decide_eq_false_1 in E0; intros ?; apply E0; congruence).
  rewrite (load_at _ _ w c) by done. change (Z.to_nat 1) with 1%nat.
  rewrite Hb1. simpl.
  destruct (bool_decide (b1 ≠ 2)) eqn:E1.
  { rewrite bool_decide_eq_true_2; [done |].
    apply bool_decide_eq_true_1 in E1. congruence. }
  rewrite bool_decide_eq_false_2
    by (apply bool_decide_eq_false_1 in E1; intros ?; apply E1; congruence).
  rewrite (load_at _ _ w c) by done. change (Z.to_nat 11) with 11%nat.
  rewrite Hb11. simpl.
  destruct (bool_decide (b11 ≠ 1)) eqn:E11.
  { rewrite bool_decide_eq_true_2; [done |].
    apply bool_decide_eq_true_1 in E11. congruence. }
  rewrite bool_decide_eq_false_2
    by (apply bool_decide_eq_false_1 in E11; intros ?; apply E11; congruence).
  unfold malloc, ret. simpl.
  destruct (alloc_ok (w_nalloc w)) eqn:Hok; [| done]. fold (with_alloc w).
  change (20 + 2) with 22.
  rewrite (size_sub_small (pk_cert_len req) 22) by lia.
  rewrite (size_add_small (pk_cert_len req - 22)) by lia.
  rewrite (size_add_small (pk_cert_len req - 22 + pk_r_len req)) by lia.
  set (J := junk (w_nalloc w) <$> _).
  assert (HJ : blen J = pk_cert_len req - 22 + pk_r_len req + pk_exp_len req)
    by (apply blen_junk; lia).
  assert (Hsp : blen (signed_part c) = pk_cert_len req - 22).
  { rewrite <- Hclen. apply signed_part_blen. unfold SHA_DIGEST_LENGTH. lia. }
  assert (Hsl : slice c 1 (pk_cert_len req - 22) = Some (signed_part c)).
  { rewrite <- Hclen. apply signed_part_slice. unfold SHA_DIGEST_LENGTH. lia. }
  rewrite (load_range_at _ _ _ _ c) by done.
  rewrite Hsl. simpl. rewrite blit_start by lia. simpl.
  rewrite (load_range_at _ _ _ _ r) by done.
  rewrite (slice_all r) by done. simpl.
  rewrite <- Hsp. rewrite blit_app_r
    by (unfold blen in *; rewrite length_drop; lia).
  simpl. rewrite (load_range_at _ _ _ _ x) by done.
  rewrite (slice_all x) by done. simpl.
  rewrite <- Hrlen, <- blen_app. rewrite blit_app_r
    by (unfold blen in *; rewrite !length_drop; lia).
  simpl. rewrite drop_ge
    by (unfold blen in *; rewrite !length_drop; lia).
  rewrite app_nil_r, <- app_assoc. fold msg.
  replace (blen (signed_part c ++ r) + pk_exp_len req) with (blen msg)
    by (unfold msg; rewrite !blen_app; lia).
  done.
Qed.

(** *** make_issuer_pk *)

Lemma key_body_slice (c : bytes) :
  15 + 21 ≤ blen c → slice c 15 (blen c - (15 + 21)) = Some (key_body c).
Proof. intros Hc. rewrite slice_Some by lia. done. Qed.

Lemma key_body_blen (c : bytes) :
  15 + 21 ≤ blen c → blen (key_body c) = blen c - (15 + 21).
Proof.
  intros Hc. pose proof (key_body_slice c Hc) as Hs.
  by apply slice_blen in Hs as [? _].
Qed.

(** The key built from a recovered certificate [c] of at least 36 bytes
    and a remainder of at most 36 bytes.  The modulus is always
    [pk_cert_len] bytes long: the key body, the remainder, and then what
    the scratch buffer held from there on. *)
Lemma make_issuer_pk_run req w c r x :
  holds w (pk_cert req) (pk_cert_len req) c →
  holds w (pk_r req) (pk_r_len req) r →
  holds w (pk_exp req) (pk_exp_len req) x →
  15 + 21 ≤ pk_cert_len req < SIZE_MOD →
  pk_r_len req ≤ 15 + 21 →
  let k := w_nalloc w in
  let scratch := junk k <$> seq 0 (Z.to_nat (pk_cert_len req)) in
  let n := (key_body c ++ r) ++
           drop (length r) (drop (length (key_body c)) scratch) in
  ∃ w', make_issuer_pk req w =
    Ok (if alloc_ok k && alloc_ok (S k) && alloc_ok (S (S k)) &&
           alloc_ok (S (S (S k)))
        then Some {| rsa_n := n; rsa_e := x |} else None) w' ∧
    w_heap w' = w_heap w ∧ w_emv w' = w_emv w ∧
    ∃ evs, w_trace w' = w_trace w ++ evs ∧ Forall no_crypto evs.
Proof.
  intros [Hc Hclen] [Hr Hrlen] [Hx Hxlen] Hmin Hrmax k scratch n.
  pose proof (blen_nonneg r).
  assert (Hkb : blen (key_body c) = pk_cert_len req - (15 + 21))
    by (rewrite <- Hclen; apply key_body_blen; lia).
  assert (Hsl : slice c 15 (pk_cert_len req - (15 + 21)) = Some (key_body c))
    by (rewrite <- Hclen; apply key_body_slice; lia).
  assert (Hs : blen scratch = pk_cert_len req) by (apply blen_junk; lia).
  unfold make_issuer_pk, bind, malloc, printf, ret. simpl. fold k.
  destruct (alloc_ok k) eqn:Hk0; simpl.
  2: { eexists. split; [done |]. split_and!; try done.
       exists []. by rewrite app_nil_r. }
  fold scratch. rewrite (size_sub_small (pk_cert_len req) (15 + 21)) by lia.
  rewrite (load_range_at _ _ _ _ c) by done. rewrite Hsl. simpl.
  rewrite blit_start by lia. simpl.
  rewrite (load_range_at _ _ _ _ r) by done. rewrite (slice_all r) by done.
  simpl. rewrite <- Hkb. rewrite blit_app_r
    by (unfold blen in *; rewrite length_drop; lia).
  simpl. fold n.
  assert (Hn : blen n = pk_cert_len req).
  { unfold n. rewrite !blen_app. unfold blen in *.
    rewrite !length_drop. lia. }
  destruct (alloc_ok (S k)) eqn:Hk1; simpl.
  2: { eexists. split; [done |]. split_and!; try done.
       eexists. split; [by rewrite <- app_assoc |]. by repeat constructor. }
  unfold BN_bin2bn, bind, lib_alloc, ret. rewrite (slice_all n) by done. simpl.
  rewrite (load_range_at _ _ _ _ x) by done. rewrite (slice_all x) by done.
  simpl. rewrite (slice_all x) by done. simpl.
  eexists. split.
  { destruct (alloc_ok (S (S k))), (alloc_ok (S (S (S k)))); done. }
  simpl. split_and!; try done.
  eexists. split; [by rewrite <- app_assoc |]. by repeat constructor.
Qed.

(** *** check_ssa *)

Lemma data_len_loop w (pre l : list _emv_data) (bufs : list bytes) acc :
  record_bytes w l bufs →
  0 ≤ acc → acc + blen (concat bufs) < SIZE_MOD →
  for_loop (seq (length pre) (length l)) acc (add_record_len (pre ++ l)) w
  = Ok (acc + blen (concat bufs)) w.
Proof.
  intros Hrec. revert pre acc.
  induction Hrec as [| d b l bufs (p & Hp & Hb & Hlen) Hrec IH];
    intros pre acc Hacc Hmax; simpl.
  - unfold ret. f_equal. unfold blen. simpl. lia.
  - cbn [concat] in Hmax. rewrite blen_app in Hmax.
    pose proof (blen_nonneg b). pose proof (blen_nonneg (concat bufs)).
    unfold bind at 1. unfold add_record_len at 1. unfold bind.
    rewrite list_lookup_middle by done. simpl.
    rewrite size_add_small by lia.
    replace (pre ++ d :: l) with ((pre ++ [d]) ++ l) by by rewrite <- app_assoc.
    replace (S (length pre)) with (length (pre ++ [d]))
      by (rewrite length_app; simpl; lia).
    rewrite IH by lia. f_equal. rewrite blen_app. lia.
Qed.

Lemma copy_loop w (pre l : list _emv_data) (bufs : list bytes)
    (filled rest : bytes) :
  record_bytes w l bufs →
  blen (concat bufs) ≤ blen rest →
  for_loop (seq (length pre) (length l)) (filled ++ rest, blen filled)
    (copy_record (pre ++ l)) w
  = Ok ((filled ++ concat bufs) ++ drop (length (concat bufs)) rest,
        blen filled + blen (concat bufs)) w.
Proof.
  intros Hrec. revert pre filled rest.
  induction Hrec as [| d b l bufs (p & Hp & Hb & Hlen) Hrec IH];
    intros pre filled rest Hfit; simpl.
  - unfold ret. rewrite app_nil_r, drop_0. f_equal. f_equal.
    unfold blen. simpl. lia.
  - cbn [concat] in Hfit. rewrite blen_app in Hfit.
    pose proof (blen_nonneg b). pose proof (blen_nonneg (concat bufs)).
    unfold bind at 1. unfold copy_record at 1. unfold bind.
    rewrite list_lookup_middle by done. simpl. rewrite Hp. simpl.
    rewrite (load_range_at _ _ _ _ b) by done.
    rewrite (slice_all b) by done. simpl.
    rewrite blit_app_r by lia. simpl. unfold ret.
    replace (pre ++ d :: l) with ((pre ++ [d]) ++ l) by by rewrite <- app_assoc.
    replace (S (length pre)) with (length (pre ++ [d]))
      by (rewrite length_app; simpl; lia).
    rewrite <- Hlen, <- blen_app.
    rewrite IH by (unfold blen in *; rewrite length_drop; lia).
    f_equal. rewrite drop_drop, <- length_app, !blen_app.
    rewrite <- !app_assoc. f_equal. lia.
Qed.

Lemma data_len_all w (rec : list _emv_data) (bufs : list bytes) :
  record_bytes w rec bufs →
  2 + blen (concat bufs) < SIZE_MOD →
  for_loop (seq 0 (length rec)) 2 (add_record_len rec) w
  = Ok (2 + blen (concat bufs)) w.
Proof. intros Hrec Hmax. by apply (data_len_loop w [] rec bufs 2). Qed.

Lemma copy_all w (rec : list _emv_data) (bufs : list bytes)
    (filled rest : bytes) :
  record_bytes w rec bufs →
  blen (concat bufs) ≤ blen rest →
  for_loop (seq 0 (length rec)) (filled ++ rest, blen filled)
    (copy_record rec) w
  = Ok ((filled ++ concat bufs) ++ drop (length (concat bufs)) rest,
        blen filled + blen (concat bufs)) w.
Proof. intros Hrec Hfit. by apply (copy_loop w [] rec bufs). Qed.

(** The signed-data stage after its header checks, on a recovered block
    [s] of at least [SHA_DIGEST_LENGTH + 2] bytes: the decoder on the
    message built from [s], the records in the order of the list, and the
    two AIP bytes. *)
Lemma check_ssa_run ptr len rec num aip w s bufs :
  holds w ptr len s →
  record_bytes w rec bufs →
  num = Z.of_nat (length rec) →
  SHA_DIGEST_LENGTH + 2 ≤ len →
  len + blen (concat bufs) < SIZE_MOD →
  let msg := signed_part s ++ concat bufs ++ [aip.1; aip.2] in
  check_ssa ptr len rec num aip w =
  if alloc_ok (w_nalloc w) then
    emsa_pss_decode msg (blen msg) ptr len (with_alloc w)
  else Ok 0 (with_alloc w).
Proof.
  intros [Hs Hslen] Hrec -> Hmin Hmax msg.
  pose proof (blen_nonneg (concat bufs)). unfold SHA_DIGEST_LENGTH in *.
  assert (Hsp : blen (signed_part s) = len - 22).
  { rewrite <- Hslen. apply signed_part_blen. unfold SHA_DIGEST_LENGTH. lia. }
  assert (Hsl : slice s 1 (len - 22) = Some (signed_part s)).
  { rewrite <- Hslen. apply signed_part_slice. unfold SHA_DIGEST_LENGTH. lia. }
  unfold check_ssa, bind. unfold SHA_DIGEST_LENGTH. rewrite Nat2Z.id.
  rewrite (data_len_all w rec bufs) by (done || lia).
  change (20 + 2) with 22. rewrite (size_sub_small len 22) by lia.
  rewrite size_add_small by lia.
  unfold malloc, ret. simpl.
  destruct (alloc_ok (w_nalloc w)) eqn:Hok; [| done]. fold (with_alloc w).
  set (J := junk (w_nalloc w) <$> _).
  assert (HJ : blen J = len - 22 + (2 + blen (concat bufs)))
    by (apply blen_junk; lia).
  rewrite (load_range_at _ _ _ _ s) by done. rewrite Hsl. simpl.
  rewrite blit_start by lia. simpl. rewrite <- Hsp.
  rewrite (copy_all (with_alloc w) rec bufs)
    by (done || unfold blen in *; rewrite length_drop; lia).
  rewrite <- blen_app. rewrite blit_app_r
    by (unfold blen in *; rewrite !length_drop; simpl; lia).
  simpl. rewrite drop_ge
    by (unfold blen in *; rewrite !length_drop; simpl; lia).
  rewrite app_nil_r, <- app_assoc. fold msg.
  replace (blen (signed_part s) + (2 + blen (concat bufs))) with (blen msg).
  - done.
  - unfold msg. rewrite !blen_app. unfold blen. simpl. lia.
Qed.

(** *** verify_ssa_data *)

(** The header checks of the signed-data stage, once the block has been
    recovered into [s]. *)
Lemma verify_ssa_data_run rec num req key aip w w1 s bufs :
  recover (ssa_data req) (ssa_data_len req) key w = Ok 1 w1 →
  holds w1 (ssa_data req) (ssa_data_len req) s →
  record_bytes w1 rec bufs →
  num = Z.of_nat (length rec) →
  SHA_DIGEST_LENGTH + 2 ≤ ssa_data_len req →
  ssa_data_len req + blen (concat bufs) < SIZE_MOD →
  let msg := signed_part s ++ concat bufs ++ [aip.1; aip.2] in
  verify_ssa_data rec num req key aip w =
  if bool_decide (s !! 0%nat ≠ Some 0x6a) then
    Ok 0 (with_event (EvPrintf "error: SSA data bad signature byte") w1)
  else if bool_decide (s !! 1%nat ≠ Some 0x03) then
    Ok 0 (with_event (EvPrintf "error: SSA data bad format") w1)
  else if bool_decide (s !! 2%nat ≠ Some 0x01) then
    Ok 0 (with_event
            (EvPrintf "error: unexpected hash format in SSA data") w1)
  else if alloc_ok (w_nalloc w1) then
    emsa_pss_decode msg (blen msg) (ssa_data req) (ssa_data_len req)
      (with_alloc w1)
  else Ok 0 (with_alloc w1).
Proof.
  intros Hrecover [Hs Hslen] Hrec Hnum Hmin Hmax msg.
  unfold SHA_DIGEST_LENGTH in *.
  destruct (lookup_in_block s 0) as [b0 Hb0]; [lia |].
  destruct (lookup_in_block s 1) as [b1 Hb1]; [lia |].
  destruct (lookup_in_block s 2) as [b2 Hb2]; [lia |].
  unfold verify_ssa_data, bind, printf. rewrite Hrecover.
  rewrite bool_decide_eq_false_2 by done.
  rewrite (load_at _ _ w1 s) by done. change (Z.to_nat 0) with 0%nat.
  rewrite Hb0. simpl.
  destruct (bool_decide (b0 ≠ 106)) eqn:E0.
  { rewrite bool_decide_eq_true_2; [done |].
    apply bool_decide_eq_true_1 in E0. congruence. }
  rewrite bool_decide_eq_false_2
    by (apply bool_decide_eq_false_1 in E0; intros ?; apply E0; congruence).
  rewrite (load_at _ _ w1 s) by done. change (Z.to_nat 1) with 1%nat.
  rewrite Hb1. simpl.
  destruct (bool_decide (b1 ≠ 3)) eqn:E1.
  { rewrite bool_decide_eq_true_2; [done |].
    apply bool_decide_eq_true_1 in E1. congruence. }
  rewrite bool_decide_eq_false_2
    by (apply bool_decide_eq_false_1 in E1; intros ?; apply E1; congruence).
  rewrite (load_at _ _ w1 s) by done. change (Z.to_nat 2) with 2%nat.
  rewrite Hb2. simpl.
  destruct (bool_decide (b2 ≠ 1)) eqn:E2.
  { rewrite bool_decide_eq_true_2; [done |].
    apply bool_decide_eq_true_1 in E2. congruence. }
  rewrite bool_decide_eq_false_2
    by (apply bool_decide_eq_false_1 in E2; intros ?; apply E2; congruence).
  by apply check_ssa_run.
Qed.

(** *** emv_authenticate_static_data *)

(** An attempt takes one of the six shapes, and only those. *)
Lemma authenticate_shape mod_cb exp_cb w r w' :
  emv_authenticate_static_data mod_cb exp_cb w = Ok r w' ↔
  run_shape mod_cb exp_cb w r w'.
Proof.
  unfold emv_authenticate_static_data, bind, get_emv, printf, ret.
  split.
  - intros Hrun. simpl in Hrun.
    case_bool_decide as Haip.
    { simplify_eq. by apply stop_at_aip; unfold sda_supported; intros []. }
    destruct (get_required_data w) as [[req |] w1 |] eqn:Hreq; try done.
    2: { simplify_eq. by apply stop_at_data. }
    destruct (get_ca_key _ _ _ w1) as [[[ca_key ca_key_len] |] w2 |] eqn:Hca;
      try done.
    2: { simplify_eq. by eapply stop_at_ca_key. }
    simpl in Hrun. fold (with_emv (set_e_ca_pk (Some ca_key)) w2) in Hrun.
    destruct (get_issuer_pk _ _ _ _) as [[iss_key |] w3 |] eqn:Hiss; try done.
    2: { simplify_eq. by eapply stop_at_issuer. }
    simpl in Hrun.
    fold (with_emv (set_e_iss_pk (Some iss_key)) w3) in Hrun.
    destruct (verify_ssa_data _ _ _ _ _ _) as [ok w4 |] eqn:Hssa; try done.
    case_bool_decide as Hok; simplify_eq.
    + by eapply stop_at_ssa.
    + by eapply all_stages_passed.
  - intros Hshape. simpl.
    destruct Hshape as [Haip | w1 Haip Hreq | req w1 w2 Haip Hreq Hca
      | req w1 ca_key ca_key_len w2 w3 Haip Hreq Hca Hiss
      | req w1 ca_key ca_key_len w2 iss_key w3 w4 Haip Hreq Hca Hiss Hssa
      | req w1 ca_key ca_key_len w2 iss_key w3 ok w4 Haip Hreq Hca Hiss Hssa
          Hok];
      unfold sda_supported in Haip.
    + rewrite bool_decide_eq_true_2; [done |]. by apply dec_stable.
    + rewrite bool_decide_eq_false_2 by done. by rewrite Hreq.
    + rewrite bool_decide_eq_false_2 by done. by rewrite Hreq, Hca.
    + rewrite bool_decide_eq_false_2 by done. rewrite Hreq, Hca. simpl.
      fold (with_emv (set_e_ca_pk (Some ca_key)) w2). by rewrite Hiss.
    + rewrite bool_decide_eq_false_2 by done. rewrite Hreq, Hca. simpl.
      fold (with_emv (set_e_ca_pk (Some ca_key)) w2). rewrite Hiss. simpl.
      fold (with_emv (set_e_iss_pk (Some iss_key)) w3). simpl in Hssa.
      by rewrite Hssa.
    + rewrite bool_decide_eq_false_2 by done. rewrite Hreq, Hca. simpl.
      fold (with_emv (set_e_ca_pk (Some ca_key)) w2). rewrite Hiss. simpl.
      fold (with_emv (set_e_iss_pk (Some iss_key)) w3). simpl in Hssa.
      rewrite Hssa. by rewrite bool_decide_eq_false_2.
Qed.

(** *** The stages and the transaction context *)

Lemma emv_kept_load p i : preserves emv_kept (load p i).
Proof. unfold load. pres. Qed.
Lemma emv_kept_load_range p off n : preserves emv_kept (load_range p off n).
Proof. unfold load_range. pres. Qed.
Lemma emv_kept_store_range p off src :
  preserves emv_kept (store_range p off src).
Proof. unfold store_range. pres. Qed.
Lemma emv_kept_BN_bin2bn s len : preserves emv_kept (BN_bin2bn s len).
Proof. unfold BN_bin2bn. pres. Qed.
Lemma emv_kept_sha1 msg n : preserves emv_kept (sha1 msg n).
Proof. unfold sha1. pres. Qed.
Lemma emv_kept_retrieve tag : preserves emv_kept (_emv_retrieve_data tag).
Proof. unfold _emv_retrieve_data. pres. Qed.
Lemma emv_kept_data_int d : preserves emv_kept (call_emv_data_int d).
Proof. unfold call_emv_data_int. pres. Qed.

#[local] Hint Resolve emv_kept_load emv_kept_load_range emv_kept_store_range
  emv_kept_BN_bin2bn emv_kept_sha1 emv_kept_retrieve emv_kept_data_int : pres.

Lemma emv_kept_emsa_pss_decode msg msg_len em em_len :
  preserves emv_kept (emsa_pss_decode msg msg_len em em_len).
Proof. unfold emsa_pss_decode, printf. pres. Qed.

Lemma emv_kept_get_required_data : preserves emv_kept get_required_data.
Proof. unfold get_required_data. pres. Qed.

Lemma emv_kept_get_ca_key idx mod_cb exp_cb :
  preserves emv_kept (get_ca_key idx mod_cb exp_cb).
Proof. unfold get_ca_key. pres. Qed.

Lemma emv_kept_recover ptr len key : preserves emv_kept (recover ptr len key).
Proof. unfold recover. pres. Qed.

#[local] Hint Resolve emv_kept_emsa_pss_decode emv_kept_get_required_data
  emv_kept_get_ca_key emv_kept_recover : pres.

Lemma emv_kept_check_pk_cert req : preserves emv_kept (check_pk_cert req).
Proof. unfold check_pk_cert, printf. pres. Qed.

Lemma emv_kept_make_issuer_pk req : preserves emv_kept (make_issuer_pk req).
Proof. unfold make_issuer_pk, printf. pres. Qed.

Lemma emv_kept_check_ssa ptr len rec num aip :
  preserves emv_kept (check_ssa ptr len rec num aip).
Proof. unfold check_ssa, add_record_len, copy_record. pres. Qed.

#[local] Hint Resolve emv_kept_check_pk_cert emv_kept_make_issuer_pk
  emv_kept_check_ssa : pres.

Lemma emv_kept_get_issuer_pk req ca_key key_len :
  preserves emv_kept (get_issuer_pk req ca_key key_len).
Proof. unfold get_issuer_pk, printf. pres. Qed.

Lemma emv_kept_verify_ssa_data rec num req key aip :
  preserves emv_kept (verify_ssa_data rec num req key aip).
Proof. unfold verify_ssa_data, printf. pres. Qed.

(** *** The stages before the certificate make no cryptographic call *)

Lemma quiet_retrieve tag :
  preserves (trace_grows no_crypto) (_emv_retrieve_data tag).
Proof. unfold _emv_retrieve_data. pres. Qed.
Lemma quiet_data_int d :
  preserves (trace_grows no_crypto) (call_emv_data_int d).
Proof. unfold call_emv_data_int. pres. Qed.
Lemma quiet_BN_bin2bn s len :
  preserves (trace_grows no_crypto) (BN_bin2bn s len).
Proof. unfold BN_bin2bn. pres. Qed.

#[local] Hint Resolve quiet_retrieve quiet_data_int quiet_BN_bin2bn : pres.

Lemma quiet_get_required_data :
  preserves (trace_grows no_crypto) get_required_data.
Proof. unfold get_required_data. pres. Qed.

Lemma quiet_get_ca_key idx mod_cb exp_cb :
  preserves (trace_grows no_crypto) (get_ca_key idx mod_cb exp_cb).
Proof. unfold get_ca_key. pres. Qed.

(** The values the stages return. *)

Lemma emsa_pss_decode_01 msg msg_len em em_len w v w' :
  emsa_pss_decode msg msg_len em em_len w = Ok v w' → v = 0 ∨ v = 1.
Proof.
  unfold emsa_pss_decode, bind, printf, ret. intros Hrun.
  repeat case_match; simplify_eq; auto.
Qed.

Lemma check_ssa_01 ptr len rec num aip w v w' :
  check_ssa ptr len rec num aip w = Ok v w' → v = 0 ∨ v = 1.
Proof.
  unfold check_ssa, bind, ret. intros Hrun.
  repeat case_match; simplify_eq; eauto using emsa_pss_decode_01.
Qed.

Lemma verify_ssa_data_01 rec num req key aip w v w' :
  verify_ssa_data rec num req key aip w = Ok v w' → v = 0 ∨ v = 1.
Proof.
  unfold verify_ssa_data, bind, printf, ret. intros Hrun.
  repeat case_match; simplify_eq; eauto using check_ssa_01.
Qed.

(** *** What the first two stages return *)

Lemma get_required_data_total w : ∃ o w1, get_required_data w = Ok o w1.
Proof.
  unfold get_required_data, _emv_retrieve_data, call_emv_data_int, bind,
    emit, get_emv, get_heap, ret. simpl.
  repeat case_match; eauto.
Qed.

Lemma get_required_data_Some w req w1 :
  get_required_data w = Ok (Some req) w1 →
  let tags := e_tags (w_emv w) in
  ca_pk_idx req = emv_data_int (w_heap w) (tags !! EMV_TAG_CA_PK_INDEX) ∧
  tags !! EMV_TAG_ISS_PK_CERT
    = Some {| d_data := Some (pk_cert req); d_len := pk_cert_len req |} ∧
  tags !! EMV_TAG_ISS_PK_R
    = Some {| d_data := Some (pk_r req); d_len := pk_r_len req |} ∧
  tags !! EMV_TAG_ISS_PK_EXP
    = Some {| d_data := Some (pk_exp req); d_len := pk_exp_len req |} ∧
  tags !! EMV_TAG_SSA_DATA
    = Some {| d_data := Some (ssa_data req); d_len := ssa_data_len req |}.
Proof.
  unfold get_required_data, _emv_retrieve_data, call_emv_data_int, bind,
    emit, get_emv, get_heap, ret. simpl. intros Hrun.
  repeat case_match; simplify_eq. simpl.
  repeat match goal with d : _emv_data |- _ => destruct d end.
  simpl in *. by simplify_eq.
Qed.

Lemma get_ca_key_defined idx mod_cb exp_cb w :
  ¬ releases_twice idx mod_cb exp_cb (w_nalloc w) →
  ∃ o w2, get_ca_key idx mod_cb exp_cb w = Ok o w2.
Proof.
  unfold releases_twice, get_ca_key, BN_bin2bn, lib_alloc, bind, emit, ret.
  intros Hdef.
  destruct (mod_cb idx) as [m |]; [| by eauto].
  destruct (exp_cb idx) as [x |]; [| by eauto]. simpl.
  destruct (alloc_ok (w_nalloc w)); simpl; [| by eauto].
  rewrite slice_full. simpl.
  destruct (alloc_ok (S (w_nalloc w))); simpl; [| by eauto].
  rewrite slice_full. simpl.
  destruct (alloc_ok (S (S (w_nalloc w)))); simpl; [by eauto |].
  destruct Hdef. by split_and!.
Qed.

Lemma get_ca_key_undefined idx mod_cb exp_cb w :
  releases_twice idx mod_cb exp_cb (w_nalloc w) →
  get_ca_key idx mod_cb exp_cb w = Undef.
Proof.
  unfold releases_twice, get_ca_key, BN_bin2bn, lib_alloc, bind, emit, ret.
  intros ([m ->] & [x ->] & H0 & H1 & H2). simpl.
  rewrite H0. simpl. rewrite slice_full. simpl. rewrite H1. simpl.
  rewrite slice_full. simpl. by rewrite H2.
Qed.

Lemma get_required_data_nalloc w o w1 :
  get_required_data w = Ok o w1 → w_nalloc w1 = w_nalloc w.
Proof.
  unfold get_required_data, _emv_retrieve_data, call_emv_data_int, bind,
    emit, get_emv, get_heap, ret. simpl. intros Hrun.
  repeat case_match; by simplify_eq.
Qed.

(** The key length reported with the CA key is the byte length of the
    modulus the provider returned. *)
Lemma get_ca_key_Some idx mod_cb exp_cb w key key_len w2 :
  get_ca_key idx mod_cb exp_cb w = Ok (Some (key, key_len)) w2 →
  ∃ m x, mod_cb idx = Some m ∧ exp_cb idx = Some x ∧
         key = {| rsa_n := m; rsa_e := x |} ∧ key_len = blen m.
Proof.
  unfold get_ca_key, BN_bin2bn, lib_alloc, bind, emit, ret.
  destruct (mod_cb idx) as [m |]; [| done].
  destruct (exp_cb idx) as [x |]; [| done]. simpl.
  destruct (alloc_ok (w_nalloc w)); simpl; [| done].
  rewrite slice_full. simpl.
  destruct (alloc_ok (S (w_nalloc w))); simpl; [| done].
  rewrite slice_full. simpl.
  destruct (alloc_ok (S (S (w_nalloc w)))); simpl; [| done].
  intros [= <- <- <-]. by exists m, x.
Qed.

(** ** The claims *)

(** C8.  For an input buffer of [len] bytes, [recover] always answers.  It
    writes to the caller's buffer only when the transform's return value
    is non-negative and equal to [len]; when the return value is negative
    or differs from [len] it returns 0 and every buffer is as before. *)
Theorem recover_overwrites_only_on_equal_length ptr len key w b r out :
  holds w ptr len b →
  RSA_public_encrypt (to_int len) b key = (r, out) →
  blen out ≤ len →
  ∃ v w', recover ptr len key w = Ok v w' ∧
    (v = 0 ∨ v = 1) ∧
    (w_heap w' ≠ w_heap w → 0 ≤ r ∧ to_unsigned r = len ∧ v = 1) ∧
    (r < 0 ∨ to_unsigned r ≠ len → v = 0 ∧ w_heap w' = w_heap w) ∧
    (v = 0 → w_heap w' = w_heap w) ∧
    (v = 1 →
     w_heap w' =
     <[ptr := out ++ drop (length out)
                       (junk (w_nalloc w) <$> seq 0 (Z.to_nat len))]>
       (w_heap w)).
Proof.
  intros [Hptr Hlen] Hrsa Hout.
  destruct (recover_run ptr len key w b r out Hptr Hlen Hrsa Hout)
    as (v & w' & Hrun & _ & Hcases).
  exists v, w'. split; [done |].
  destruct (alloc_ok (w_nalloc w)); simpl in Hcases.
  2: { destruct Hcases as [-> Hh]. rewrite Hh. split_and!; auto; done. }
  case_bool_decide as Hr; simpl in Hcases.
  2: { destruct Hcases as [-> Hh]. rewrite Hh. split_and!; auto; done. }
  case_bool_decide as Hu; simpl in Hcases.
  2: { destruct Hcases as [-> Hh]. rewrite Hh. split_and!; auto; done. }
  destruct Hcases as (-> & Hh & _). split_and!; auto; try done.
  intros [? | ?]; [lia | done].
Qed.

(** C4.  On a recovered certificate [c] of at least
    [SHA_DIGEST_LENGTH + 2] bytes the certificate stage always answers.
    Unless byte 0 is 0x6a, byte 1 is 0x02 and byte 11 is 0x01 it returns 0
    after printing its format diagnostic and nothing is hashed.  Otherwise,
    when its message buffer is allocated, the one message it hashes is the
    bytes of [c] at the offsets from 1 up to [len - (SHA_DIGEST_LENGTH + 2)],
    then the remainder, then the exponent, and it returns 1 exactly when
    the whole of [c], taken as the block, passes the decoder's two
    comparisons against that digest. *)
Theorem check_pk_cert_format_and_message req w c r x :
  holds w (pk_cert req) (pk_cert_len req) c →
  holds w (pk_r req) (pk_r_len req) r →
  holds w (pk_exp req) (pk_exp_len req) x →
  SHA_DIGEST_LENGTH + 2 ≤ pk_cert_len req →
  pk_cert_len req + pk_r_len req + pk_exp_len req < SIZE_MOD →
  let msg := signed_part c ++ r ++ x in
  (blen (signed_part c) = pk_cert_len req - (SHA_DIGEST_LENGTH + 2) ∧
   ∀ i : nat, Z.of_nat i < pk_cert_len req - (SHA_DIGEST_LENGTH + 2) →
              signed_part c !! i = c !! S i) ∧
  ∃ v w', check_pk_cert req w = Ok v w' ∧
    (¬ cert_header_ok c →
     v = 0 ∧
     ∃ s, w' = with_event (EvPrintf s) w ∧
          s ∈ ["emv-sda: bad certificate header";
               "emv-sda: bad certificate format";
               "emv-sda: unexpected hash algorithm"]) ∧
    (cert_header_ok c → alloc_ok (w_nalloc w) = true →
     (∃ evs, w_trace w' = w_trace w ++ EvSHA1 msg :: evs ∧
             Forall no_crypto evs) ∧
     (v = 1 ↔ trailer_ok c ∧ digest_ok c (SHA1 msg))) ∧
    (cert_header_ok c → alloc_ok (w_nalloc w) = false → v = 0).
Proof.
  intros Hc Hr Hx Hmin Hmax msg. split.
  { destruct Hc as [_ Hclen]. rewrite <- Hclen in *. split.
    - by apply signed_part_blen.
    - intros i Hi. unfold signed_part.
      rewrite lookup_take_lt by lia. by rewrite lookup_drop. }
  rewrite (check_pk_cert_run req w c r x) by done. fold msg.
  unfold cert_header_ok.
  case_bool_decide as H0.
  { do 2 eexists. split; [done |]. split_and!; try tauto.
    intros _. split; [done |]. eexists. split; [done |]. set_solver. }
  case_bool_decide as H1.
  { do 2 eexists. split; [done |]. split_and!; try tauto.
    intros _. split; [done |]. eexists. split; [done |]. set_solver. }
  case_bool_decide as H11.
  { do 2 eexists. split; [done |]. split_and!; try tauto.
    intros _. split; [done |]. eexists. split; [done |]. set_solver. }
  destruct (alloc_ok (w_nalloc w)) eqn:Hok.
  2: { do 2 eexists. split; [done |]. split_and!; try done.
       intros Hhdr. tauto. }
  destruct (emsa_pss_decode_verdict msg (blen msg) (pk_cert req)
              (pk_cert_len req) (with_alloc w) c)
    as (v & w' & Hrun & _ & Hiff & _ & _ & _ & Htrace).
  { done. }
  { done. }
  { destruct Hc as [_ Hclen]. unfold SHA_DIGEST_LENGTH in *.
    pose proof (blen_nonneg r). pose proof (blen_nonneg x).
    destruct Hr as [_ ?], Hx as [_ ?]. lia. }
  exists v, w'. split; [done |]. split_and!; try done.
  intros Hbad. exfalso. apply Hbad. done.
Qed.

(** C5.  Once the signed static data has been recovered into a block [s]
    of at least [SHA_DIGEST_LENGTH + 2] bytes, the stage always answers.
    Unless byte 0 is 0x6a, byte 1 is 0x03 and byte 2 is 0x01 it returns 0
    after printing its format diagnostic and nothing is hashed.  Otherwise,
    when its message buffer is allocated, the one message it hashes is the
    bytes of [s] at the offsets from 1 up to [len - (SHA_DIGEST_LENGTH + 2)],
    then the bytes of every SDA-relevant record in the order of the list,
    then the two AIP bytes, and it returns 1 exactly when [s] passes the
    decoder's two comparisons against that digest. *)
Theorem verify_ssa_data_format_and_message rec num req key aip w w1 s bufs :
  recover (ssa_data req) (ssa_data_len req) key w = Ok 1 w1 →
  holds w1 (ssa_data req) (ssa_data_len req) s →
  record_bytes w1 rec bufs →
  num = Z.of_nat (length rec) →
  SHA_DIGEST_LENGTH + 2 ≤ ssa_data_len req →
  ssa_data_len req + blen (concat bufs) < SIZE_MOD →
  let msg := signed_part s ++ concat bufs ++ [aip.1; aip.2] in
  (blen (signed_part s) = ssa_data_len req - (SHA_DIGEST_LENGTH + 2) ∧
   ∀ i : nat, Z.of_nat i < ssa_data_len req - (SHA_DIGEST_LENGTH + 2) →
              signed_part s !! i = s !! S i) ∧
  ∃ v w', verify_ssa_data rec num req key aip w = Ok v w' ∧
    (¬ ssa_header_ok s →
     v = 0 ∧
     ∃ str, w' = with_event (EvPrintf str) w1 ∧
            str ∈ ["error: SSA data bad signature byte";
                   "error: SSA data bad format";
                   "error: unexpected hash format in SSA data"]) ∧
    (ssa_header_ok s → alloc_ok (w_nalloc w1) = true →
     (∃ evs, w_trace w' = w_trace w1 ++ EvSHA1 msg :: evs ∧
             Forall no_crypto evs) ∧
     (v = 1 ↔ trailer_ok s ∧ digest_ok s (SHA1 msg))) ∧
    (ssa_header_ok s → alloc_ok (w_nalloc w1) = false → v = 0).
Proof.
  intros Hrecover Hs Hrec Hnum Hmin Hmax msg. split.
  { destruct Hs as [_ Hslen]. rewrite <- Hslen in *. split.
    - by apply signed_part_blen.
    - intros i Hi. unfold signed_part.
      rewrite lookup_take_lt by lia. by rewrite lookup_drop. }
  rewrite (verify_ssa_data_run rec num req key aip w w1 s bufs) by done.
  fold msg. unfold ssa_header_ok.
  case_bool_decide as H0.
  { do 2 eexists. split; [done |]. split_and!; try tauto.
    intros _. split; [done |]. eexists. split; [done |]. set_solver. }
  case_bool_decide as H1.
  { do 2 eexists. split; [done |]. split_and!; try tauto.
    intros _. split; [done |]. eexists. split; [done |]. set_solver. }
  case_bool_decide as H2.
  { do 2 eexists. split; [done |]. split_and!; try tauto.
    intros _. split; [done |]. eexists. split; [done |]. set_solver. }
  destruct (alloc_ok (w_nalloc w1)) eqn:Hok.
  2: { do 2 eexists. split; [done |]. split_and!; try done.
       intros Hhdr. tauto. }
  destruct (emsa_pss_decode_verdict msg (blen msg) (ssa_data req)
              (ssa_data_len req) (with_alloc w1) s)
    as (v & w' & Hrun & _ & Hiff & _ & _ & _ & Htrace).
  { done. }
  { done. }
  { unfold SHA_DIGEST_LENGTH in *.
    pose proof (blen_nonneg (concat bufs)). lia. }
  exists v, w'. split; [done |]. split_and!; try done.
  intros Hbad. exfalso. apply Hbad. done.
Qed.

(** A failed attempt leaves the flag as it was; a successful one sets it. *)
Lemma attempt_flag mod_cb exp_cb w r w' :
  run_shape mod_cb exp_cb w r w' →
  (r = 0 ∧ e_sda_ok (w_emv w') = e_sda_ok (w_emv w)) ∨
  (r = 1 ∧ e_sda_ok (w_emv w') = 1).
Proof.
  intros Hshape.
  destruct Hshape as [Haip | w1 Haip Hreq | req w1 w2 Haip Hreq Hca
    | req w1 ca_key ca_key_len w2 w3 Haip Hreq Hca Hiss
    | req w1 ca_key ca_key_len w2 iss_key w3 w4 Haip Hreq Hca Hiss Hssa
    | req w1 ca_key ca_key_len w2 iss_key w3 ok w4 Haip Hreq Hca Hiss Hssa
        Hok]; [left; split; [done |] .. | right; done]; simpl.
  - done.
  - by rewrite (emv_kept_get_required_data _ _ _ Hreq).
  - rewrite (emv_kept_get_ca_key _ _ _ _ _ _ Hca).
    by rewrite (emv_kept_get_required_data _ _ _ Hreq).
  - rewrite (emv_kept_get_issuer_pk _ _ _ _ _ _ Hiss). simpl.
    rewrite (emv_kept_get_ca_key _ _ _ _ _ _ Hca).
    by rewrite (emv_kept_get_required_data _ _ _ Hreq).
  - simpl in Hssa. rewrite (emv_kept_verify_ssa_data _ _ _ _ _ _ _ _ Hssa).
    simpl. rewrite (emv_kept_get_issuer_pk _ _ _ _ _ _ Hiss). simpl.
    rewrite (emv_kept_get_ca_key _ _ _ _ _ _ Hca).
    by rewrite (emv_kept_get_required_data _ _ _ Hreq).
Qed.

(** C6.  An attempt takes one of six shapes: in five a stage fails, the
    attempt returns 0 and ends in the state that stage left, so no later
    stage has run, and the flag is as before; in the sixth every stage
    passed, the attempt returns 1 and the flag is 1.  Starting from a
    clear flag, the flag is set exactly when every stage passed.  Reading
    the flag with [emv_sda_ok] returns it normalised and changes nothing. *)
Theorem authenticate_is_fail_fast mod_cb exp_cb w r w' :
  emv_authenticate_static_data mod_cb exp_cb w = Ok r w' →
  run_shape mod_cb exp_cb w r w' ∧
  (r = 0 ∨ r = 1) ∧
  (r = 1 ↔ every_stage_passed mod_cb exp_cb w) ∧
  (r = 0 → e_sda_ok (w_emv w') = e_sda_ok (w_emv w)) ∧
  (r = 1 → e_sda_ok (w_emv w') = 1) ∧
  (e_sda_ok (w_emv w) = 0 → (e_sda_ok (w_emv w') = 1 ↔ r = 1)) ∧
  emv_sda_ok w'
    = Ok (if bool_decide (e_sda_ok (w_emv w') = 0) then 0 else 1) w'.
Proof.
  intros Hrun. apply authenticate_shape in Hrun as Hshape.
  split; [done |].
  pose proof (attempt_flag _ _ _ _ _ Hshape) as Hflag.
  split_and!.
  - destruct Hflag as [[-> _] | [-> _]]; auto.
  - split.
    + intros ->. inversion Hshape; subst. unfold every_stage_passed.
      eauto 15.
    + intros (req & w1 & ca_key & ca_key_len & w2 & iss_key & w3 & ok & w4 &
              Haip & Hreq & Hca & Hiss & Hssa & Hok).
      pose proof (all_stages_passed mod_cb exp_cb w _ _ _ _ _ _ _ _ _
                    Haip Hreq Hca Hiss Hssa Hok) as Hpass.
      apply authenticate_shape in Hpass. congruence.
  - intros ->. by destruct Hflag as [[_ ?] | [? _]].
  - intros ->. by destruct Hflag as [[? _] | [_ ?]].
  - intros Hclear. destruct Hflag as [[-> Hf] | [-> Hf]]; rewrite Hf.
    + rewrite Hclear. done.
    + done.
  - done.
Qed.

Lemma length_mismatch_stops req ca_key key_len w :
  pk_cert_len req ≠ key_len →
  get_issuer_pk req ca_key key_len w =
  Ok None
     (with_event (EvPrintf "emv-sda: issuer pubkey cert failed len check") w).
Proof.
  intros Hne. unfold get_issuer_pk. by rewrite bool_decide_eq_true_2.
Qed.

Lemma trace_grows_with_event (P : event → Prop) ev w :
  P ev → trace_grows P w (with_event ev w).
Proof. intros Hev. exists [ev]. split; [done |]. by repeat constructor. Qed.

(** C7.  When the length of the issuer certificate element differs from
    the length of the modulus the CA key provider returns for the card's
    key index, and building the CA key does not end in the double release
    of [get_ca_key], the attempt returns 0, makes neither an RSA call nor
    a hash call, and writes no buffer; when it got as far as holding the
    CA key, the last thing it did was to print the length-check
    diagnostic. *)
Theorem length_mismatch_fails_before_crypto mod_cb exp_cb w d :
  e_tags (w_emv w) !! EMV_TAG_ISS_PK_CERT = Some d →
  (∀ m, mod_cb (emv_data_int (w_heap w)
                  (e_tags (w_emv w) !! EMV_TAG_CA_PK_INDEX)) = Some m →
        blen m ≠ d_len d) →
  ¬ releases_twice (card_index w) mod_cb exp_cb (w_nalloc w) →
  ∃ w', emv_authenticate_static_data mod_cb exp_cb w = Ok 0 w' ∧
    w_heap w' = w_heap w ∧
    e_sda_ok (w_emv w') = e_sda_ok (w_emv w) ∧
    trace_grows no_crypto w w' ∧
    (∀ req w1 ca_key ca_key_len w2,
       sda_supported w →
       get_required_data w = Ok (Some req) w1 →
       get_ca_key (ca_pk_idx req) mod_cb exp_cb w1
         = Ok (Some (ca_key, ca_key_len)) w2 →
       last (w_trace w')
       = Some (EvPrintf "emv-sda: issuer pubkey cert failed len check")).
Proof.
  intros Hcert Hmod Hdef.
  destruct (decide (sda_supported w)) as [Haip | Haip].
  2: { eexists. split; [apply authenticate_shape; by apply stop_at_aip |].
       split_and!; try done.
       by apply (trace_grows_with_event no_crypto). }
  destruct (get_required_data_total w) as (o & w1 & Hreq).
  pose proof (heap_kept_get_required_data _ _ _ Hreq) as Hh1.
  pose proof (emv_kept_get_required_data _ _ _ Hreq) as He1.
  pose proof (quiet_get_required_data _ _ _ Hreq) as Ht1.
  pose proof (get_required_data_nalloc _ _ _ Hreq) as Hn1.
  destruct o as [req |].
  2: { eexists. split; [apply authenticate_shape; by apply stop_at_data |].
       split_and!; simpl; try congruence; [].
       etrans; [done |]. by apply (trace_grows_with_event no_crypto). }
  destruct (get_ca_key_defined (ca_pk_idx req) mod_cb exp_cb w1)
    as (o & w2 & Hca).
  { apply get_required_data_Some in Hreq as (Hidx & _).
    fold (card_index w) in Hidx. by rewrite Hidx, Hn1. }
  pose proof (heap_kept_get_ca_key _ _ _ _ _ _ Hca) as Hh2.
  pose proof (emv_kept_get_ca_key _ _ _ _ _ _ Hca) as He2.
  pose proof (quiet_get_ca_key _ _ _ _ _ _ Hca) as Ht2.
  destruct o as [[ca_key ca_key_len] |].
  2: { eexists. split; [apply authenticate_shape; by eapply stop_at_ca_key |].
       split_and!; simpl; try congruence; [].
       etrans; [done |]. etrans; [done |].
       by apply (trace_grows_with_event no_crypto). }
  apply get_required_data_Some in Hreq as Hfields.
  destruct Hfields as (Hidx & Hc & _). simpl in Hc.
  apply get_ca_key_Some in Hca as Hkey.
  destruct Hkey as (m & x & Hm & _ & _ & ->).
  assert (Hne : pk_cert_len req ≠ blen m).
  { rewrite Hidx in Hm. specialize (Hmod m Hm).
    rewrite Hcert in Hc. injection Hc as ->. simpl in Hmod. congruence. }
  eexists. split.
  { apply authenticate_shape. eapply stop_at_issuer; try done.
    by apply length_mismatch_stops. }
  split_and!; simpl; try congruence.
  - etrans; [done |]. etrans; [done |].
    eexists [_]. split; [done |]. by repeat constructor.
  - intros. by rewrite last_snoc.
Qed.



(** With a remainder of exactly 36 bytes the scratch buffer is filled and
    the modulus is the key body followed by the remainder. *)
Lemma make_issuer_pk_full_remainder req w c r x key w' :
  holds w (pk_cert req) (pk_cert_len req) c →
  holds w (pk_r req) (pk_r_len req) r →
  holds w (pk_exp req) (pk_exp_len req) x →
  15 + 21 ≤ pk_cert_len req < SIZE_MOD →
  pk_r_len req = 15 + 21 →
  make_issuer_pk req w = Ok (Some key) w' →
  rsa_n key = key_body c ++ r ∧ rsa_e key = x ∧
  blen (rsa_n key) = pk_cert_len req.
Proof.
  intros Hc Hr Hx Hmin Hrlen Hrun.
  destruct (make_issuer_pk_run req w c r x Hc Hr Hx Hmin) as (w0 & Hrun0 & _);
    [lia |].
  rewrite Hrun in Hrun0. injection Hrun0 as Hkey _.
  destruct (_ && _) in Hkey; [| done]. injection Hkey as ->. simpl.
  destruct Hc as [_ Hclen], Hr as [_ Hrl].
  pose proof (key_body_blen c) as Hkb. rewrite Hclen in Hkb.
  rewrite drop_ge.
  - rewrite app_nil_r, blen_app. split_and!; [done | done | lia].
  - rewrite length_drop, length_fmap, length_seq. unfold blen in *. lia.
Qed.

(** C10.  When the attempt got as far as holding the CA key, the key is
    on the context while the certificate stage runs and stays there
    whatever happens next; the context's issuer key is what the
    certificate stage returned, and it is on the context while the
    signed-data stage runs.  A failure in either stage leaves both in
    place and the flag as it was. *)
Theorem keys_are_retained_on_later_failure mod_cb exp_cb w r w'
    req w1 ca_key ca_key_len w2 :
  emv_authenticate_static_data mod_cb exp_cb w = Ok r w' →
  sda_supported w →
  get_required_data w = Ok (Some req) w1 →
  get_ca_key (ca_pk_idx req) mod_cb exp_cb w1
    = Ok (Some (ca_key, ca_key_len)) w2 →
  let w2' := with_emv (set_e_ca_pk (Some ca_key)) w2 in
  ∃ iss w3,
    get_issuer_pk req ca_key ca_key_len w2' = Ok iss w3 ∧
    e_ca_pk (w_emv w2') = Some ca_key ∧
    e_ca_pk (w_emv w3) = Some ca_key ∧
    e_ca_pk (w_emv w') = Some ca_key ∧
    e_iss_pk (w_emv w') = iss ∧
    (∀ iss_key, iss = Some iss_key →
       let w3' := with_emv (set_e_iss_pk (Some iss_key)) w3 in
       ∃ ok w4,
         verify_ssa_data (db_sda (w_emv w3')) (db_numsda (w_emv w3')) req
           iss_key (e_aip (w_emv w3')) w3' = Ok ok w4 ∧
         e_ca_pk (w_emv w3') = Some ca_key ∧
         e_iss_pk (w_emv w3') = Some iss_key ∧
         e_iss_pk (w_emv w4) = Some iss_key) ∧
    (r = 0 → e_sda_ok (w_emv w') = e_sda_ok (w_emv w)).
Proof.
  intros Hrun Haip Hreq Hca w2'.
  apply authenticate_shape in Hrun as Hshape.
  assert (Hflag : r = 0 → e_sda_ok (w_emv w') = e_sda_ok (w_emv w)).
  { intros ->. by destruct (attempt_flag _ _ _ _ _ Hshape) as [[_ ?] | [? _]]. }
  inversion Hshape as [Hno | w1' _ Hreq' | req' w1' w2'' _ Hreq' Hca'
    | req' w1' k kl w2'' w3 _ Hreq' Hca' Hiss
    | req' w1' k kl w2'' iss_key w3 w4 _ Hreq' Hca' Hiss Hssa
    | req' w1' k kl w2'' iss_key w3 ok w4 _ Hreq' Hca' Hiss Hssa Hok];
    subst; try done; try congruence;
    rewrite Hreq in Hreq'; injection Hreq' as <- <-;
    rewrite Hca in Hca'; try done; injection Hca' as <- <- <-.
  - pose proof (emv_kept_get_issuer_pk _ _ _ _ _ _ Hiss) as He3.
    exists None, w3. fold w2' in Hiss. split_and!; try done.
    + by rewrite He3.
    + simpl. by rewrite He3.
  - simpl in Hssa.
    pose proof (emv_kept_get_issuer_pk _ _ _ _ _ _ Hiss) as He3.
    pose proof (emv_kept_verify_ssa_data _ _ _ _ _ _ _ _ Hssa) as He4.
    exists (Some iss_key), w3. fold w2' in Hiss. split_and!; try done.
    + by rewrite He3.
    + rewrite He4. simpl. by rewrite He3.
    + by rewrite He4.
    + intros k [= <-]. exists 0, w'. simpl. split_and!; try done.
      * by rewrite He3.
      * by rewrite He4.
  - simpl in Hssa.
    pose proof (emv_kept_get_issuer_pk _ _ _ _ _ _ Hiss) as He3.
    pose proof (emv_kept_verify_ssa_data _ _ _ _ _ _ _ _ Hssa) as He4.
    exists (Some iss_key), w3. fold w2' in Hiss. split_and!; try done.
    + by rewrite He3.
    + simpl. rewrite He4. simpl. by rewrite He3.
    + simpl. by rewrite He4.
    + intros k [= <-]. exists ok, w4. simpl. split_and!; try done.
      * by rewrite He3.
      * by rewrite He4.
Qed.



(** *** When a stage accepts *)

Lemma check_pk_cert_accepts req w c r x :
  holds w (pk_cert req) (pk_cert_len req) c →
  holds w (pk_r req) (pk_r_len req) r →
  holds w (pk_exp req) (pk_exp_len req) x →
  SHA_DIGEST_LENGTH + 2 ≤ pk_cert_len req →
  pk_cert_len req + pk_r_len req + pk_exp_len req < SIZE_MOD →
  ∃ v w', check_pk_cert req w = Ok v w' ∧ (v = 1 ∨ v = 0) ∧
    (v = 1 ↔ cert_header_ok c ∧ alloc_ok (w_nalloc w) = true ∧
             trailer_ok c ∧ digest_ok c (SHA1 (signed_part c ++ r ++ x))).
Proof.
  intros Hc Hr Hx Hmin Hmax.
  rewrite (check_pk_cert_run req w c r x) by done.
  unfold cert_header_ok.
  repeat (case_bool_decide;
          [do 2 eexists; split; [done |]; split; [by right |];
           split; [done | tauto] |]).
  destruct (alloc_ok (w_nalloc w)) eqn:Hok.
  2: { do 2 eexists. split; [done |]. split; [by right |].
       split; [done | intros (_ & ? & _); done]. }
  destruct (emsa_pss_decode_verdict (signed_part c ++ r ++ x)
              (blen (signed_part c ++ r ++ x)) (pk_cert req)
              (pk_cert_len req) (with_alloc w) c)
    as (v & w' & Hrun & H01 & Hiff & _); [done | done | |].
  { unfold SHA_DIGEST_LENGTH in *.
    pose proof (blen_nonneg r). pose proof (blen_nonneg x).
    destruct Hr as [_ ?], Hx as [_ ?]. lia. }
  exists v, w'. split; [done |]. split; [done |]. tauto.
Qed.

Lemma verify_ssa_data_accepts rec num req key aip w w1 s bufs :
  recover (ssa_data req) (ssa_data_len req) key w = Ok 1 w1 →
  holds w1 (ssa_data req) (ssa_data_len req) s →
  record_bytes w1 rec bufs →
  num = Z.of_nat (length rec) →
  SHA_DIGEST_LENGTH + 2 ≤ ssa_data_len req →
  ssa_data_len req + blen (concat bufs) < SIZE_MOD →
  ∃ v w', verify_ssa_data rec num req key aip w = Ok v w' ∧ (v = 1 ∨ v = 0) ∧
    (v = 1 ↔ ssa_header_ok s ∧ alloc_ok (w_nalloc w1) = true ∧
             trailer_ok s ∧
             digest_ok s (SHA1 (signed_part s ++ concat bufs ++
                                [aip.1; aip.2]))).
Proof.
  intros Hrecover Hs Hrec Hnum Hmin Hmax.
  rewrite (verify_ssa_data_run rec num req key aip w w1 s bufs) by done.
  unfold ssa_header_ok.
  repeat (case_bool_decide;
          [do 2 eexists; split; [done |]; split; [by right |];
           split; [done | tauto] |]).
  destruct (alloc_ok (w_nalloc w1)) eqn:Hok.
  2: { do 2 eexists. split; [done |]. split; [by right |].
       split; [done | intros (_ & ? & _); done]. }
  destruct (emsa_pss_decode_verdict
              (signed_part s ++ concat bufs ++ [aip.1; aip.2])
              (blen (signed_part s ++ concat bufs ++ [aip.1; aip.2]))
              (ssa_data req) (ssa_data_len req) (with_alloc w1) s)
    as (v & w' & Hrun & H01 & Hiff & _); [done | done | |].
  { unfold SHA_DIGEST_LENGTH in *.
    pose proof (blen_nonneg (concat bufs)). lia. }
  exists v, w'. split; [done |]. split; [done |]. tauto.
Qed.

(** C1, as the code has it.  On a block with room for a digest and a
    trailer the decoder hashes the message, and returns 1 exactly when
    the last byte of the block is 0xBC and the [SHA_DIGEST_LENGTH] bytes
    from offset [len - SHA_DIGEST_LENGTH - 1] on are the digest; it
    returns 0 otherwise.  Each stage looks at three header bytes of its
    block before it calls the decoder, and accepts exactly when those
    match, its message buffer was allocated and the decoder's two
    comparisons pass. *)
Theorem decoder_verdict_and_stage_gates :
  (∀ msg msg_len em em_len w b,
     blen msg = msg_len →
     holds w em em_len b →
     SHA_DIGEST_LENGTH + 1 ≤ em_len < SIZE_MOD →
     ∃ v w', emsa_pss_decode msg msg_len em em_len w = Ok v w' ∧
       (v = 1 ∨ v = 0) ∧
       (v = 1 ↔ trailer_ok b ∧ digest_ok b (SHA1 msg)) ∧
       (∃ evs, w_trace w' = w_trace w ++ EvSHA1 msg :: evs ∧
               Forall no_crypto evs) ∧
       (trailer b = last b ∧
        digest_field b = slice b (em_len - SHA_DIGEST_LENGTH - 1)
                           SHA_DIGEST_LENGTH)) ∧
  (∀ req w c r x,
     holds w (pk_cert req) (pk_cert_len req) c →
     holds w (pk_r req) (pk_r_len req) r →
     holds w (pk_exp req) (pk_exp_len req) x →
     SHA_DIGEST_LENGTH + 2 ≤ pk_cert_len req →
     pk_cert_len req + pk_r_len req + pk_exp_len req < SIZE_MOD →
     ∃ v w', check_pk_cert req w = Ok v w' ∧ (v = 1 ∨ v = 0) ∧
       (v = 1 ↔ cert_header_ok c ∧ alloc_ok (w_nalloc w) = true ∧
                trailer_ok c ∧
                digest_ok c (SHA1 (signed_part c ++ r ++ x)))) ∧
  (∀ rec num req key aip w w1 s bufs,
     recover (ssa_data req) (ssa_data_len req) key w = Ok 1 w1 →
     holds w1 (ssa_data req) (ssa_data_len req) s →
     record_bytes w1 rec bufs →
     num = Z.of_nat (length rec) →
     SHA_DIGEST_LENGTH + 2 ≤ ssa_data_len req →
     ssa_data_len req + blen (concat bufs) < SIZE_MOD →
     ∃ v w', verify_ssa_data rec num req key aip w = Ok v w' ∧
       (v = 1 ∨ v = 0) ∧
       (v = 1 ↔ ssa_header_ok s ∧ alloc_ok (w_nalloc w1) = true ∧
                trailer_ok s ∧
                digest_ok s (SHA1 (signed_part s ++ concat bufs ++
                                   [aip.1; aip.2])))).
Proof.
  split_and!.
  - intros msg msg_len em em_len w b Hmsg Hem Hrange.
    destruct (emsa_pss_decode_verdict msg msg_len em em_len w b Hmsg Hem Hrange)
      as (v & w' & Hrun & H01 & Hiff & _ & _ & _ & Htrace).
    exists v, w'. split_and!; try done.
    unfold digest_field. destruct Hem as [_ ->]. done.
  - apply check_pk_cert_accepts.
  - apply verify_ssa_data_accepts.
Qed.

(** ** Further properties of the code *)

(** *** get_required_data *)

Lemma element_absent_None w tag :
  e_tags (w_emv w) !! tag = None → ¬ element_present w tag.
Proof. intros Hn (d & p & Hd & _). congruence. Qed.

Lemma element_absent_NULL w tag d :
  e_tags (w_emv w) !! tag = Some d → d_data d = None →
  ¬ element_present w tag.
Proof. intros Hd Hn (d' & p & Hd' & Hp). congruence. Qed.

Lemma element_present_Some w tag d p :
  e_tags (w_emv w) !! tag = Some d → d_data d = Some p →
  element_present w tag.
Proof. intros. by exists d, p. Qed.

Ltac leaf := split; [done |]; split; [done |]; intuition (eauto; lia).

(** The elements are looked up one after the other, and the first one
    that is missing ends the function. *)
Lemma get_required_data_cases w :
  ∃ o w' n,
    get_required_data w = Ok o w' ∧
    w_trace w' = w_trace w ++ take n (retrieval_order w) ∧
    ((card_index w < 0 ∧ n = 2%nat ∧ o = None) ∨
     (0 ≤ card_index w ∧
      ((¬ element_present w EMV_TAG_ISS_PK_CERT ∧ n = 3%nat ∧ o = None) ∨
       (element_present w EMV_TAG_ISS_PK_CERT ∧
        ((¬ element_present w EMV_TAG_ISS_PK_R ∧ n = 4%nat ∧ o = None) ∨
         (element_present w EMV_TAG_ISS_PK_R ∧
          ((¬ element_present w EMV_TAG_ISS_PK_EXP ∧ n = 5%nat ∧ o = None) ∨
           (element_present w EMV_TAG_ISS_PK_EXP ∧
            ((¬ element_present w EMV_TAG_SSA_DATA ∧ n = 6%nat ∧ o = None) ∨
             (element_present w EMV_TAG_SSA_DATA ∧ n = 6%nat ∧
              is_Some o)))))))))).
Proof.
  unfold get_required_data, _emv_retrieve_data, call_emv_data_int, bind,
    emit, get_emv, get_heap, ret, retrieval_order. simpl.
  fold (card_index w).
  case_bool_decide as Hi.
  { eexists None, _, 2%nat. simpl. rewrite <- !app_assoc. leaf. }
  assert (Hi' : 0 ≤ card_index w) by lia. simpl.
  destruct (e_tags (w_emv w) !! EMV_TAG_ISS_PK_CERT) as [dc |] eqn:Hc.
  2: { eexists None, _, 3%nat. simpl. rewrite <- !app_assoc.
       pose proof (element_absent_None _ _ Hc). leaf. }
  destruct (d_data dc) as [pc |] eqn:Hpc.
  2: { eexists None, _, 3%nat. simpl. rewrite <- !app_assoc.
       pose proof (element_absent_NULL _ _ _ Hc Hpc). leaf. }
  pose proof (element_present_Some _ _ _ _ Hc Hpc). simpl.
  destruct (e_tags (w_emv w) !! EMV_TAG_ISS_PK_R) as [dr |] eqn:Hr.
  2: { eexists None, _, 4%nat. simpl. rewrite <- !app_assoc.
       pose proof (element_absent_None _ _ Hr). leaf. }
  destruct (d_data dr) as [pr |] eqn:Hpr.
  2: { eexists None, _, 4%nat. simpl. rewrite <- !app_assoc.
       pose proof (element_absent_NULL _ _ _ Hr Hpr). leaf. }
  pose proof (element_present_Some _ _ _ _ Hr Hpr). simpl.
  destruct (e_tags (w_emv w) !! EMV_TAG_ISS_PK_EXP) as [dx |] eqn:Hx.
  2: { eexists None, _, 5%nat. simpl. rewrite <- !app_assoc.
       pose proof (element_absent_None _ _ Hx). leaf. }
  destruct (d_data dx) as [px |] eqn:Hpx.
  2: { eexists None, _, 5%nat. simpl. rewrite <- !app_assoc.
       pose proof (element_absent_NULL _ _ _ Hx Hpx). leaf. }
  pose proof (element_present_Some _ _ _ _ Hx Hpx). simpl.
  destruct (e_tags (w_emv w) !! EMV_TAG_SSA_DATA) as [ds |] eqn:Hs.
  2: { eexists None, _, 6%nat. simpl. rewrite <- !app_assoc.
       pose proof (element_absent_None _ _ Hs). leaf. }
  destruct (d_data ds) as [ps |] eqn:Hps.
  2: { eexists None, _, 6%nat. simpl. rewrite <- !app_assoc.
       pose proof (element_absent_NULL _ _ _ Hs Hps). leaf. }
  pose proof (element_present_Some _ _ _ _ Hs Hps). simpl.
  eexists (Some _), _, 6%nat. simpl. rewrite <- !app_assoc.
  split; [done |]. split; [done |]. right. split; [done |].
  right. split; [done |]. right. split; [done |]. right. split; [done |].
  right. eauto.
Qed.

(** X1.  [get_required_data] always answers and writes nothing.  It
    returns a request exactly when the CA key index decodes to a
    non-negative number and each of the issuer certificate, the remainder,
    the exponent and the signed static data is in the tag store with
    data; the request then carries the decoded index and the pointer and
    the length of each of these elements. *)
Theorem get_required_data_needs_every_element w :
  ∃ o w', get_required_data w = Ok o w' ∧
    w_heap w' = w_heap w ∧ w_emv w' = w_emv w ∧
    (is_Some o ↔
     0 ≤ card_index w ∧
     element_present w EMV_TAG_ISS_PK_CERT ∧
     element_present w EMV_TAG_ISS_PK_R ∧
     element_present w EMV_TAG_ISS_PK_EXP ∧
     element_present w EMV_TAG_SSA_DATA) ∧
    (∀ req, o = Some req →
       ca_pk_idx req = card_index w ∧
       e_tags (w_emv w) !! EMV_TAG_ISS_PK_CERT
         = Some {| d_data := Some (pk_cert req); d_len := pk_cert_len req |} ∧
       e_tags (w_emv w) !! EMV_TAG_ISS_PK_R
         = Some {| d_data := Some (pk_r req); d_len := pk_r_len req |} ∧
       e_tags (w_emv w) !! EMV_TAG_ISS_PK_EXP
         = Some {| d_data := Some (pk_exp req); d_len := pk_exp_len req |} ∧
       e_tags (w_emv w) !! EMV_TAG_SSA_DATA
         = Some {| d_data := Some (ssa_data req);
                   d_len := ssa_data_len req |}).
Proof.
  destruct (get_required_data_cases w) as (o & w' & n & Hrun & _ & Hcases).
  exists o, w'. split; [done |].
  split; [by apply heap_kept_get_required_data in Hrun |].
  split; [by apply emv_kept_get_required_data in Hrun |].
  split.
  - split.
    + intros Hsome.
      assert (o ≠ None) by (destruct Hsome; congruence).
      intuition (done || lia).
    + intros (Hi & Hc & Hr & Hx & Hs).
      intuition (done || lia).
  - intros req ->. by apply get_required_data_Some in Hrun.
Qed.

(** X2.  [get_required_data] asks for the index, the certificate, the
    remainder, the exponent and the signed data in this order and stops at
    the first one that is missing: its calls are the first [n] of that
    list, where [n] says how far it got, and all six when it succeeds. *)
Theorem get_required_data_stops_at_first_missing w :
  ∃ o w' n, get_required_data w = Ok o w' ∧
    w_trace w' = w_trace w ++ take n (retrieval_order w) ∧
    (card_index w < 0 → n = 2%nat) ∧
    (0 ≤ card_index w → ¬ element_present w EMV_TAG_ISS_PK_CERT →
     n = 3%nat) ∧
    (0 ≤ card_index w → element_present w EMV_TAG_ISS_PK_CERT →
     ¬ element_present w EMV_TAG_ISS_PK_R → n = 4%nat) ∧
    (0 ≤ card_index w → element_present w EMV_TAG_ISS_PK_CERT →
     element_present w EMV_TAG_ISS_PK_R →
     ¬ element_present w EMV_TAG_ISS_PK_EXP → n = 5%nat) ∧
    (is_Some o → n = 6%nat) ∧
    (n < 6 → o = None)%nat.
Proof.
  destruct (get_required_data_cases w) as (o & w' & n & Hrun & Htr & Hcases).
  exists o, w', n. split; [done |]. split; [done |].
  split_and!.
  - intros. intuition (done || lia).
  - intros. intuition (done || lia).
  - intros. intuition (done || lia).
  - intros. intuition (done || lia).
  - intros Hsome. assert (o ≠ None) by (destruct Hsome; congruence).
    intuition (done || lia).
  - intros. intuition (done || lia).
Qed.

(** *** get_ca_key *)

Ltac ca_key_none :=
  split;
  [ by intros ?%is_Some_None
  | intros (? & ? & ? & ? & ?);
    first [ congruence | exfalso; by eapply (@is_Some_None bytes) ] ].

(** X3.  [get_ca_key] has one undefined path: when both callbacks
    answer and the key object and the modulus are allocated but the
    allocation of the exponent fails, it releases the modulus twice.  On
    every other input it answers and writes nothing.  It asks for the
    modulus first and does not ask for the exponent when there is no
    modulus.  It returns a key exactly when both are there and its three
    allocations succeed; the key then holds the bytes of the modulus and
    of the exponent as the provider gave them, and the reported key
    length is the length of the modulus. *)
Theorem get_ca_key_needs_both_fields idx mod_cb exp_cb w :
  (releases_twice idx mod_cb exp_cb (w_nalloc w) →
   get_ca_key idx mod_cb exp_cb w = Undef) ∧
  (¬ releases_twice idx mod_cb exp_cb (w_nalloc w) →
   ∃ o w', get_ca_key idx mod_cb exp_cb w = Ok o w' ∧
     w_heap w' = w_heap w ∧ w_emv w' = w_emv w ∧
     (mod_cb idx = None →
      o = None ∧ w_trace w' = w_trace w ++ [EvMod idx]) ∧
     (is_Some (mod_cb idx) →
      w_trace w' = w_trace w ++ [EvMod idx; EvExp idx]) ∧
     (exp_cb idx = None → o = None) ∧
     (is_Some o ↔
      is_Some (mod_cb idx) ∧ is_Some (exp_cb idx) ∧
      alloc_ok (w_nalloc w) = true ∧ alloc_ok (S (w_nalloc w)) = true ∧
      alloc_ok (S (S (w_nalloc w))) = true) ∧
     (∀ key key_len, o = Some (key, key_len) →
        mod_cb idx = Some (rsa_n key) ∧ exp_cb idx = Some (rsa_e key) ∧
        key_len = blen (rsa_n key))).
Proof.
  split; [apply get_ca_key_undefined |].
  unfold releases_twice, get_ca_key, BN_bin2bn, lib_alloc, bind, emit, ret.
  intros Hdef.
  destruct (mod_cb idx) as [m |]; simpl.
  2: { do 2 eexists. split; [done |]. simpl.
       split_and!; try done; try (by intros ?%is_Some_None). ca_key_none. }
  destruct (exp_cb idx) as [x |]; simpl.
  2: { do 2 eexists. split; [done |]. simpl. rewrite <- app_assoc.
       split_and!; try done. ca_key_none. }
  destruct (alloc_ok (w_nalloc w)) eqn:H0; simpl.
  2: { do 2 eexists. split; [done |]. simpl. rewrite <- app_assoc.
       split_and!; try done. ca_key_none. }
  rewrite slice_full. simpl.
  destruct (alloc_ok (S (w_nalloc w))) eqn:H1; simpl.
  2: { do 2 eexists. split; [done |]. simpl. rewrite <- app_assoc.
       split_and!; try done. ca_key_none. }
  rewrite slice_full. simpl.
  destruct (alloc_ok (S (S (w_nalloc w)))) eqn:H2; simpl.
  2: { destruct Hdef. by split_and!. }
  do 2 eexists. split; [done |]. simpl. rewrite <- app_assoc.
  split_and!; try done.
  by intros key key_len [= <- <-].
Qed.

(** *** emv_authenticate_static_data: failures before the certificate *)

Lemma get_ca_key_first_alloc idx mod_cb exp_cb w o w2 :
  get_ca_key idx mod_cb exp_cb w = Ok o w2 →
  alloc_ok (w_nalloc w) = false → o = None.
Proof.
  unfold get_ca_key, lib_alloc, bind, emit, ret. intros Hrun Hno.
  destruct (mod_cb idx); [| by simplify_eq].
  destruct (exp_cb idx); [| by simplify_eq].
  simpl in Hrun. rewrite Hno in Hrun. simpl in Hrun. by simplify_eq.
Qed.

(** X4.  When the CA key cannot be built, because the provider has no
    modulus or no exponent for the card's key index or because the first
    allocation of the attempt fails, the attempt returns 0, makes neither
    an RSA call nor a hash call, and leaves every buffer and the whole
    context as they were. *)
Theorem missing_ca_key_fails_cleanly mod_cb exp_cb w :
  mod_cb (card_index w) = None ∨ exp_cb (card_index w) = None ∨
  alloc_ok (w_nalloc w) = false →
  ∃ w', emv_authenticate_static_data mod_cb exp_cb w = Ok 0 w' ∧
    w_heap w' = w_heap w ∧ w_emv w' = w_emv w ∧
    trace_grows no_crypto w w'.
Proof.
  intros Hbad.
  destruct (decide (sda_supported w)) as [Haip | Haip].
  2: { eexists. split; [apply authenticate_shape; by apply stop_at_aip |].
       split_and!; try done. by apply (trace_grows_with_event no_crypto). }
  destruct (get_required_data_total w) as (o & w1 & Hreq).
  pose proof (heap_kept_get_required_data _ _ _ Hreq) as Hh1.
  pose proof (emv_kept_get_required_data _ _ _ Hreq) as He1.
  pose proof (quiet_get_required_data _ _ _ Hreq) as Ht1.
  pose proof (get_required_data_nalloc _ _ _ Hreq) as Hn1.
  destruct o as [req |].
  2: { eexists. split; [apply authenticate_shape; by apply stop_at_data |].
       split_and!; simpl; try congruence; [].
       etrans; [done |]. by apply (trace_grows_with_event no_crypto). }
  destruct (get_ca_key_defined (ca_pk_idx req) mod_cb exp_cb w1)
    as (o & w2 & Hca).
  { apply get_required_data_Some in Hreq as (Hidx & _).
    fold (card_index w) in Hidx. rewrite Hidx, Hn1.
    intros ([m Hm] & [x Hx] & Ha & _).
    destruct Hbad as [? | [? | ?]]; congruence. }
  pose proof (heap_kept_get_ca_key _ _ _ _ _ _ Hca) as Hh2.
  pose proof (emv_kept_get_ca_key _ _ _ _ _ _ Hca) as He2.
  pose proof (quiet_get_ca_key _ _ _ _ _ _ Hca) as Ht2.
  assert (o = None) as ->.
  { destruct o as [[key key_len] |]; [| done]. exfalso.
    apply get_required_data_Some in Hreq as (Hidx & _).
    fold (card_index w) in Hidx.
    destruct Hbad as [Hm | [Hx | Ha]].
    - apply get_ca_key_Some in Hca as (m & x & Hm' & _). congruence.
    - apply get_ca_key_Some in Hca as (m & x & _ & Hx' & _). congruence.
    - rewrite <- Hn1 in Ha.
      by pose proof (get_ca_key_first_alloc _ _ _ _ _ _ Hca Ha). }
  eexists. split; [apply authenticate_shape; by eapply stop_at_ca_key |].
  split_and!; simpl; try congruence; [].
  etrans; [done |]. etrans; [done |].
  by apply (trace_grows_with_event no_crypto).
Qed.

(** *** emv_authenticate_static_data: what it writes *)

Lemma same_inputs_refl e : same_inputs e e.
Proof. done. Qed.

Lemma same_inputs_set_ca k e : same_inputs e (set_e_ca_pk k e).
Proof. done. Qed.

Lemma same_inputs_set_iss k e : same_inputs e (set_e_iss_pk k e).
Proof. done. Qed.

Lemma same_inputs_set_ok v e : same_inputs e (set_e_sda_ok v e).
Proof. done. Qed.

(** X5.  Of the transaction context an attempt writes only the output
    slots: the AIP, the table that gives each tag its element's pointer
    and length, the list of SDA-relevant records and their count are
    afterwards what they were.  (The bytes behind those pointers are not
    part of the context: the certificate's and the signed data's are
    recovered in place.)  The CA key slot is either untouched or holds
    the modulus and the exponent that the provider returned for the
    card's key index. *)
Theorem attempt_writes_only_output_slots mod_cb exp_cb w r w' :
  emv_authenticate_static_data mod_cb exp_cb w = Ok r w' →
  same_inputs (w_emv w) (w_emv w') ∧
  (e_ca_pk (w_emv w') = e_ca_pk (w_emv w) ∨
   ∃ m x, mod_cb (card_index w) = Some m ∧ exp_cb (card_index w) = Some x ∧
          e_ca_pk (w_emv w') = Some {| rsa_n := m; rsa_e := x |}).
Proof.
  intros Hrun. apply authenticate_shape in Hrun as Hshape.
  assert (Hkey : ∀ req w1 ca_key ca_key_len w2,
            get_required_data w = Ok (Some req) w1 →
            get_ca_key (ca_pk_idx req) mod_cb exp_cb w1
              = Ok (Some (ca_key, ca_key_len)) w2 →
            ∃ m x, mod_cb (card_index w) = Some m ∧
                   exp_cb (card_index w) = Some x ∧
                   ca_key = {| rsa_n := m; rsa_e := x |}).
  { intros req w1 ca_key ca_key_len w2 Hreq Hca.
    apply get_required_data_Some in Hreq as (Hidx & _).
    fold (card_index w) in Hidx. rewrite Hidx in Hca.
    apply get_ca_key_Some in Hca as (m & x & ? & ? & ? & _). eauto. }
  destruct Hshape as [Haip | w1 Haip Hreq | req w1 w2 Haip Hreq Hca
    | req w1 ca_key ca_key_len w2 w3 Haip Hreq Hca Hiss
    | req w1 ca_key ca_key_len w2 iss_key w3 w4 Haip Hreq Hca Hiss Hs
    | req w1 ca_key ca_key_len w2 iss_key w3 ok w4 Haip Hreq Hca Hiss Hs
        Hok]; simpl.
  - split; [done | by left].
  - rewrite (emv_kept_get_required_data _ _ _ Hreq). split; [done | by left].
  - rewrite (emv_kept_get_ca_key _ _ _ _ _ _ Hca).
    rewrite (emv_kept_get_required_data _ _ _ Hreq). split; [done | by left].
  - destruct (Hkey _ _ _ _ _ Hreq Hca) as (m & x & Hm & Hx & ->).
    rewrite (emv_kept_get_issuer_pk _ _ _ _ _ _ Hiss). simpl.
    rewrite (emv_kept_get_ca_key _ _ _ _ _ _ Hca).
    rewrite (emv_kept_get_required_data _ _ _ Hreq).
    split; [done |]. right. by exists m, x.
  - destruct (Hkey _ _ _ _ _ Hreq Hca) as (m & x & Hm & Hx & ->).
    simpl in Hs. rewrite (emv_kept_verify_ssa_data _ _ _ _ _ _ _ _ Hs). simpl.
    rewrite (emv_kept_get_issuer_pk _ _ _ _ _ _ Hiss). simpl.
    rewrite (emv_kept_get_ca_key _ _ _ _ _ _ Hca).
    rewrite (emv_kept_get_required_data _ _ _ Hreq).
    split; [done |]. right. by exists m, x.
  - destruct (Hkey _ _ _ _ _ Hreq Hca) as (m & x & Hm & Hx & ->).
    simpl in Hs. rewrite (emv_kept_verify_ssa_data _ _ _ _ _ _ _ _ Hs). simpl.
    rewrite (emv_kept_get_issuer_pk _ _ _ _ _ _ Hiss). simpl.
    rewrite (emv_kept_get_ca_key _ _ _ _ _ _ Hca).
    rewrite (emv_kept_get_required_data _ _ _ Hreq).
    split; [done |]. right. by exists m, x.
Qed.

(** X6.  The flag is never cleared: after any attempt on a context whose
    flag was set, also a failed one, [emv_sda_ok] still returns 1. *)
Theorem failed_attempt_keeps_a_set_flag mod_cb exp_cb w r w' :
  emv_authenticate_static_data mod_cb exp_cb w = Ok r w' →
  e_sda_ok (w_emv w) ≠ 0 →
  e_sda_ok (w_emv w') ≠ 0 ∧ emv_sda_ok w' = Ok 1 w'.
Proof.
  intros Hrun Hset. apply authenticate_shape in Hrun.
  assert (Hset' : e_sda_ok (w_emv w') ≠ 0).
  { destruct (attempt_flag _ _ _ _ _ Hrun) as [[_ ->] | [_ ->]]; done. }
  split; [done |]. unfold emv_sda_ok, bind, get_emv, ret.
  by rewrite bool_decide_eq_false_2.
Qed.

(** *** emsa_pss_decode: what it looks at *)

Lemma tail21_last (b : bytes) :
  SHA_DIGEST_LENGTH + 1 ≤ blen b → last b = last (tail21 b).
Proof.
  intros Hb. unfold tail21, blen, SHA_DIGEST_LENGTH in *.
  rewrite !last_lookup, lookup_drop, length_drop. f_equal. lia.
Qed.

Lemma tail21_digest_field (b : bytes) :
  SHA_DIGEST_LENGTH + 1 ≤ blen b →
  digest_field b = Some (take (Z.to_nat SHA_DIGEST_LENGTH) (tail21 b)).
Proof.
  intros Hb. unfold digest_field, tail21.
  unfold blen, SHA_DIGEST_LENGTH in *. rewrite slice_Some by (unfold blen; lia).
  do 3 f_equal. lia.
Qed.

(** X7.  The decoder looks at the last [SHA_DIGEST_LENGTH + 1] bytes of
    the block and at nothing before them: on two blocks that end in the
    same 21 bytes, of whatever lengths, it returns the same value for
    the same message. *)
Theorem decoder_reads_only_the_tail msg w1 em1 b1 w2 em2 b2 :
  holds w1 em1 (blen b1) b1 →
  holds w2 em2 (blen b2) b2 →
  SHA_DIGEST_LENGTH + 1 ≤ blen b1 < SIZE_MOD →
  SHA_DIGEST_LENGTH + 1 ≤ blen b2 < SIZE_MOD →
  tail21 b1 = tail21 b2 →
  ∃ v w1' w2',
    emsa_pss_decode msg (blen msg) em1 (blen b1) w1 = Ok v w1' ∧
    emsa_pss_decode msg (blen msg) em2 (blen b2) w2 = Ok v w2'.
Proof.
  intros H1 H2 Hl1 Hl2 Htail.
  destruct (emsa_pss_decode_verdict msg (blen msg) em1 (blen b1) w1 b1)
    as (v1 & w1' & Hrun1 & H01 & Hiff1 & _); [done .. |].
  destruct (emsa_pss_decode_verdict msg (blen msg) em2 (blen b2) w2 b2)
    as (v2 & w2' & Hrun2 & H02 & Hiff2 & _); [done .. |].
  assert (Hsame : trailer_ok b1 ∧ digest_ok b1 (SHA1 msg) ↔
                  trailer_ok b2 ∧ digest_ok b2 (SHA1 msg)).
  { unfold trailer_ok, digest_ok, trailer.
    rewrite (tail21_last b1), (tail21_last b2) by lia.
    rewrite (tail21_digest_field b1), (tail21_digest_field b2) by lia.
    by rewrite Htail. }
  exists v1, w1', w2'. split; [done |]. rewrite Hrun2. f_equal.
  destruct H01 as [-> | ->], H02 as [-> | ->]; try done.
  - assert (0 = 1) by tauto. done.
  - assert (1 = 1) by done. assert (0 = 1) by tauto. done.
Qed.

(** *** Whole stages *)

Lemma allocs_ok_first k n : allocs_ok k (S n) → alloc_ok k = true.
Proof. intros Hk. rewrite <- (Nat.add_0_r k). apply Hk. lia. Qed.

Lemma allocs_ok_at k n i : allocs_ok k n → (i < n)%nat → alloc_ok (k + i) = true.
Proof. intros Hk. apply Hk. Qed.

Lemma recovered_blen k len out :
  blen out ≤ len → blen (recovered k len out) = len.
Proof.
  intros Hout. pose proof (blen_nonneg out). unfold recovered.
  rewrite blen_app. unfold blen in *.
  rewrite length_drop, length_fmap, length_seq. lia.
Qed.

Lemma recover_nalloc ptr len key w v w' :
  recover ptr len key w = Ok v w' → w_nalloc w' = S (w_nalloc w).
Proof.
  unfold recover, bind, malloc, emit, ret. simpl.
  destruct (alloc_ok (w_nalloc w)); simpl; [| by intros [= <- <-]].
  destruct (deref ptr _) as [b w0 |] eqn:Hd; [| done].
  apply deref_Ok in Hd as [-> Hb]. simpl in Hb.
  destruct (RSA_public_encrypt _ _ _) as [r out].
  destruct (blit _ 0 out) as [tmp |]; simpl; [| done].
  destruct (_ || _); [by intros [= <- <-] |].
  destruct (slice tmp 0 len) as [t |] eqn:Ht; simpl; [| done].
  unfold store_range, bind. rewrite (deref_at _ _ b) by done.
  destruct (blit b 0 t) as [b' |] eqn:Hb'; simpl; [| done].
  by intros [= <- <-].
Qed.

Lemma load_range_Ok p off n w b w' : load_range p off n w = Ok b w' → w' = w.
Proof.
  unfold load_range, bind, deref, lift.
  destruct (w_heap w !! p); [| done].
  destruct (slice _ _ _); [| done]. by intros [= _ <-].
Qed.

Lemma make_issuer_pk_nalloc req w o w' :
  make_issuer_pk req w = Ok (Some o) w' →
  w_nalloc w' = (w_nalloc w + 4)%nat.
Proof.
  unfold make_issuer_pk, bind, malloc, printf, emit, lib_alloc, ret. simpl.
  destruct (alloc_ok (w_nalloc w)); simpl; [| done].
  destruct (load_range (pk_cert req) _ _ _) as [kb w1 |] eqn:H1; [| done].
  apply load_range_Ok in H1 as ->. simpl.
  destruct (blit _ 0 kb) as [t1 |]; simpl; [| done].
  destruct (load_range (pk_r req) _ _ _) as [r w2 |] eqn:H2; [| done].
  apply load_range_Ok in H2 as ->. simpl.
  destruct (blit t1 _ r) as [t2 |]; simpl; [| done].
  destruct (alloc_ok (S (w_nalloc w))); simpl; [| done].
  unfold BN_bin2bn, bind, lib_alloc, ret.
  destruct (slice t2 0 _) as [n |]; simpl; [| done].
  destruct (load_range (pk_exp req) _ _ _) as [x w3 |] eqn:H3; [| done].
  apply load_range_Ok in H3 as ->. simpl.
  destruct (slice x 0 _) as [e |]; simpl; [| done].
  repeat match goal with |- context [alloc_ok ?k] => destruct (alloc_ok k) end;
    intros [= <- <-]; simpl; lia.
Qed.

Lemma check_pk_cert_state req w c r x :
  holds w (pk_cert req) (pk_cert_len req) c →
  holds w (pk_r req) (pk_r_len req) r →
  holds w (pk_exp req) (pk_exp_len req) x →
  SHA_DIGEST_LENGTH + 2 ≤ pk_cert_len req →
  pk_cert_len req + pk_r_len req + pk_exp_len req < SIZE_MOD →
  ∃ v w', check_pk_cert req w = Ok v w' ∧ (v = 1 ∨ v = 0) ∧
    (v = 1 ↔ cert_header_ok c ∧ alloc_ok (w_nalloc w) = true ∧
             trailer_ok c ∧ digest_ok c (SHA1 (signed_part c ++ r ++ x))) ∧
    w_heap w' = w_heap w ∧ w_emv w' = w_emv w ∧
    (v = 1 → w_nalloc w' = S (w_nalloc w)).
Proof.
  intros Hc Hr Hx Hmin Hmax.
  rewrite (check_pk_cert_run req w c r x) by done.
  unfold cert_header_ok.
  repeat (case_bool_decide;
          [do 2 eexists; split; [done |]; split; [by right |];
           split; [split; [done | tauto] |]; done |]).
  destruct (alloc_ok (w_nalloc w)) eqn:Hok.
  2: { do 2 eexists. split; [done |]. split; [by right |].
       split; [split; [done | intros (_ & ? & _); done] |]. done. }
  destruct (emsa_pss_decode_verdict (signed_part c ++ r ++ x)
              (blen (signed_part c ++ r ++ x)) (pk_cert req)
              (pk_cert_len req) (with_alloc w) c)
    as (v & w' & Hrun & H01 & Hiff & Hh & He & Hn & _); [done | done | |].
  { unfold SHA_DIGEST_LENGTH in *.
    pose proof (blen_nonneg r). pose proof (blen_nonneg x).
    destruct Hr as [_ ?], Hx as [_ ?]. lia. }
  exists v, w'. split; [done |]. split; [done |].
  split; [tauto |]. done.
Qed.

Lemma get_issuer_pk_stage req ca_key key_len w c r x rr out :
  holds w (pk_cert req) (pk_cert_len req) c →
  holds w (pk_r req) (pk_r_len req) r →
  holds w (pk_exp req) (pk_exp_len req) x →
  pk_r req ≠ pk_cert req →
  pk_exp req ≠ pk_cert req →
  15 + 21 ≤ pk_cert_len req →
  pk_r_len req ≤ 15 + 21 →
  pk_cert_len req + pk_r_len req + pk_exp_len req < SIZE_MOD →
  RSA_public_encrypt (to_int (pk_cert_len req)) c ca_key = (rr, out) →
  blen out ≤ pk_cert_len req →
  let k := w_nalloc w in
  let c' := recovered k (pk_cert_len req) out in
  ∃ o w', get_issuer_pk req ca_key key_len w = Ok o w' ∧
    w_emv w' = w_emv w ∧
    (is_Some o ↔
     pk_cert_len req = key_len ∧ 0 ≤ rr ∧ to_unsigned rr = key_len ∧
     allocs_ok k 6 ∧ cert_header_ok c' ∧ trailer_ok c' ∧
     digest_ok c' (SHA1 (signed_part c' ++ r ++ x))) ∧
    (is_Some o →
     o = Some {| rsa_n := issuer_modulus (k + 2) c' r; rsa_e := x |} ∧
     w_heap w' = <[pk_cert req := c']> (w_heap w) ∧
     w_nalloc w' = (k + 6)%nat).
Proof.
  intros Hc Hr Hx Hrc Hxc Hmin Hrmax Hmax Hrsa Hout k c'.
  assert (Hnone : ∀ P Q : Prop, ¬ P →
            (is_Some (@None RSA) ↔ P) ∧ (is_Some (@None RSA) → Q)).
  { intros P Q HP. split; [split |]; intros Hs; try done;
      by apply is_Some_None in Hs. }
  unfold get_issuer_pk. case_bool_decide as Hlen.
  { do 2 eexists. split; [done |]. split; [done |].
    apply Hnone. intros (? & _). done. }
  subst key_len.
  destruct Hc as [Hcp Hcl].
  destruct (recover_run (pk_cert req) (pk_cert_len req) ca_key w c rr out
              Hcp Hcl Hrsa Hout) as (v & w1 & Hrec & Hemv1 & Hcase).
  pose proof (recover_nalloc _ _ _ _ _ _ Hrec) as Hn1.
  unfold bind at 1. rewrite Hrec.
  destruct (alloc_ok (w_nalloc w) && bool_decide (0 ≤ rr) &&
            bool_decide (to_unsigned rr = pk_cert_len req)) eqn:Hcond.
  2: { destruct Hcase as [-> Hh1]. rewrite bool_decide_eq_true_2 by done.
       do 2 eexists. split; [done |]. split; [done |].
       apply Hnone. intros (_ & H0 & Hu & Hall & _).
       apply allocs_ok_first in Hall. fold k in Hcond. rewrite Hall in Hcond.
       rewrite !bool_decide_eq_true_2 in Hcond by done. done. }
  apply andb_prop in Hcond as [Hcond Hu]. apply andb_prop in Hcond as [Hk H0].
  apply bool_decide_eq_true_1 in Hu, H0.
  destruct Hcase as (-> & Hh1 & _). rewrite bool_decide_eq_false_2 by done.
  fold k in Hh1. fold (recovered k (pk_cert_len req) out) in Hh1.
  fold c' in Hh1.
  assert (Hc1 : holds w1 (pk_cert req) (pk_cert_len req) c').
  { split; [by rewrite Hh1, lookup_insert_eq | by apply recovered_blen]. }
  assert (Hr1 : holds w1 (pk_r req) (pk_r_len req) r).
  { destruct Hr as [Hr ?]. split; [| done].
    by rewrite Hh1, lookup_insert_ne. }
  assert (Hx1 : holds w1 (pk_exp req) (pk_exp_len req) x).
  { destruct Hx as [Hx ?]. split; [| done].
    by rewrite Hh1, lookup_insert_ne. }
  destruct (check_pk_cert_state req w1 c' r x Hc1 Hr1 Hx1)
    as (v & w2 & Hchk & H01 & Hiff & Hh2 & Hemv2 & Hn2);
    [unfold SHA_DIGEST_LENGTH; lia | done |].
  unfold bind. rewrite Hchk.
  destruct H01 as [-> | ->].
  2: { rewrite bool_decide_eq_true_2 by done.
       do 2 eexists. split; [done |]. split; [congruence |].
       apply Hnone. intros (_ & _ & _ & Hall & Hhd & Htr & Hdg).
       assert (0 = 1); [| done]. apply Hiff. split_and!; try done.
       rewrite Hn1. replace (S (w_nalloc w)) with (k + 1)%nat by (unfold k; lia).
       apply Hall. lia. }
  rewrite bool_decide_eq_false_2 by done.
  destruct Hiff as [Hiff _]. destruct (Hiff eq_refl) as (Hhd & Ha1 & Htr & Hdg).
  specialize (Hn2 eq_refl).
  assert (Hc2 : holds w2 (pk_cert req) (pk_cert_len req) c')
    by (destruct Hc1; split; [by rewrite Hh2 | done]).
  assert (Hr2 : holds w2 (pk_r req) (pk_r_len req) r)
    by (destruct Hr1; split; [by rewrite Hh2 | done]).
  assert (Hx2 : holds w2 (pk_exp req) (pk_exp_len req) x)
    by (destruct Hx1; split; [by rewrite Hh2 | done]).
  destruct (make_issuer_pk_run req w2 c' r x Hc2 Hr2 Hx2)
    as (w3 & Hmk & Hh3 & Hemv3 & _); [| done |].
  { pose proof (blen_nonneg r). pose proof (blen_nonneg x).
    destruct Hr as [_ ?], Hx as [_ ?]. lia. }
  assert (Hk2 : w_nalloc w2 = (k + 2)%nat) by (unfold k; lia).
  rewrite Hk2 in Hmk. rewrite Hmk.
  destruct (alloc_ok (k + 2) && alloc_ok (S (k + 2)) &&
            alloc_ok (S (S (k + 2))) && alloc_ok (S (S (S (k + 2)))))
    eqn:Hallocs.
  2: { do 2 eexists. split; [done |]. split; [congruence |].
       apply Hnone. intros (_ & _ & _ & Hall & _).
       rewrite (allocs_ok_at k 6 2 Hall) in Hallocs by lia.
       replace (S (k + 2)) with (k + 3)%nat in Hallocs by lia.
       replace (S (k + 3)) with (k + 4)%nat in Hallocs by lia.
       replace (S (k + 4)) with (k + 5)%nat in Hallocs by lia.
       rewrite (allocs_ok_at k 6 3 Hall), (allocs_ok_at k 6 4 Hall),
         (allocs_ok_at k 6 5 Hall) in Hallocs by lia. done. }
  apply make_issuer_pk_nalloc in Hmk as Hn3.
  do 2 eexists. split; [done |]. split; [congruence |].
  assert (Hmod : (key_body c' ++ r) ++
                 drop (length r) (drop (length (key_body c'))
                   (junk (k + 2) <$> seq 0 (Z.to_nat (pk_cert_len req))))
                 = issuer_modulus (k + 2) c' r).
  { unfold issuer_modulus. by rewrite (proj2 Hc1). }
  rewrite Hmod. split.
  - split; [| by eauto]. intros _. split_and!; try done.
    apply andb_prop in Hallocs as [Hallocs Ha5].
    apply andb_prop in Hallocs as [Hallocs Ha4].
    apply andb_prop in Hallocs as [Ha2 Ha3].
    intros i Hi.
    destruct i as [| [| [| [| [| [| ?]]]]]]; try lia.
    + by rewrite Nat.add_0_r.
    + rewrite Hn1 in Ha1. by replace (k + 1)%nat with (S k) by lia.
    + done.
    + by replace (k + 3)%nat with (S (k + 2)) by lia.
    + by replace (k + 4)%nat with (S (S (k + 2))) by lia.
    + by replace (k + 5)%nat with (S (S (S (k + 2)))) by lia.
  - intros _. split; [done |]. split; [congruence |]. lia.
Qed.

Lemma record_bytes_frame w w' rec bufs l :
  record_bytes w rec bufs →
  Forall (λ d, d_data d ≠ Some l) rec →
  (∀ p, p ≠ l → w_heap w' !! p = w_heap w !! p) →
  record_bytes w' rec bufs.
Proof.
  intros Hrec Hne Hframe. induction Hrec as [| d b rec bufs Hd Hrec IH].
  - constructor.
  - apply Forall_cons in Hne as [Hd' Hne]. constructor; [| by apply IH].
    destruct Hd as (p & Hp & Hb & Hl). exists p. split; [done |].
    split; [| done]. rewrite Hframe; [done |]. congruence.
Qed.

Lemma verify_ssa_data_stage rec num req key aip w s bufs rr out :
  holds w (ssa_data req) (ssa_data_len req) s →
  record_bytes w rec bufs →
  Forall (λ d, d_data d ≠ Some (ssa_data req)) rec →
  num = Z.of_nat (length rec) →
  SHA_DIGEST_LENGTH + 2 ≤ ssa_data_len req →
  ssa_data_len req + blen (concat bufs) < SIZE_MOD →
  RSA_public_encrypt (to_int (ssa_data_len req)) s key = (rr, out) →
  blen out ≤ ssa_data_len req →
  let k := w_nalloc w in
  let s' := recovered k (ssa_data_len req) out in
  ∃ v w', verify_ssa_data rec num req key aip w = Ok v w' ∧
    w_emv w' = w_emv w ∧ (v = 1 ∨ v = 0) ∧
    (v = 1 ↔
     0 ≤ rr ∧ to_unsigned rr = ssa_data_len req ∧ allocs_ok k 2 ∧
     ssa_header_ok s' ∧ trailer_ok s' ∧
     digest_ok s' (SHA1 (signed_part s' ++ concat bufs ++ [aip.1; aip.2]))).
Proof.
  intros [Hsp Hsl] Hrec Hne Hnum Hmin Hmax Hrsa Hout k s'.
  destruct (recover_run (ssa_data req) (ssa_data_len req) key w s rr out
              Hsp Hsl Hrsa Hout) as (v & w1 & Hrun & Hemv1 & Hcase).
  pose proof (recover_nalloc _ _ _ _ _ _ Hrun) as Hn1.
  destruct (alloc_ok (w_nalloc w) && bool_decide (0 ≤ rr) &&
            bool_decide (to_unsigned rr = ssa_data_len req)) eqn:Hcond.
  2: { destruct Hcase as [-> Hh1].
       unfold verify_ssa_data, bind at 1. rewrite Hrun.
       rewrite bool_decide_eq_true_2 by done.
       do 2 eexists. split; [done |]. split; [done |]. split; [by right |].
       split; [done |]. intros (H0 & Hu & Hall & _).
       apply allocs_ok_first in Hall. fold k in Hcond. rewrite Hall in Hcond.
       rewrite !bool_decide_eq_true_2 in Hcond by done. done. }
  apply andb_prop in Hcond as [Hcond Hu]. apply andb_prop in Hcond as [Hk H0].
  apply bool_decide_eq_true_1 in Hu, H0.
  destruct Hcase as (-> & Hh1 & _).
  fold k in Hh1. fold (recovered k (ssa_data_len req) out) in Hh1.
  fold s' in Hh1.
  assert (Hs1 : holds w1 (ssa_data req) (ssa_data_len req) s').
  { split; [by rewrite Hh1, lookup_insert_eq | by apply recovered_blen]. }
  assert (Hrec1 : record_bytes w1 rec bufs).
  { apply (record_bytes_frame w w1 rec bufs (ssa_data req)); [done .. |].
    intros p Hp. by rewrite Hh1, lookup_insert_ne. }
  destruct (verify_ssa_data_accepts rec num req key aip w w1 s' bufs
              Hrun Hs1 Hrec1 Hnum Hmin Hmax)
    as (v & w2 & Hv & H01 & Hiff).
  exists v, w2. split; [done |].
  split; [apply (emv_kept_verify_ssa_data _ _ _ _ _ _ _ _ Hv) |].
  split; [done |]. rewrite Hiff, Hn1. split.
  - intros (Hhd & Ha1 & Htr & Hdg). split_and!; try done.
    intros i Hi. destruct i as [| [| ?]]; try lia.
    + by rewrite Nat.add_0_r.
    + by replace (k + 1)%nat with (S k) by lia.
  - intros (_ & _ & Hall & Hhd & Htr & Hdg). split_and!; try done.
    replace (S (w_nalloc w)) with (k + 1)%nat by (unfold k; lia).
    apply Hall. lia.
Qed.

Lemma allocs_ok_split k n m :
  allocs_ok k (n + m) ↔ allocs_ok k n ∧ allocs_ok (k + n) m.
Proof.
  unfold allocs_ok. split.
  - intros Hall. split; intros i Hi.
    + apply Hall. lia.
    + rewrite <- Nat.add_assoc. apply Hall. lia.
  - intros [Hn Hm] i Hi. destruct (decide (i < n)%nat) as [Hlt | Hge].
    + by apply Hn.
    + replace (k + i)%nat with (k + n + (i - n))%nat by lia. apply Hm. lia.
Qed.

Lemma get_required_data_ready w pc lc c pr lr r px lx x ps ls s :
  0 ≤ card_index w →
  element w EMV_TAG_ISS_PK_CERT pc lc c →
  element w EMV_TAG_ISS_PK_R pr lr r →
  element w EMV_TAG_ISS_PK_EXP px lx x →
  element w EMV_TAG_SSA_DATA ps ls s →
  ∃ w1, get_required_data w =
        Ok (Some {| ca_pk_idx := card_index w;
                    pk_cert := pc; pk_cert_len := lc;
                    pk_r := pr; pk_r_len := lr;
                    pk_exp := px; pk_exp_len := lx;
                    ssa_data := ps; ssa_data_len := ls |}) w1 ∧
        w_heap w1 = w_heap w ∧ w_emv w1 = w_emv w ∧
        w_nalloc w1 = w_nalloc w.
Proof.
  intros Hi (dc & Hc & Hpc & Hlc & _) (dr & Hr & Hpr & Hlr & _)
    (dx & Hx & Hpx & Hlx & _) (ds & Hs & Hps & Hls & _).
  unfold get_required_data, _emv_retrieve_data, call_emv_data_int, bind,
    emit, get_emv, get_heap, ret. simpl. fold (card_index w).
  rewrite bool_decide_eq_false_2 by lia. simpl.
  rewrite Hc, Hpc. simpl. rewrite Hr, Hpr. simpl. rewrite Hx, Hpx. simpl.
  rewrite Hs, Hps. simpl. subst. by eexists.
Qed.

Lemma get_required_data_negative w :
  card_index w < 0 → ∃ w1, get_required_data w = Ok None w1.
Proof.
  intros Hi.
  unfold get_required_data, _emv_retrieve_data, call_emv_data_int, bind,
    emit, get_emv, get_heap, ret. simpl. fold (card_index w).
  rewrite bool_decide_eq_true_2 by done. by eexists.
Qed.

Lemma get_ca_key_run idx mod_cb exp_cb w m e :
  mod_cb idx = Some m →
  exp_cb idx = Some e →
  ¬ releases_twice idx mod_cb exp_cb (w_nalloc w) →
  let k := w_nalloc w in
  ∃ w2, get_ca_key idx mod_cb exp_cb w =
        Ok (if alloc_ok k && alloc_ok (S k) && alloc_ok (S (S k))
            then Some ({| rsa_n := m; rsa_e := e |}, blen m) else None) w2 ∧
        w_heap w2 = w_heap w ∧ w_emv w2 = w_emv w ∧
        (alloc_ok k && alloc_ok (S k) && alloc_ok (S (S k)) = true →
         w_nalloc w2 = (k + 3)%nat).
Proof.
  intros Hm He Hdef k.
  unfold releases_twice in Hdef. rewrite Hm, He in Hdef. fold k in Hdef.
  unfold get_ca_key, BN_bin2bn, lib_alloc, bind, emit, ret.
  rewrite Hm, He. simpl. fold k.
  destruct (alloc_ok k); simpl; [| by eexists].
  rewrite slice_full. simpl.
  destruct (alloc_ok (S k)); simpl; [| by eexists].
  rewrite slice_full. simpl.
  destruct (alloc_ok (S (S k))); simpl; [| destruct Hdef; by split_and!].
  eexists. split; [done |]. simpl. split_and!; try done. intros _. lia.
Qed.

Lemma allocs_ok_3 k :
  alloc_ok k && alloc_ok (S k) && alloc_ok (S (S k)) = true ↔ allocs_ok k 3.
Proof.
  rewrite !andb_true_iff. split.
  - intros [[H0 H1] H2] i Hi. destruct i as [| [| [| ?]]]; try lia.
    + by rewrite Nat.add_0_r.
    + by replace (k + 1)%nat with (S k) by lia.
    + by replace (k + 2)%nat with (S (S k)) by lia.
  - intros Hall.
    pose proof (Hall 0%nat) as H0. pose proof (Hall 1%nat) as H1.
    pose proof (Hall 2%nat) as H2. rewrite Nat.add_0_r in H0.
    replace (k + 1)%nat with (S k) in H1 by lia.
    replace (k + 2)%nat with (S (S k)) in H2 by lia.
    split_and!; [apply H0 | apply H1 | apply H2]; lia.
Qed.

(** X8.  The whole attempt, under these preconditions: the certificate,
    the remainder, the exponent and the signed data are elements of the
    tag store; the remainder, the exponent and the signed data do not
    share the certificate's buffer and no record shares the
    certificate's or the signed data's; the certificate has at least 36
    bytes, the remainder at most 36 and the signed data at least 22; the
    lengths add up below 2^64; the provider knows the card's CA key;
    building the CA key does not end in the double release of
    [get_ca_key]; and neither transform writes more than its block
    holds.  Then the attempt answers, with 1 or 0, and it answers 1
    exactly when: the AIP has the SDA bit; the key index is not
    negative; none of its eleven allocations fails; the certificate is
    as long as the CA modulus, the transform under the CA key returns
    that length, and the block it leaves has the certificate header,
    the trailer and the digest of its signed part, the remainder and the
    exponent; and the transform of the signed data under the issuer key
    built from that block returns the data's length and leaves a block
    with the signed-data header, the trailer and the digest of its
    signed part, the records and the AIP. *)
Theorem attempt_succeeds_exactly_when mod_cb exp_cb w
    pc lc c pr lr r px lx x ps ls s bufs m e rr1 out1 rr2 out2 :
  element w EMV_TAG_ISS_PK_CERT pc lc c →
  element w EMV_TAG_ISS_PK_R pr lr r →
  element w EMV_TAG_ISS_PK_EXP px lx x →
  element w EMV_TAG_SSA_DATA ps ls s →
  pr ≠ pc → px ≠ pc → ps ≠ pc →
  record_bytes w (db_sda (w_emv w)) bufs →
  Forall (λ d, d_data d ≠ Some pc) (db_sda (w_emv w)) →
  Forall (λ d, d_data d ≠ Some ps) (db_sda (w_emv w)) →
  db_numsda (w_emv w) = Z.of_nat (length (db_sda (w_emv w))) →
  15 + 21 ≤ lc → lr ≤ 15 + 21 → lc + lr + lx < SIZE_MOD →
  SHA_DIGEST_LENGTH + 2 ≤ ls → ls + blen (concat bufs) < SIZE_MOD →
  mod_cb (card_index w) = Some m →
  exp_cb (card_index w) = Some e →
  ¬ releases_twice (card_index w) mod_cb exp_cb (w_nalloc w) →
  let k := w_nalloc w in
  let ca_key := {| rsa_n := m; rsa_e := e |} in
  RSA_public_encrypt (to_int lc) c ca_key = (rr1, out1) →
  blen out1 ≤ lc →
  let c' := recovered (k + 3) lc out1 in
  let iss_key := {| rsa_n := issuer_modulus (k + 5) c' r; rsa_e := x |} in
  RSA_public_encrypt (to_int ls) s iss_key = (rr2, out2) →
  blen out2 ≤ ls →
  let s' := recovered (k + 9) ls out2 in
  let aip := e_aip (w_emv w) in
  ∃ v w', emv_authenticate_static_data mod_cb exp_cb w = Ok v w' ∧
    (v = 1 ∨ v = 0) ∧
    (v = 1 ↔
     sda_supported w ∧ 0 ≤ card_index w ∧ allocs_ok k 11 ∧
     lc = blen m ∧ 0 ≤ rr1 ∧ to_unsigned rr1 = lc ∧
     cert_header_ok c' ∧ trailer_ok c' ∧
     digest_ok c' (SHA1 (signed_part c' ++ r ++ x)) ∧
     0 ≤ rr2 ∧ to_unsigned rr2 = ls ∧
     ssa_header_ok s' ∧ trailer_ok s' ∧
     digest_ok s' (SHA1 (signed_part s' ++ concat bufs ++ [aip.1; aip.2]))).
Proof.
  intros Hc Hr Hx Hs Hrc Hxc Hsc Hrec Hnec Hnes Hnum Hmin Hrmax Hmax
    Hsmin Hsmax Hm He Hdef k ca_key Hrsa1 Hout1 c' iss_key Hrsa2 Hout2 s'
    aip.
  match goal with |- ∃ v w', _ ∧ _ ∧ (_ ↔ ?R) => set (RHS := R) end.
  assert (Hfail : ∀ w', run_shape mod_cb exp_cb w 0 w' → ¬ RHS →
            ∃ v w', emv_authenticate_static_data mod_cb exp_cb w = Ok v w' ∧
                    (v = 1 ∨ v = 0) ∧ (v = 1 ↔ RHS)).
  { intros w' Hsh Hn. exists 0, w'. split; [by apply authenticate_shape |].
    split; [by right |]. split; [done | intros HR; by destruct Hn]. }
  destruct (decide (Z.land (e_aip (w_emv w)).1 EMV_AIP_SDA ≠ 0))
    as [Haip | Haip].
  2: { eapply Hfail; [by apply stop_at_aip | intros (? & _); done]. }
  destruct (decide (0 ≤ card_index w)) as [Hidx | Hidx].
  2: { destruct (get_required_data_negative w) as [w1 Hreq]; [lia |].
       eapply Hfail; [by eapply stop_at_data | intros (_ & ? & _); done]. }
  destruct (get_required_data_ready w pc lc c pr lr r px lx x ps ls s
              Hidx Hc Hr Hx Hs) as (w1 & Hreq & Hh1 & He1 & Hn1).
  set (req := {| ca_pk_idx := card_index w; pk_cert := pc |}) in *.
  destruct (get_ca_key_run (card_index w) mod_cb exp_cb w1 m e Hm He)
    as (w2 & Hca & Hh2 & He2 & Hn2); [by rewrite Hn1 |].
  rewrite Hn1 in Hca, Hn2. fold k in Hca, Hn2. fold ca_key in Hca.
  destruct (alloc_ok k && alloc_ok (S k) && alloc_ok (S (S k))) eqn:Ha3.
  2: { eapply Hfail; [by eapply (stop_at_ca_key _ _ _ req) |].
       intros (_ & _ & Hall & _).
       apply (allocs_ok_split k 3 8) in Hall as [H3 _].
       apply allocs_ok_3 in H3. congruence. }
  specialize (Hn2 eq_refl). apply allocs_ok_3 in Ha3.
  set (w2' := with_emv (set_e_ca_pk (Some ca_key)) w2).
  assert (Hheap2 : w_heap w2' = w_heap w) by (simpl; congruence).
  destruct Hc as (dc & _ & _ & _ & Hcp & Hcl).
  destruct Hr as (dr & _ & _ & _ & Hrp & Hrl).
  destruct Hx as (dx & _ & _ & _ & Hxp & Hxl).
  destruct Hs as (ds & _ & _ & _ & Hsp & Hsl).
  destruct (get_issuer_pk_stage req ca_key (blen m) w2' c r x rr1 out1)
    as (o & w3 & Hiss & He3 & Hiff3 & Hsome3); try done.
  1-3: by split; [rewrite Hheap2 |].
  simpl in Hiff3, Hsome3. rewrite Hn2 in Hiff3, Hsome3. fold c' in Hiff3, Hsome3.
  destruct o as [iss |].
  2: { eapply Hfail; [by eapply (stop_at_issuer _ _ _ req) |].
       intros (_ & _ & Hall & Hlen & H0 & Hu & Hhd & Htr & Hdg & _).
       apply (allocs_ok_split k 3 8) in Hall as [_ Hall].
       apply (allocs_ok_split (k + 3) 6 2) in Hall as [Hall _].
       destruct Hiff3 as [_ Hiff3]. eapply is_Some_None, Hiff3.
       split_and!; try done. congruence. }
  destruct Hsome3 as (Hisseq & Hh3 & Hn3); [by eexists |].
  replace (k + 3 + 2)%nat with (k + 5)%nat in Hisseq by lia.
  fold iss_key in Hisseq. injection Hisseq as ->.
  destruct Hiff3 as [Hiff3 _].
  destruct Hiff3 as (Hlen & H0 & Hu & Hall6 & Hhd & Htr & Hdg); [by eexists |].
  simpl in Hlen.
  set (w3' := with_emv (set_e_iss_pk (Some iss_key)) w3).
  assert (Hemv3 : w_emv w3' = set_e_iss_pk (Some iss_key)
                                (set_e_ca_pk (Some ca_key) (w_emv w))).
  { simpl. rewrite He3. simpl. by rewrite He2, He1. }
  assert (Hheap3 : w_heap w3' = <[pc := c']> (w_heap w)).
  { simpl. rewrite Hh3. simpl. by rewrite Hh2, Hh1. }
  destruct (verify_ssa_data_stage (db_sda (w_emv w3')) (db_numsda (w_emv w3'))
              req iss_key (e_aip (w_emv w3')) w3' s bufs rr2 out2)
    as (v & w4 & Hssa & He4 & H01 & Hiff4); try done.
  { split; [| done]. by rewrite Hheap3, lookup_insert_ne. }
  { rewrite Hemv3. simpl.
    apply (record_bytes_frame w w3' _ bufs pc); [done .. |].
    intros p Hp. by rewrite Hheap3, lookup_insert_ne. }
  { by rewrite Hemv3. }
  { by rewrite Hemv3. }
  simpl in Hiff4. rewrite Hn3 in Hiff4.
  replace (k + 3 + 6)%nat with (k + 9)%nat in Hiff4 by lia.
  rewrite He3 in Hiff4. simpl in Hiff4. rewrite He2, He1 in Hiff4.
  destruct H01 as [-> | ->].
  - eexists 1, _. split.
    { apply authenticate_shape.
      by eapply (all_stages_passed _ _ _ req w1 ca_key (blen m) w2 iss_key
                   w3 1 w4). }
    split; [by left |]. split; [intros _ | done].
    destruct Hiff4 as [Hiff4 _].
    destruct (Hiff4 eq_refl) as (H0' & Hu' & Hall2 & Hhd' & Htr' & Hdg').
    unfold RHS. split_and!; try done; [| congruence].
    apply (allocs_ok_split k 3 8). split; [done |].
    apply (allocs_ok_split (k + 3) 6 2). split; [done |].
    by replace (k + 3 + 6)%nat with (k + 9)%nat by lia.
  - eapply Hfail;
      [by eapply (stop_at_ssa _ _ _ req w1 ca_key (blen m) w2 iss_key w3 w4) |].
    intros (_ & _ & Hall & _ & _ & _ & _ & _ & _ & H0' & Hu' & Hhd' & Htr'
            & Hdg').
    apply (allocs_ok_split k 3 8) in Hall as [_ Hall].
    apply (allocs_ok_split (k + 3) 6 2) in Hall as [_ Hall].
    replace (k + 3 + 6)%nat with (k + 9)%nat in Hall by lia.
    assert (0 = 1); [| done]. apply Hiff4. by split_and!.
Qed.



(** *** make_issuer_pk: the modulus *)

Lemma allocs_ok_4 k :
  alloc_ok k && alloc_ok (S k) && alloc_ok (S (S k)) &&
  alloc_ok (S (S (S k))) = true ↔ allocs_ok k 4.
Proof.
  rewrite !andb_true_iff. split.
  - intros [[[H0 H1] H2] H3] i Hi. destruct i as [| [| [| [| ?]]]]; try lia.
    + by rewrite Nat.add_0_r.
    + by replace (k + 1)%nat with (S k) by lia.
    + by replace (k + 2)%nat with (S (S k)) by lia.
    + by replace (k + 3)%nat with (S (S (S k))) by lia.
  - intros Hall.
    pose proof (Hall 0%nat) as H0. pose proof (Hall 1%nat) as H1.
    pose proof (Hall 2%nat) as H2. pose proof (Hall 3%nat) as H3.
    rewrite Nat.add_0_r in H0.
    replace (k + 1)%nat with (S k) in H1 by lia.
    replace (k + 2)%nat with (S (S k)) in H2 by lia.
    replace (k + 3)%nat with (S (S (S k))) in H3 by lia.
    split_and!; [apply H0 | apply H1 | apply H2 | apply H3]; lia.
Qed.

Lemma issuer_modulus_blen k (c r : bytes) :
  15 + 21 ≤ blen c → blen r ≤ 15 + 21 → blen (issuer_modulus k c r) = blen c.
Proof.
  intros Hc Hr. pose proof (key_body_blen c Hc) as Hkb.
  unfold issuer_modulus. rewrite !blen_app. unfold blen in *.
  rewrite !length_drop, length_fmap, length_seq. lia.
Qed.

Lemma issuer_modulus_full k (c r : bytes) :
  15 + 21 ≤ blen c → blen r = 15 + 21 → issuer_modulus k c r = key_body c ++ r.
Proof.
  intros Hc Hr. pose proof (key_body_blen c Hc) as Hkb.
  unfold issuer_modulus. rewrite drop_ge; [by rewrite app_nil_r |].
  unfold blen in *. rewrite length_drop, length_fmap, length_seq. lia.
Qed.

(** X11.  [make_issuer_pk] on a certificate of at least 36 bytes and a
    remainder of at most 36.  It writes no buffer, makes no RSA or hash
    call, and returns a key exactly when none of its four allocations
    fails.  The key's exponent is the exponent element; its modulus has
    as many bytes as the certificate and begins with the key body
    followed by the remainder.  When the remainder has exactly 36 bytes
    the modulus is the key body followed by the remainder and nothing
    else. *)
Theorem issuer_modulus_is_certificate_sized req w c r x :
  holds w (pk_cert req) (pk_cert_len req) c →
  holds w (pk_r req) (pk_r_len req) r →
  holds w (pk_exp req) (pk_exp_len req) x →
  15 + 21 ≤ pk_cert_len req < SIZE_MOD →
  pk_r_len req ≤ 15 + 21 →
  ∃ o w', make_issuer_pk req w = Ok o w' ∧
    w_heap w' = w_heap w ∧ trace_grows no_crypto w w' ∧
    (is_Some o ↔ allocs_ok (w_nalloc w) 4) ∧
    (∀ key, o = Some key →
       rsa_e key = x ∧
       blen (rsa_n key) = pk_cert_len req ∧
       take (length (key_body c ++ r)) (rsa_n key) = key_body c ++ r ∧
       (pk_r_len req = 15 + 21 → rsa_n key = key_body c ++ r)).
Proof.
  intros Hc Hr Hx Hmin Hrmax.
  destruct (make_issuer_pk_run req w c r x Hc Hr Hx Hmin Hrmax)
    as (w' & Hrun & Hh & _ & Htr).
  destruct Hc as [_ Hcl], Hr as [_ Hrl].
  assert (Hmod : (key_body c ++ r) ++
                 drop (length r) (drop (length (key_body c))
                   (junk (w_nalloc w) <$> seq 0 (Z.to_nat (pk_cert_len req))))
                 = issuer_modulus (w_nalloc w) c r).
  { unfold issuer_modulus. by rewrite Hcl. }
  rewrite Hmod in Hrun. clear Hmod.
  do 2 eexists. split; [exact Hrun |]. split; [done |]. split; [done |].
  destruct (_ && _) eqn:Hall.
  - apply allocs_ok_4 in Hall. split; [split; [done | by eauto] |].
    intros key [= <-]. simpl. split_and!; [done | | |].
    + rewrite issuer_modulus_blen; lia.
    + unfold issuer_modulus. by rewrite take_app_length.
    + intros Hfull. apply issuer_modulus_full; lia.
  - split; [| done]. split; [by intros [? ?] |].
    intros Hok. apply allocs_ok_4 in Hok. congruence.
Qed.

(** *** The cryptographic calls of an attempt *)

Lemma crypto_calls_app evs1 evs2 :
  crypto_calls (evs1 ++ evs2) = crypto_calls evs1 ++ crypto_calls evs2.
Proof.
  induction evs1 as [| ev evs1 IH]; [done |].
  destruct ev; simpl; by rewrite ?IH.
Qed.

Lemma crypto_calls_quiet evs : Forall no_crypto evs → crypto_calls evs = [].
Proof.
  induction 1 as [| ev evs Hev _ IH]; [done |].
  destruct ev; simpl; try done; by vm_compute in Hev.
Qed.

Lemma makes_ret {A} (a : A) (Q : A → list crypto_call → Prop) :
  Q a [] → makes (ret a) Q.
Proof. intros HQ w a' w' [= <- <-]. exists []. by rewrite app_nil_r. Qed.

Lemma makes_undefined {A} (Q : A → list crypto_call → Prop) :
  makes undefined Q.
Proof. by intros w a w' ?. Qed.

Lemma makes_bind {A B} (c : M A) (k : A → M B) Q1
    (Q : B → list crypto_call → Prop) :
  makes c Q1 →
  (∀ a l1, Q1 a l1 → makes (k a) (λ b l2, Q b (l1 ++ l2))) →
  makes (bind c k) Q.
Proof.
  intros Hc Hk w b w' Hrun. unfold bind in Hrun.
  destruct (c w) as [a w1 |] eqn:Hcw; [| done].
  destruct (Hc w a w1 Hcw) as (evs1 & Ht1 & HQ1).
  destruct (Hk a _ HQ1 w1 b w' Hrun) as (evs2 & Ht2 & HQ).
  exists (evs1 ++ evs2). rewrite Ht2, Ht1, app_assoc. split; [done |].
  by rewrite crypto_calls_app.
Qed.

Lemma makes_quiet {A} (c : M A) :
  preserves (trace_grows no_crypto) c → makes c (λ _ l, l = []).
Proof.
  intros Hc w a w' Hrun. destruct (Hc w a w' Hrun) as (evs & Ht & Hq).
  exists evs. split; [done |]. by apply crypto_calls_quiet.
Qed.

Lemma makes_after_quiet {A B} (c : M A) (k : A → M B)
    (Q : B → list crypto_call → Prop) :
  preserves (trace_grows no_crypto) c →
  (∀ a, makes (k a) Q) →
  makes (bind c k) Q.
Proof.
  intros Hc Hk. eapply makes_bind; [by apply makes_quiet |].
  intros a l1 ->. apply Hk.
Qed.

Lemma makes_emit ev (Q : unit → list crypto_call → Prop) :
  Q tt (crypto_calls [ev]) → makes (emit ev) Q.
Proof. intros HQ w [] w' ->%emit_Ok. by exists [ev]. Qed.

Lemma makes_weaken {A} (c : M A) (Q Q' : A → list crypto_call → Prop) :
  makes c Q → (∀ a l, Q a l → Q' a l) → makes c Q'.
Proof.
  intros Hc HQ w a w' Hrun. destruct (Hc w a w' Hrun) as (evs & Ht & Hq).
  exists evs. eauto.
Qed.

Lemma quiet_load p i : preserves (trace_grows no_crypto) (load p i).
Proof. unfold load. pres. Qed.
Lemma quiet_load_range p off n :
  preserves (trace_grows no_crypto) (load_range p off n).
Proof. unfold load_range. pres. Qed.
Lemma quiet_store_range p off src :
  preserves (trace_grows no_crypto) (store_range p off src).
Proof. unfold store_range. pres. Qed.
Lemma quiet_printf s : preserves (trace_grows no_crypto) (printf s).
Proof. unfold printf. pres. Qed.

#[local] Hint Resolve quiet_load quiet_load_range quiet_store_range
  quiet_printf quiet_get_required_data quiet_get_ca_key : pres.

Lemma quiet_make_issuer_pk req :
  preserves (trace_grows no_crypto) (make_issuer_pk req).
Proof. unfold make_issuer_pk. pres. Qed.

Lemma quiet_add_record_len rec i n :
  preserves (trace_grows no_crypto) (add_record_len rec i n).
Proof. unfold add_record_len. pres. Qed.
Lemma quiet_copy_record rec i st :
  preserves (trace_grows no_crypto) (copy_record rec i st).
Proof. unfold copy_record. destruct st. pres. Qed.

#[local] Hint Resolve quiet_make_issuer_pk quiet_add_record_len
  quiet_copy_record : pres.

(** One step through a computation whose head makes no cryptographic
    call. *)
Ltac quiet_head :=
  apply makes_after_quiet; [solve [pres] | intros ?].

Lemma recover_makes ptr len key :
  makes (recover ptr len key)
    (λ v l, l = [Transform] ∨ (v = 0 ∧ l = [])).
Proof.
  unfold recover. quiet_head.
  match goal with |- makes (match ?t with _ => _ end) _ => destruct t end.
  2: { apply makes_ret. by right. }
  quiet_head.
  apply (makes_bind _ _ (λ _ l, l = [Transform])); [by apply makes_emit |].
  intros _ l1 ->.
  destruct (RSA_public_encrypt _ _ _) as [r out].
  quiet_head. destruct (_ || _); [apply makes_ret; by left |].
  quiet_head. quiet_head. apply makes_ret. by left.
Qed.

Lemma emsa_pss_decode_makes msg msg_len em em_len :
  makes (emsa_pss_decode msg msg_len em em_len) (λ _ l, l = [Hash]).
Proof.
  unfold emsa_pss_decode.
  apply (makes_bind _ _ (λ _ l, l = [Hash])).
  { unfold sha1. quiet_head.
    apply (makes_bind _ _ (λ _ l, l = [Hash])); [by apply makes_emit |].
    intros _ l1 ->. by apply makes_ret. }
  intros md l1 ->. simpl.
  apply (makes_weaken _ (λ _ l, l = [])); [| by intros _ l ->].
  apply makes_quiet. pres.
Qed.

Lemma check_pk_cert_makes req :
  makes (check_pk_cert req) (λ v l, l = [Hash] ∨ (v = 0 ∧ l = [])).
Proof.
  unfold check_pk_cert.
  quiet_head. case_bool_decide; [quiet_head; apply makes_ret; by right |].
  quiet_head. case_bool_decide; [quiet_head; apply makes_ret; by right |].
  quiet_head. case_bool_decide; [quiet_head; apply makes_ret; by right |].
  quiet_head.
  match goal with |- makes (match ?t with _ => _ end) _ => destruct t end.
  2: { apply makes_ret. by right. }
  do 6 quiet_head.
  eapply makes_weaken; [apply emsa_pss_decode_makes |].
  intros ? ? ->. by left.
Qed.

Lemma check_ssa_makes ptr len rec num aip :
  makes (check_ssa ptr len rec num aip) (λ v l, l = [Hash] ∨ (v = 0 ∧ l = [])).
Proof.
  unfold check_ssa.
  quiet_head. quiet_head.
  match goal with |- makes (match ?t with _ => _ end) _ => destruct t end.
  2: { apply makes_ret. by right. }
  do 3 quiet_head.
  match goal with |- makes (let '(_, _) := ?t in _) _ => destruct t end.
  quiet_head.
  eapply makes_weaken; [apply emsa_pss_decode_makes |].
  intros ? ? ->. by left.
Qed.

Lemma get_issuer_pk_makes req ca_key key_len :
  makes (get_issuer_pk req ca_key key_len)
    (λ o l, l = [Transform; Hash] ∨
            (o = None ∧ (l = [] ∨ l = [Transform]))).
Proof.
  unfold get_issuer_pk.
  case_bool_decide; [quiet_head; apply makes_ret; right; by eauto |].
  eapply makes_bind; [apply recover_makes |].
  intros ok l1 Hrec. simpl.
  case_bool_decide as Hok.
  { quiet_head. apply makes_ret. right. split; [done |].
    rewrite app_nil_r. destruct Hrec as [-> | [_ ->]]; eauto. }
  destruct Hrec as [-> | [? _]]; [| done].
  eapply makes_bind; [apply check_pk_cert_makes |].
  intros ok2 l2 Hchk. simpl.
  case_bool_decide as Hok2.
  { apply makes_ret. rewrite app_nil_r.
    destruct Hchk as [-> | [_ ->]]; [by left | right; eauto]. }
  destruct Hchk as [-> | [? _]]; [| done].
  eapply makes_weaken; [apply makes_quiet, quiet_make_issuer_pk |].
  intros ? ? ->. by left.
Qed.

Lemma verify_ssa_data_makes rec num req key aip :
  makes (verify_ssa_data rec num req key aip)
    (λ v l, l = [Transform; Hash] ∨
            (v = 0 ∧ (l = [] ∨ l = [Transform]))).
Proof.
  unfold verify_ssa_data.
  eapply makes_bind; [apply recover_makes |].
  intros ok l1 Hrec. simpl.
  case_bool_decide as Hok.
  { quiet_head. apply makes_ret. right. split; [done |].
    rewrite app_nil_r. destruct Hrec as [-> | [_ ->]]; eauto. }
  destruct Hrec as [-> | [? _]]; [| done].
  assert (Hstop : ∀ s, makes (printf s;; ret 0)
            (λ v l, [Transform] ++ l = [Transform; Hash] ∨
                    (v = 0 ∧ ([Transform] ++ l = [] ∨
                              [Transform] ++ l = [Transform])))).
  { intros s. quiet_head. apply makes_ret. right. eauto. }
  quiet_head. case_bool_decide; [apply Hstop |].
  quiet_head. case_bool_decide; [apply Hstop |].
  quiet_head. case_bool_decide; [apply Hstop |].
  eapply makes_weaken; [apply check_ssa_makes |].
  intros ? ? [-> | [-> ->]]; [by left | right; eauto].
Qed.

(** X12.  The cryptographic calls of an attempt come in the order
    transform, hash, transform, hash, and an attempt ends with the call
    at which a stage failed: nothing is hashed before a transform has
    run, and no second transform runs before the certificate's message
    has been hashed.  An attempt that returns 1 has made all four. *)
Theorem attempt_crypto_calls_in_order mod_cb exp_cb w r w' :
  emv_authenticate_static_data mod_cb exp_cb w = Ok r w' →
  ∃ evs, w_trace w' = w_trace w ++ evs ∧
    crypto_calls evs `prefix_of` [Transform; Hash; Transform; Hash] ∧
    (r ≠ 0 → crypto_calls evs = [Transform; Hash; Transform; Hash]).
Proof.
  revert w r w'.
  change (makes (emv_authenticate_static_data mod_cb exp_cb)
            (λ r l, l `prefix_of` [Transform; Hash; Transform; Hash] ∧
                    (r ≠ 0 → l = [Transform; Hash; Transform; Hash]))).
  assert (Hpre : ∀ l : list crypto_call,
            l = [] ∨ l = [Transform] ∨ l = [Transform; Hash] ∨
            l = [Transform; Hash; Transform] ∨
            l = [Transform; Hash; Transform; Hash] →
            l `prefix_of` [Transform; Hash; Transform; Hash] ∧
            (0 ≠ 0 → l = [Transform; Hash; Transform; Hash])).
  { intros l Hl. split; [| done].
    destruct Hl as [-> | [-> | [-> | [-> | ->]]]];
      [by eexists | by eexists | by eexists | by eexists | done]. }
  unfold emv_authenticate_static_data.
  quiet_head. case_bool_decide.
  { quiet_head. apply makes_ret. apply Hpre. by left. }
  quiet_head.
  match goal with |- makes (match ?t with _ => _ end) _ =>
    destruct t as [req |] end.
  2: { quiet_head. apply makes_ret. apply Hpre. by left. }
  quiet_head.
  match goal with |- makes (match ?t with _ => _ end) _ =>
    destruct t as [[ca_key ca_key_len] |] end.
  2: { quiet_head. apply makes_ret. apply Hpre. by left. }
  quiet_head.
  eapply makes_bind; [apply get_issuer_pk_makes |].
  intros iss l1 Hiss. simpl. quiet_head.
  destruct iss as [iss_key |].
  2: { apply makes_ret. rewrite app_nil_r. apply Hpre.
       destruct Hiss as [-> | [_ [-> | ->]]]; eauto. }
  destruct Hiss as [-> | [? _]]; [| done].
  quiet_head.
  eapply makes_bind; [apply verify_ssa_data_makes |].
  intros ok l2 Hssa. simpl.
  case_bool_decide as Hok.
  { apply makes_ret. rewrite app_nil_r. apply Hpre.
    destruct Hssa as [-> | [_ [-> | ->]]]; simpl; eauto 10. }
  destruct Hssa as [-> | [? _]]; [| done].
  quiet_head. apply makes_ret. simpl. done.
Qed.

End Facts.

(** ** The reference library on known values *)

(** The digest of the three bytes "abc", from FIPS 180. *)
Example SHA1_abc :
  Reference.SHA1 [0x61; 0x62; 0x63] =
  [0xa9; 0x99; 0x3e; 0x36; 0x47; 0x06; 0x81; 0x6a; 0xba; 0x3e;
   0x25; 0x71; 0x78; 0x50; 0xc2; 0x6c; 0x9c; 0xd0; 0xd8; 0x9d].
Proof. vm_compute. reflexivity. Qed.

(** The certificate and the signed data of the sample card recover to
    the blocks they were made from. *)
Example cert_recovers :
  Reference.RSA_public_encrypt 40 Fixture.cert Fixture.ca_key
  = (40, Fixture.cert_recovered).
Proof. vm_compute. reflexivity. Qed.

Example ssa_recovers :
  Reference.RSA_public_encrypt 40 Fixture.ssa Fixture.iss_key
  = (40, Fixture.ssa_recovered).
Proof. vm_compute. reflexivity. Qed.

(** ** The program on concrete cards *)

Section Cards.

Import Fixture.

#[local] Existing Instance lib.

(** The sample card authenticates. *)
Example sample_card_authenticates :
  fst <$> outcome (emv_authenticate_static_data (ca_mod ca_modulus) ca_exp
                     (card cert remainder ssa)) = Some 1.
Proof. vm_compute. reflexivity. Qed.

(** The issuer key of the sample card comes back whole: its remainder has
    36 bytes. *)
Example sample_card_issuer_key :
  fst <$> outcome (get_issuer_pk (request cert remainder ssa) ca_key 40
                     (card cert remainder ssa)) = Some (Some iss_key).
Proof. vm_compute. reflexivity. Qed.

(** C3, at a certificate whose remainder has four bytes.  The certificate
    passes recovery and validation; the key that comes back has a
    40-byte modulus whose first eight bytes are the key body and the
    remainder, and whose last 32 bytes are whatever the scratch buffer of
    [make_issuer_pk] held: the modulus is not the key body followed by
    the remainder. *)
Theorem short_remainder_modulus_has_scratch_tail (jk : nat → nat → Z) :
  let req := request cert_short short_remainder ssa in
  let w := card cert_short short_remainder ssa in
  ∃ key w',
    @get_issuer_pk (externals always jk) req ca_key 40 w = Ok (Some key) w' ∧
    w_heap w' !! pk_cert req = Some cert_short_recovered ∧
    rsa_n key = key_body cert_short_recovered ++ short_remainder ++
                (jk 2%nat <$> seq 8 32) ∧
    rsa_n key ≠ key_body cert_short_recovered ++ short_remainder ∧
    rsa_e key = exponent.
Proof.
  intros req w.
  destruct (@get_issuer_pk (externals always jk) req ca_key 40 w)
    as [[key |] w' |] eqn:Hrun; vm_compute in Hrun; try discriminate.
  injection Hrun as <- <-. do 2 eexists. split; [reflexivity |].
  split_and!; try (vm_compute; reflexivity).
  vm_compute. discriminate.
Qed.

(** *** Blocks too short for the fixed offsets *)

Tactic Notation "each_below" integer(n) ident(k) tactic(tac) :=
  do n (destruct k as [| k]; [tac |]); lia.

Lemma decoder_short_block (k : nat) :
  (k < 21)%nat →
  emsa_pss_decode [] 0 5 (Z.of_nat k)
    (card cert remainder (replicate k 0xbc)) = Undef.
Proof. intros Hk. each_below 21 k (vm_compute; reflexivity). Qed.

Lemma check_pk_cert_short_block (k : nat) :
  (k < 22)%nat →
  check_pk_cert (request (take k header22) remainder ssa)
    (card (take k header22) remainder ssa) = Undef.
Proof. intros Hk. each_below 22 k (vm_compute; reflexivity). Qed.

Lemma check_ssa_short_block (k : nat) :
  (k < 22)%nat →
  check_ssa 5 (Z.of_nat k) [elem 6 rec1; elem 7 rec2] 2 aip
    (card cert remainder (replicate k 0)) = Undef.
Proof. intros Hk. each_below 22 k (vm_compute; reflexivity). Qed.

Lemma make_issuer_pk_short_block (k : nat) :
  (k < 36)%nat →
  make_issuer_pk (request (replicate k 0) remainder ssa)
    (card (replicate k 0) remainder ssa) = Undef.
Proof. intros Hk. each_below 36 k (vm_compute; reflexivity). Qed.

Lemma card_holds_cert c r s : holds (card c r s) 2 (blen c) c.
Proof. done. Qed.
Lemma card_holds_remainder c r s : holds (card c r s) 3 (blen r) r.
Proof. done. Qed.
Lemma card_holds_exponent c r s : holds (card c r s) 4 1 exponent.
Proof. done. Qed.
Lemma card_holds_ssa c r s : holds (card c r s) 5 (blen s) s.
Proof. done. Qed.
Lemma card_records c r s :
  record_bytes (card c r s) [elem 6 rec1; elem 7 rec2] [rec1; rec2].
Proof. repeat constructor; eexists; done. Qed.

Lemma below_as_nat (L bound : Z) :
  0 ≤ L → ¬ bound ≤ L → ∃ k : nat, L = Z.of_nat k ∧ (k < Z.to_nat bound)%nat.
Proof. intros. exists (Z.to_nat L). lia. Qed.

(** C9, as the code has it.  Nothing checks a length before the
    fixed-offset accesses.  Whatever the block holds and whatever the
    library does, the accesses stay inside a block of [L] bytes exactly
    when [L >= SHA_DIGEST_LENGTH + 1] for the decoder,
    [L >= SHA_DIGEST_LENGTH + 2] for the message construction of either
    stage, and [L >= 36] for the extraction of the issuer key.  The card
    with a 16-byte CA modulus and a 16-byte certificate meets the length
    check, its recovery succeeds, and the certificate stage then reads
    outside the block. *)
Theorem bounds_preconditions_are_unchecked :
  (∀ L, 0 ≤ L < SIZE_MOD →
     (∀ (X : Externals) w em b msg,
        holds w em L b →
        @emsa_pss_decode X msg (blen msg) em L w ≠ Undef)
     ↔ SHA_DIGEST_LENGTH + 1 ≤ L) ∧
  (∀ L, 0 ≤ L →
     (∀ (X : Externals) w req c r x,
        pk_cert_len req = L →
        holds w (pk_cert req) (pk_cert_len req) c →
        holds w (pk_r req) (pk_r_len req) r →
        holds w (pk_exp req) (pk_exp_len req) x →
        pk_cert_len req + pk_r_len req + pk_exp_len req < SIZE_MOD →
        @check_pk_cert X req w ≠ Undef)
     ↔ SHA_DIGEST_LENGTH + 2 ≤ L) ∧
  (∀ L, 0 ≤ L →
     (∀ (X : Externals) w ptr rec bufs aip s,
        holds w ptr L s →
        record_bytes w rec bufs →
        L + blen (concat bufs) < SIZE_MOD →
        @check_ssa X ptr L rec (Z.of_nat (length rec)) aip w ≠ Undef)
     ↔ SHA_DIGEST_LENGTH + 2 ≤ L) ∧
  (∀ L, 0 ≤ L < SIZE_MOD →
     (∀ (X : Externals) w req c r x,
        pk_cert_len req = L →
        holds w (pk_cert req) (pk_cert_len req) c →
        holds w (pk_r req) (pk_r_len req) r →
        holds w (pk_exp req) (pk_exp_len req) x →
        pk_r_len req ≤ 15 + 21 →
        @make_issuer_pk X req w ≠ Undef)
     ↔ 15 + 21 ≤ L) ∧
  (let w := card small_cert remainder ssa in
   let req := request small_cert remainder ssa in
   pk_cert_len req = blen small_modulus ∧
   emv_authenticate_static_data (ca_mod small_modulus) ca_exp w = Undef ∧
   ∃ w1, recover (pk_cert req) (pk_cert_len req) small_key w = Ok 1 w1 ∧
         holds w1 (pk_cert req) (pk_cert_len req) small_cert_recovered ∧
         cert_header_ok small_cert_recovered ∧
         check_pk_cert req w1 = Undef).
Proof.
  split_and!.
  - intros L HL. split.
    + intros Hsafe. destruct (decide (SHA_DIGEST_LENGTH + 1 ≤ L)); [done |].
      destruct (below_as_nat L (SHA_DIGEST_LENGTH + 1)) as (k & -> & Hk);
        [lia | done |].
      exfalso.
      apply (Hsafe lib (card cert remainder (replicate k 0xbc)) 5%positive
               (replicate k 0xbc) []).
      * split; [done |]. unfold blen. by rewrite length_replicate.
      * by apply decoder_short_block.
    + intros Hmin X w em b msg Hem.
      destruct (@emsa_pss_decode_verdict X msg (blen msg) em L w b)
        as (v & w' & -> & _); done || lia.
  - intros L HL. split.
    + intros Hsafe. destruct (decide (SHA_DIGEST_LENGTH + 2 ≤ L)); [done |].
      destruct (below_as_nat L (SHA_DIGEST_LENGTH + 2)) as (k & -> & Hk);
        [lia | done |].
      exfalso.
      assert (Hlen : blen (take k header22) = Z.of_nat k).
      { unfold blen. rewrite length_take.
        change (length header22) with 22%nat.
        unfold SHA_DIGEST_LENGTH in *. lia. }
      apply (Hsafe lib (card (take k header22) remainder ssa)
               (request (take k header22) remainder ssa)
               (take k header22) remainder exponent);
        [done | done | done | done | | by apply check_pk_cert_short_block].
      cbn [request pk_cert_len pk_r_len pk_exp_len].
      rewrite Hlen, SIZE_MOD_eq. change (blen remainder) with 36.
      change (blen exponent) with 1. unfold SHA_DIGEST_LENGTH in *. lia.
    + intros Hmin X w req c r x HLeq Hc Hr Hx Hmax.
      destruct (@check_pk_cert_accepts X req w c r x)
        as (v & w' & -> & _); try done. lia.
  - intros L HL. split.
    + intros Hsafe. destruct (decide (SHA_DIGEST_LENGTH + 2 ≤ L)); [done |].
      destruct (below_as_nat L (SHA_DIGEST_LENGTH + 2)) as (k & -> & Hk);
        [lia | done |].
      exfalso.
      apply (Hsafe lib (card cert remainder (replicate k 0)) 5%positive
               [elem 6 rec1; elem 7 rec2] [rec1; rec2] aip (replicate k 0)).
      * split; [done |]. unfold blen. by rewrite length_replicate.
      * apply card_records.
      * rewrite SIZE_MOD_eq. unfold blen, SHA_DIGEST_LENGTH in *. simpl. lia.
      * by apply check_ssa_short_block.
    + intros Hmin X w ptr rec bufs aip s Hs Hrec Hmax.
      rewrite (@check_ssa_run X ptr L rec _ aip w s bufs) by done.
      destruct (alloc_ok (w_nalloc w)); [| done].
      destruct (@emsa_pss_decode_verdict X
                  (signed_part s ++ concat bufs ++ [aip.1; aip.2])
                  (blen (signed_part s ++ concat bufs ++ [aip.1; aip.2]))
                  ptr L (with_alloc w) s) as (v & w' & -> & _); try done.
      unfold SHA_DIGEST_LENGTH in *.
      pose proof (blen_nonneg (concat bufs)). lia.
  - intros L HL. split.
    + intros Hsafe. destruct (decide (15 + 21 ≤ L)); [done |].
      destruct (below_as_nat L (15 + 21)) as (k & -> & Hk); [lia | done |].
      exfalso.
      assert (Hlen : blen (replicate k 0) = Z.of_nat k).
      { unfold blen. by rewrite length_replicate. }
      apply (Hsafe lib (card (replicate k 0) remainder ssa)
               (request (replicate k 0) remainder ssa)
               (replicate k 0) remainder exponent);
        [done | done | done | done | | by apply make_issuer_pk_short_block].
      cbn [request pk_r_len]. change (blen remainder) with 36. lia.
    + intros Hmin X w req c r x HLeq Hc Hr Hx Hrmax.
      destruct (@make_issuer_pk_run X req w c r x)
        as (w' & -> & _); try done. lia.
  - intros w req. split; [done |]. split; [vm_compute; reflexivity |].
    exists (state_after (recover (pk_cert req) (pk_cert_len req) small_key w) w).
    split_and!; try (vm_compute; reflexivity).
    + done.
    + done.
Qed.

(** *** Where the specification and the code part *)

(** C1 fails as stated: a block passes both comparisons of the decoder,
    with the very message the certificate stage builds, and the stage
    still rejects it, on its first header byte. *)
Lemma header_check_also_decides_validity :
  trailer_ok bad_header_cert ∧
  digest_ok bad_header_cert
    (SHA1 (signed_part bad_header_cert ++ remainder ++ exponent)) ∧
  fst <$> outcome
    (emsa_pss_decode (signed_part bad_header_cert ++ remainder ++ exponent)
       55 2 40 (card bad_header_cert remainder ssa)) = Some 1 ∧
  fst <$> outcome
    (check_pk_cert (request bad_header_cert remainder ssa)
       (card bad_header_cert remainder ssa)) = Some 0.
Proof. split_and!; vm_compute; reflexivity. Qed.


(** C9 fails as stated for the decoder: on a block of 21 bytes, one less
    than [SHA_DIGEST_LENGTH + 2], every access of the decoder is inside
    the block, whatever the block holds. *)
Lemma decoder_in_bounds_at_21 :
  (∀ (X : Externals) w em b msg,
     holds w em 21 b → @emsa_pss_decode X msg (blen msg) em 21 w ≠ Undef) ∧
  ¬ SHA_DIGEST_LENGTH + 2 ≤ 21 ∧
  fst <$> outcome
    (emsa_pss_decode [] 0 5 21
       (card cert remainder (replicate 20 0 ++ [0xbc]))) = Some 0.
Proof.
  split_and!.
  - intros X w em b msg Hem.
    destruct (@emsa_pss_decode_verdict X msg (blen msg) em 21 w b)
      as (v & w' & -> & _); done.
  - unfold SHA_DIGEST_LENGTH. lia.
  - vm_compute. reflexivity.
Qed.

(** *** The theorems at the sample card *)

(** Closed facts about concrete cards hold by evaluation. *)
Ltac eval_goal := vm_compute; repeat split; (reflexivity || discriminate).

(** C8 at the certificate of the sample card. *)
Lemma recover_overwrites_only_on_equal_length_witness :
  holds (card cert remainder ssa) 2 40 cert ∧
  RSA_public_encrypt (to_int 40) cert ca_key = (40, cert_recovered) ∧
  blen cert_recovered ≤ 40 ∧
  ∃ v w', recover 2 40 ca_key (card cert remainder ssa) = Ok v w' ∧
          (v = 0 ∨ v = 1) ∧
          (v = 0 → w_heap w' = w_heap (card cert remainder ssa)).
Proof.
  assert (H1 : holds (card cert remainder ssa) 2 40 cert)
    by (split; vm_compute; reflexivity).
  assert (H2 : RSA_public_encrypt (to_int 40) cert ca_key
               = (40, cert_recovered)) by (vm_compute; reflexivity).
  assert (H3 : blen cert_recovered ≤ 40) by (vm_compute; discriminate).
  split; [exact H1 |]. split; [exact H2 |]. split; [exact H3 |].
  destruct (recover_overwrites_only_on_equal_length 2 40 ca_key
              (card cert remainder ssa) cert 40 cert_recovered H1 H2 H3)
    as (v & w' & Hrun & H01 & _ & _ & H0 & _).
  exists v, w'. split; [exact Hrun |]. split; [exact H01 | exact H0].
Defined.

(** C4 at the recovered certificate of the sample card. *)
Lemma check_pk_cert_format_and_message_witness :
  holds (card cert_recovered remainder ssa) 2 40 cert_recovered ∧
  holds (card cert_recovered remainder ssa) 3 36 remainder ∧
  holds (card cert_recovered remainder ssa) 4 1 exponent ∧
  SHA_DIGEST_LENGTH + 2 ≤ 40 ∧
  40 + 36 + 1 < SIZE_MOD ∧
  ∃ v w', check_pk_cert (request cert_recovered remainder ssa)
            (card cert_recovered remainder ssa) = Ok v w' ∧
          (v = 1 ↔ trailer_ok cert_recovered ∧
                   digest_ok cert_recovered
                     (SHA1 (signed_part cert_recovered ++ remainder ++
                            exponent))).
Proof.
  assert (H1 : holds (card cert_recovered remainder ssa) 2 40 cert_recovered)
    by eval_goal.
  assert (H2 : holds (card cert_recovered remainder ssa) 3 36 remainder)
    by eval_goal.
  assert (H3 : holds (card cert_recovered remainder ssa) 4 1 exponent)
    by eval_goal.
  assert (H4 : SHA_DIGEST_LENGTH + 2 ≤ 40) by eval_goal.
  assert (H5 : 40 + 36 + 1 < SIZE_MOD) by eval_goal.
  assert (Hh : cert_header_ok cert_recovered) by eval_goal.
  assert (Ha : alloc_ok 0%nat = true) by reflexivity.
  split; [exact H1 |]. split; [exact H2 |]. split; [exact H3 |].
  split; [exact H4 |]. split; [exact H5 |].
  destruct (check_pk_cert_format_and_message
              (request cert_recovered remainder ssa)
              (card cert_recovered remainder ssa)
              cert_recovered remainder exponent H1 H2 H3 H4 H5)
    as (_ & v & w' & Hrun & _ & Hok & _).
  exists v, w'. split; [exact Hrun |]. exact (proj2 (Hok Hh Ha)).
Defined.

(** C5 at the signed data of the sample card. *)
Lemma verify_ssa_data_format_and_message_witness :
  recover 5 40 iss_key (card cert_recovered remainder ssa)
  = Ok 1 (state_after (recover 5 40 iss_key
                         (card cert_recovered remainder ssa))
            (card cert_recovered remainder ssa)) ∧
  SHA_DIGEST_LENGTH + 2 ≤ 40 ∧
  40 + blen (concat [rec1; rec2]) < SIZE_MOD ∧
  ∃ v w', verify_ssa_data [elem 6 rec1; elem 7 rec2] 2
            (request cert_recovered remainder ssa) iss_key aip
            (card cert_recovered remainder ssa) = Ok v w' ∧
          (v = 1 ↔ trailer_ok ssa_recovered ∧
                   digest_ok ssa_recovered
                     (SHA1 (signed_part ssa_recovered ++
                            concat [rec1; rec2] ++ [aip.1; aip.2]))).
Proof.
  set (w := card cert_recovered remainder ssa).
  set (w1 := state_after (recover 5 40 iss_key w) w).
  assert (H1 : recover 5 40 iss_key w = Ok 1 w1) by eval_goal.
  assert (H2 : holds w1 5 40 ssa_recovered) by eval_goal.
  assert (H3 : record_bytes w1 [elem 6 rec1; elem 7 rec2] [rec1; rec2]).
  { repeat constructor.
    - exists 6%positive. eval_goal.
    - exists 7%positive. eval_goal. }
  assert (H4 : 2 = Z.of_nat (length [elem 6 rec1; elem 7 rec2]))
    by reflexivity.
  assert (H5 : SHA_DIGEST_LENGTH + 2 ≤ 40) by eval_goal.
  assert (H6 : 40 + blen (concat [rec1; rec2]) < SIZE_MOD) by eval_goal.
  assert (Hh : ssa_header_ok ssa_recovered) by eval_goal.
  assert (Ha : alloc_ok (w_nalloc w1) = true) by reflexivity.
  split; [exact H1 |]. split; [exact H5 |]. split; [exact H6 |].
  destruct (verify_ssa_data_format_and_message
              [elem 6 rec1; elem 7 rec2] 2
              (request cert_recovered remainder ssa) iss_key aip
              w w1 ssa_recovered [rec1; rec2] H1 H2 H3 H4 H5 H6)
    as (_ & v & w' & Hrun & _ & Hok & _).
  exists v, w'. split; [exact Hrun |]. exact (proj2 (Hok Hh Ha)).
Defined.

(** C1 at the recovered certificate of the sample card. *)
Lemma decoder_verdict_and_stage_gates_witness :
  blen (signed_part cert_recovered ++ remainder ++ exponent) = 55 ∧
  holds (card cert_recovered remainder ssa) 2 40 cert_recovered ∧
  SHA_DIGEST_LENGTH + 1 ≤ 40 < SIZE_MOD ∧
  ∃ v w', emsa_pss_decode
            (signed_part cert_recovered ++ remainder ++ exponent) 55 2 40
            (card cert_recovered remainder ssa) = Ok v w' ∧
          (v = 1 ↔ trailer_ok cert_recovered ∧
                   digest_ok cert_recovered
                     (SHA1 (signed_part cert_recovered ++ remainder ++
                            exponent))).
Proof.
  assert (H1 : blen (signed_part cert_recovered ++ remainder ++ exponent)
               = 55) by eval_goal.
  assert (H2 : holds (card cert_recovered remainder ssa) 2 40 cert_recovered)
    by eval_goal.
  assert (H3 : SHA_DIGEST_LENGTH + 1 ≤ 40 < SIZE_MOD) by eval_goal.
  split; [exact H1 |]. split; [exact H2 |]. split; [exact H3 |].
  destruct (proj1 decoder_verdict_and_stage_gates
              (signed_part cert_recovered ++ remainder ++ exponent) 55
              2%positive 40
              (card cert_recovered remainder ssa) cert_recovered H1 H2 H3)
    as (v & w' & Hrun & _ & Hiff & _).
  exists v, w'. split; [exact Hrun | exact Hiff].
Defined.


(** C6 at the sample card. *)
Lemma authenticate_is_fail_fast_witness :
  emv_authenticate_static_data (ca_mod ca_modulus) ca_exp
    (card cert remainder ssa)
  = Ok 1 (state_after
            (emv_authenticate_static_data (ca_mod ca_modulus) ca_exp
               (card cert remainder ssa))
            (card cert remainder ssa)) ∧
  every_stage_passed (ca_mod ca_modulus) ca_exp (card cert remainder ssa) ∧
  e_sda_ok (w_emv (state_after
                     (emv_authenticate_static_data (ca_mod ca_modulus) ca_exp
                        (card cert remainder ssa))
                     (card cert remainder ssa))) = 1.
Proof.
  set (w := card cert remainder ssa).
  set (w' := state_after
               (emv_authenticate_static_data (ca_mod ca_modulus) ca_exp w) w).
  assert (H1 : emv_authenticate_static_data (ca_mod ca_modulus) ca_exp w
               = Ok 1 w') by eval_goal.
  split; [exact H1 |].
  destruct (authenticate_is_fail_fast (ca_mod ca_modulus) ca_exp w 1 w' H1)
    as (_ & _ & Hpass & _ & Hflag & _).
  split; [exact (proj1 Hpass eq_refl) | exact (Hflag eq_refl)].
Defined.

(** C7 at a card whose certificate element has 39 bytes under the
    40-byte CA key. *)
Lemma length_mismatch_fails_before_crypto_witness :
  e_tags (w_emv (card cert39 remainder ssa)) !! EMV_TAG_ISS_PK_CERT
  = Some (elem 2 cert39) ∧
  (∀ m, ca_mod ca_modulus
          (emv_data_int (w_heap (card cert39 remainder ssa))
             (e_tags (w_emv (card cert39 remainder ssa))
                !! EMV_TAG_CA_PK_INDEX)) = Some m →
        blen m ≠ d_len (elem 2 cert39)) ∧
  ¬ releases_twice (card_index (card cert39 remainder ssa))
      (ca_mod ca_modulus) ca_exp (w_nalloc (card cert39 remainder ssa)) ∧
  ∃ w', emv_authenticate_static_data (ca_mod ca_modulus) ca_exp
          (card cert39 remainder ssa) = Ok 0 w' ∧
        w_heap w' = w_heap (card cert39 remainder ssa) ∧
        trace_grows no_crypto (card cert39 remainder ssa) w'.
Proof.
  set (w := card cert39 remainder ssa).
  assert (H1 : e_tags (w_emv w) !! EMV_TAG_ISS_PK_CERT
               = Some (elem 2 cert39)) by eval_goal.
  assert (H2 : ∀ m, ca_mod ca_modulus
                      (emv_data_int (w_heap w)
                         (e_tags (w_emv w) !! EMV_TAG_CA_PK_INDEX)) = Some m →
                    blen m ≠ d_len (elem 2 cert39)).
  { intros m Hm. vm_compute in Hm. injection Hm as <-. eval_goal. }
  assert (H3 : ¬ releases_twice (card_index w) (ca_mod ca_modulus) ca_exp
                   (w_nalloc w)).
  { intros (_ & _ & _ & _ & Hfail). vm_compute in Hfail. discriminate. }
  split; [exact H1 |]. split; [exact H2 |]. split; [exact H3 |].
  destruct (length_mismatch_fails_before_crypto (ca_mod ca_modulus) ca_exp w
              (elem 2 cert39) H1 H2 H3)
    as (w' & Hrun & Hheap & _ & Htrace & _).
  exists w'. split; [exact Hrun |]. split; [exact Hheap | exact Htrace].
Defined.

(** C10 at a card whose signed data does not recover: the attempt fails
    in the last stage and both keys are on the context. *)
Lemma keys_are_retained_on_later_failure_witness :
  fst <$> outcome (emv_authenticate_static_data (ca_mod ca_modulus) ca_exp
                     (card cert remainder cert)) = Some 0 ∧
  sda_supported (card cert remainder cert) ∧
  e_ca_pk (w_emv (state_after
                    (emv_authenticate_static_data (ca_mod ca_modulus) ca_exp
                       (card cert remainder cert))
                    (card cert remainder cert))) = Some ca_key ∧
  e_sda_ok (w_emv (state_after
                     (emv_authenticate_static_data (ca_mod ca_modulus) ca_exp
                        (card cert remainder cert))
                     (card cert remainder cert))) = 0.
Proof.
  set (w := card cert remainder cert).
  set (w' := state_after
               (emv_authenticate_static_data (ca_mod ca_modulus) ca_exp w) w).
  set (w1 := state_after (get_required_data w) w).
  set (w2 := state_after (get_ca_key 1 (ca_mod ca_modulus) ca_exp w1) w1).
  assert (H1 : emv_authenticate_static_data (ca_mod ca_modulus) ca_exp w
               = Ok 0 w') by eval_goal.
  assert (H2 : sda_supported w) by eval_goal.
  assert (H3 : get_required_data w
               = Ok (Some (request cert remainder cert)) w1) by eval_goal.
  assert (H4 : get_ca_key (ca_pk_idx (request cert remainder cert))
                 (ca_mod ca_modulus) ca_exp w1
               = Ok (Some (ca_key, 40)) w2) by eval_goal.
  split; [eval_goal |]. split; [exact H2 |].
  destruct (keys_are_retained_on_later_failure (ca_mod ca_modulus) ca_exp
              w 0 w' (request cert remainder cert) w1 ca_key 40 w2
              H1 H2 H3 H4)
    as (iss & w3 & _ & _ & _ & Hca & _ & _ & Hflag).
  split; [exact Hca |]. rewrite (Hflag eq_refl). reflexivity.
Defined.

(** C9 at a block of 21 bytes. *)
Lemma bounds_preconditions_are_unchecked_witness :
  0 ≤ 21 < SIZE_MOD ∧
  ((∀ (X : Externals) w em b msg,
      holds w em 21 b →
      @emsa_pss_decode X msg (blen msg) em 21 w ≠ Undef)
   ↔ SHA_DIGEST_LENGTH + 1 ≤ 21).
Proof.
  assert (H1 : 0 ≤ 21 < SIZE_MOD) by eval_goal.
  split; [exact H1 |].
  exact (proj1 bounds_preconditions_are_unchecked 21 H1).
Defined.


(** X3 at the CA key of the sample card: with an allocator whose third
    answer is NULL the modulus is released twice; with one that never
    fails the function answers. *)
Lemma get_ca_key_needs_both_fields_witness :
  @get_ca_key (externals third_fails zeroes) 1 (ca_mod ca_modulus) ca_exp
    (card cert remainder ssa) = Undef ∧
  ∃ o w', get_ca_key 1 (ca_mod ca_modulus) ca_exp (card cert remainder ssa)
          = Ok o w' ∧
          w_heap w' = w_heap (card cert remainder ssa).
Proof.
  set (w := card cert remainder ssa).
  assert (H1 : @releases_twice (externals third_fails zeroes) 1
                 (ca_mod ca_modulus) ca_exp (w_nalloc w)).
  { split; [exists ca_modulus; eval_goal |].
    split; [exists exponent; eval_goal |]. eval_goal. }
  assert (H2 : ¬ releases_twice 1 (ca_mod ca_modulus) ca_exp (w_nalloc w)).
  { intros (_ & _ & _ & _ & Hfail). vm_compute in Hfail. discriminate. }
  split.
  - exact (proj1 (@get_ca_key_needs_both_fields
                    (externals third_fails zeroes) 1 (ca_mod ca_modulus)
                    ca_exp w) H1).
  - destruct (proj2 (get_ca_key_needs_both_fields 1 (ca_mod ca_modulus)
                       ca_exp w) H2) as (o & w' & Hrun & Hh & _).
    exists o, w'. split; [exact Hrun | exact Hh].
Defined.

(** X4 at the sample card and a provider without any modulus. *)
Lemma missing_ca_key_fails_cleanly_witness :
  ∃ w', emv_authenticate_static_data (λ _, None) ca_exp
          (card cert remainder ssa) = Ok 0 w' ∧
        w_heap w' = w_heap (card cert remainder ssa) ∧
        w_emv w' = w_emv (card cert remainder ssa).
Proof.
  destruct (missing_ca_key_fails_cleanly (λ _, None) ca_exp
              (card cert remainder ssa) (or_introl eq_refl))
    as (w' & Hrun & Hh & He & _).
  exists w'. split; [exact Hrun |]. split; [exact Hh | exact He].
Defined.

(** X5 at the sample card. *)
Lemma attempt_writes_only_output_slots_witness :
  emv_authenticate_static_data (ca_mod ca_modulus) ca_exp
    (card cert remainder ssa)
  = Ok 1 (state_after
            (emv_authenticate_static_data (ca_mod ca_modulus) ca_exp
               (card cert remainder ssa))
            (card cert remainder ssa)) ∧
  same_inputs (w_emv (card cert remainder ssa))
    (w_emv (state_after
              (emv_authenticate_static_data (ca_mod ca_modulus) ca_exp
                 (card cert remainder ssa))
              (card cert remainder ssa))).
Proof.
  set (w := card cert remainder ssa).
  set (w' := state_after
               (emv_authenticate_static_data (ca_mod ca_modulus) ca_exp w) w).
  assert (H1 : emv_authenticate_static_data (ca_mod ca_modulus) ca_exp w
               = Ok 1 w') by eval_goal.
  split; [exact H1 |].
  exact (proj1 (attempt_writes_only_output_slots (ca_mod ca_modulus) ca_exp
                  w 1 w' H1)).
Defined.

(** X6 at a second attempt on the sample card: the first one has set the
    flag and recovered the certificate in place, so the second fails. *)
Lemma failed_attempt_keeps_a_set_flag_witness :
  let w1 := state_after
              (emv_authenticate_static_data (ca_mod ca_modulus) ca_exp
                 (card cert remainder ssa))
              (card cert remainder ssa) in
  let w2 := state_after
              (emv_authenticate_static_data (ca_mod ca_modulus) ca_exp w1)
              w1 in
  emv_authenticate_static_data (ca_mod ca_modulus) ca_exp w1 = Ok 0 w2 ∧
  e_sda_ok (w_emv w1) ≠ 0 ∧
  emv_sda_ok w2 = Ok 1 w2.
Proof.
  intros w1 w2.
  assert (H1 : emv_authenticate_static_data (ca_mod ca_modulus) ca_exp w1
               = Ok 0 w2) by eval_goal.
  assert (H2 : e_sda_ok (w_emv w1) ≠ 0) by eval_goal.
  split; [exact H1 |]. split; [exact H2 |].
  exact (proj2 (failed_attempt_keeps_a_set_flag (ca_mod ca_modulus) ca_exp
                  w1 0 w2 H1 H2)).
Defined.

(** X7 at the recovered certificate of the sample card and at the same
    block without its first five bytes. *)
Lemma decoder_reads_only_the_tail_witness :
  tail21 cert_recovered = tail21 (drop 5 cert_recovered) ∧
  ∃ v w1' w2',
    emsa_pss_decode rec1 (blen rec1) 2 (blen cert_recovered)
      (card cert_recovered remainder ssa) = Ok v w1' ∧
    emsa_pss_decode rec1 (blen rec1) 2 (blen (drop 5 cert_recovered))
      (card (drop 5 cert_recovered) remainder ssa) = Ok v w2'.
Proof.
  assert (H1 : holds (card cert_recovered remainder ssa) 2
                 (blen cert_recovered) cert_recovered) by eval_goal.
  assert (H2 : holds (card (drop 5 cert_recovered) remainder ssa) 2
                 (blen (drop 5 cert_recovered)) (drop 5 cert_recovered))
    by eval_goal.
  assert (H3 : SHA_DIGEST_LENGTH + 1 ≤ blen cert_recovered < SIZE_MOD)
    by eval_goal.
  assert (H4 : SHA_DIGEST_LENGTH + 1 ≤ blen (drop 5 cert_recovered)
               < SIZE_MOD) by eval_goal.
  assert (H5 : tail21 cert_recovered = tail21 (drop 5 cert_recovered))
    by eval_goal.
  split; [exact H5 |].
  exact (decoder_reads_only_the_tail rec1
           (card cert_recovered remainder ssa) 2%positive cert_recovered
           (card (drop 5 cert_recovered) remainder ssa) 2%positive
           (drop 5 cert_recovered) H1 H2 H3 H4 H5).
Defined.

(** X8 at the sample card. *)
Lemma attempt_succeeds_exactly_when_witness :
  RSA_public_encrypt (to_int 40) cert ca_key = (40, cert_recovered) ∧
  RSA_public_encrypt (to_int 40) ssa iss_key = (40, ssa_recovered) ∧
  ∃ v w', emv_authenticate_static_data (ca_mod ca_modulus) ca_exp
            (card cert remainder ssa) = Ok v w' ∧
          (v = 1 ∨ v = 0).
Proof.
  set (w := card cert remainder ssa).
  assert (Hc : element w EMV_TAG_ISS_PK_CERT 2 40 cert)
    by (exists (elem 2 cert); eval_goal).
  assert (Hr : element w EMV_TAG_ISS_PK_R 3 36 remainder)
    by (exists (elem 3 remainder); eval_goal).
  assert (Hx : element w EMV_TAG_ISS_PK_EXP 4 1 exponent)
    by (exists (elem 4 exponent); eval_goal).
  assert (Hs : element w EMV_TAG_SSA_DATA 5 40 ssa)
    by (exists (elem 5 ssa); eval_goal).
  assert (Hrc : 3%positive ≠ 2%positive) by discriminate.
  assert (Hxc : 4%positive ≠ 2%positive) by discriminate.
  assert (Hsc : 5%positive ≠ 2%positive) by discriminate.
  assert (Hrec : record_bytes w (db_sda (w_emv w)) [rec1; rec2]).
  { repeat constructor.
    - exists 6%positive. eval_goal.
    - exists 7%positive. eval_goal. }
  assert (Hnec : Forall (λ d, d_data d ≠ Some 2%positive) (db_sda (w_emv w)))
    by (repeat constructor; discriminate).
  assert (Hnes : Forall (λ d, d_data d ≠ Some 5%positive) (db_sda (w_emv w)))
    by (repeat constructor; discriminate).
  assert (Hnum : db_numsda (w_emv w) = Z.of_nat (length (db_sda (w_emv w))))
    by reflexivity.
  assert (Hmin : 15 + 21 ≤ 40) by eval_goal.
  assert (Hrmax : 36 ≤ 15 + 21) by eval_goal.
  assert (Hmax : 40 + 36 + 1 < SIZE_MOD) by eval_goal.
  assert (Hsmin : SHA_DIGEST_LENGTH + 2 ≤ 40) by eval_goal.
  assert (Hsmax : 40 + blen (concat [rec1; rec2]) < SIZE_MOD) by eval_goal.
  assert (Hm : ca_mod ca_modulus (card_index w) = Some ca_modulus)
    by eval_goal.
  assert (He : ca_exp (card_index w) = Some exponent) by eval_goal.
  assert (Hdef : ¬ releases_twice (card_index w) (ca_mod ca_modulus) ca_exp
                     (w_nalloc w)).
  { intros (_ & _ & _ & _ & Hfail). vm_compute in Hfail. discriminate. }
  assert (Hrsa1 : RSA_public_encrypt (to_int 40) cert
                    {| rsa_n := ca_modulus; rsa_e := exponent |}
                  = (40, cert_recovered)) by eval_goal.
  assert (Hout1 : blen cert_recovered ≤ 40) by eval_goal.
  assert (Hrsa2 : RSA_public_encrypt (to_int 40) ssa
                    {| rsa_n := issuer_modulus (w_nalloc w + 5)
                                  (recovered (w_nalloc w + 3) 40
                                     cert_recovered) remainder;
                       rsa_e := exponent |}
                  = (40, ssa_recovered)) by eval_goal.
  assert (Hout2 : blen ssa_recovered ≤ 40) by eval_goal.
  split; [exact Hrsa1 |].
  split; [eval_goal |].
  destruct (attempt_succeeds_exactly_when (ca_mod ca_modulus) ca_exp w
              2%positive 40 cert 3%positive 36 remainder
              4%positive 1 exponent 5%positive 40 ssa [rec1; rec2]
              ca_modulus exponent 40 cert_recovered 40 ssa_recovered
              Hc Hr Hx Hs Hrc Hxc Hsc Hrec Hnec Hnes Hnum Hmin Hrmax Hmax
              Hsmin Hsmax Hm He Hdef Hrsa1 Hout1 Hrsa2 Hout2)
    as (v & w' & Hrun & H01 & _).
  exists v, w'. split; [exact Hrun | exact H01].
Defined.



(** X11 at the recovered certificate of the sample card, whose remainder
    has 36 bytes. *)
Lemma issuer_modulus_is_certificate_sized_witness :
  ∃ o w', make_issuer_pk (request cert_recovered remainder ssa)
            (card cert_recovered remainder ssa) = Ok o w' ∧
          ∀ key, o = Some key →
                 rsa_n key = key_body cert_recovered ++ remainder.
Proof.
  set (w := card cert_recovered remainder ssa).
  set (req := request cert_recovered remainder ssa).
  assert (Hc : holds w (pk_cert req) (pk_cert_len req) cert_recovered)
    by eval_goal.
  assert (Hr : holds w (pk_r req) (pk_r_len req) remainder) by eval_goal.
  assert (Hx : holds w (pk_exp req) (pk_exp_len req) exponent) by eval_goal.
  assert (Hmin : 15 + 21 ≤ pk_cert_len req < SIZE_MOD) by eval_goal.
  assert (Hrmax : pk_r_len req ≤ 15 + 21) by eval_goal.
  assert (Hfull : pk_r_len req = 15 + 21) by reflexivity.
  destruct (issuer_modulus_is_certificate_sized req w cert_recovered
              remainder exponent Hc Hr Hx Hmin Hrmax)
    as (o & w' & Hrun & _ & _ & _ & Hkey).
  exists o, w'. split; [exact Hrun |].
  intros key Ho. destruct (Hkey key Ho) as (_ & _ & _ & Hn).
  exact (Hn Hfull).
Defined.

(** X12 at the sample card. *)
Lemma attempt_crypto_calls_in_order_witness :
  emv_authenticate_static_data (ca_mod ca_modulus) ca_exp
    (card cert remainder ssa)
  = Ok 1 (state_after
            (emv_authenticate_static_data (ca_mod ca_modulus) ca_exp
               (card cert remainder ssa))
            (card cert remainder ssa)) ∧
  ∃ evs,
    w_trace (state_after
               (emv_authenticate_static_data (ca_mod ca_modulus) ca_exp
                  (card cert remainder ssa))
               (card cert remainder ssa))
    = w_trace (card cert remainder ssa) ++ evs ∧
    crypto_calls evs = [Transform; Hash; Transform; Hash].
Proof.
  set (w := card cert remainder ssa).
  set (w' := state_after
               (emv_authenticate_static_data (ca_mod ca_modulus) ca_exp w) w).
  assert (H1 : emv_authenticate_static_data (ca_mod ca_modulus) ca_exp w
               = Ok 1 w') by eval_goal.
  assert (H2 : 1 ≠ 0) by discriminate.
  split; [exact H1 |].
  destruct (attempt_crypto_calls_in_order (ca_mod ca_modulus) ca_exp
              w 1 w' H1) as (evs & Htr & _ & Hall).
  exists evs. split; [exact Htr | exact (Hall H2)].
Defined.

End Cards.

(** ** The chip card slot *)

Section SlotFacts.

Import Chipcard.

Context `{!Reader}.

Lemma poll_state (s : slot) :
  (read_response (get_slot_status s).2).2 =
  {| rd := polled (rd s); calls := calls s ++ [GetSlotStatus; Read] |}.
Proof.
  destruct s as [d cs]. unfold read_response, get_slot_status, polled. simpl.
  destruct (_PC_to_RDR_GetSlotStatus d) as [r1 d1]. simpl.
  destruct (_RDR_to_PC d1) as [r2 d2]. simpl.
  by rewrite <- app_assoc.
Qed.

Lemma wait_round fuel (s : slot) :
  chipcard_wait_for_card (S fuel) s =
  let s1 := {| rd := round_end (rd s);
               calls := calls s ++ round_calls (rd s) |} in
  if bool_decide (round_without_card (rd s))
  then chipcard_wait_for_card fuel s1
  else Some (1, s1).
Proof.
  cbn [chipcard_wait_for_card]. rewrite poll_state.
  unfold wait_for_interrupt. cbn [rd calls]. fold (idled (rd s)).
  rewrite <- app_assoc. cbn [app].
  unfold round_without_card, round_end, round_calls, absent.
  destruct (decide (cc_status (polled (rd s)) = CHIPCARD_NOT_PRESENT))
    as [Hnp | Hp].
  - rewrite (bool_decide_eq_false_2 (cc_status (polled (rd s)) ≠ _)) by tauto.
    rewrite (bool_decide_eq_true_2 (cc_status (polled (rd s)) = _)) by done.
    destruct (decide (cc_status (idled (rd s)) = CHIPCARD_NOT_PRESENT))
      as [Hnp' | Hp'].
    + rewrite (bool_decide_eq_true_2 (cc_status (idled (rd s)) = _)) by done.
      by rewrite bool_decide_eq_true_2.
    + rewrite (bool_decide_eq_false_2 (cc_status (idled (rd s)) = _)) by done.
      by rewrite bool_decide_eq_false_2 by tauto.
  - rewrite (bool_decide_eq_true_2 (cc_status (polled (rd s)) ≠ _)) by done.
    rewrite (bool_decide_eq_false_2 (cc_status (polled (rd s)) = _)) by done.
    by rewrite bool_decide_eq_false_2 by tauto.
Qed.

Lemma round_end_present d : ¬ round_without_card d → ¬ absent (round_end d).
Proof.
  unfold round_without_card, round_end. intros Hn.
  case_bool_decide; [tauto | done].
Qed.

Lemma round_end_idled d : round_without_card d → round_end d = idled d.
Proof.
  unfold round_without_card, round_end. intros [Hp _].
  by rewrite bool_decide_eq_true_2.
Qed.

(** X13.  Whenever [chipcard_wait_for_card] returns, it returns 1 and the
    slot's cached status is not [CHIPCARD_NOT_PRESENT]; what the two
    commands returned plays no part.  Its calls are whole rounds of
    status query and response, each but the last followed by a wait for
    an interrupt. *)
Theorem wait_returns_only_with_card fuel (s : slot) r s' :
  chipcard_wait_for_card fuel s = Some (r, s') →
  r = 1 ∧ chipcard_slot_status s' ≠ CHIPCARD_NOT_PRESENT ∧
  ∃ n : nat,
    (n < fuel)%nat ∧
    (∀ i, (i < n)%nat → round_without_card (Nat.iter i idled (rd s))) ∧
    ¬ round_without_card (Nat.iter n idled (rd s)) ∧
    rd s' = round_end (Nat.iter n idled (rd s)) ∧
    calls s' = calls s ++
               concat (replicate n [GetSlotStatus; Read; WaitForInterrupt]) ++
               round_calls (Nat.iter n idled (rd s)).
Proof.
  revert s. induction fuel as [| fuel IH]; intros s Hrun; [done |].
  rewrite wait_round in Hrun. simpl in Hrun.
  case_bool_decide as Hround.
  - apply IH in Hrun as (-> & Hst & n & Hn & Hbefore & Hlast & Hrd & Hcalls).
    simpl in *. rewrite (round_end_idled _ Hround) in Hrd, Hbefore, Hlast, Hcalls.
    split; [done |]. split; [done |]. exists (S n).
    rewrite !Nat.iter_succ_r. split; [lia |]. split_and!; try done.
    + intros [| i] Hi; [done |]. rewrite Nat.iter_succ_r. apply Hbefore. lia.
    + rewrite Hcalls. unfold round_calls at 1.
      rewrite bool_decide_eq_true_2 by apply Hround.
      simpl. by rewrite <- !app_assoc.
  - injection Hrun as <- <-. split; [done |].
    split; [by apply round_end_present |].
    exists 0%nat. simpl. split; [lia |]. split_and!; try done. lia.
Qed.

(** X14.  [chipcard_wait_for_card] returns in the first round in which a
    card shows, and not before: when the first [n] rounds pass without a
    card and the next one does not, [n] rounds are not enough and
    [n + 1] rounds, or more, give the result. *)
Theorem wait_returns_in_first_round_with_card (n : nat) (s : slot) :
  (∀ i, (i < n)%nat → round_without_card (Nat.iter i idled (rd s))) →
  ¬ round_without_card (Nat.iter n idled (rd s)) →
  (∀ fuel, (fuel ≤ n)%nat → chipcard_wait_for_card fuel s = None) ∧
  ∃ s', (∀ fuel, (n < fuel)%nat →
           chipcard_wait_for_card fuel s = Some (1, s')) ∧
        rd s' = round_end (Nat.iter n idled (rd s)).
Proof.
  revert s. induction n as [| n IH]; intros s Hbefore Hlast.
  - simpl in Hlast. split.
    + intros fuel Hf. by replace fuel with 0%nat by lia.
    + eexists. split.
      * intros [| fuel] Hf; [lia |]. rewrite wait_round. simpl.
        by rewrite bool_decide_eq_false_2.
      * done.
  - assert (Hfirst : round_without_card (rd s)) by (apply (Hbefore 0%nat); lia).
    set (s1 := {| rd := round_end (rd s);
                  calls := calls s ++ round_calls (rd s) |}).
    assert (Hrd1 : rd s1 = idled (rd s)) by (by apply round_end_idled).
    destruct (IH s1) as (Hnone & s' & Hsome & Hrd').
    { intros i Hi. rewrite Hrd1, <- Nat.iter_succ_r. apply Hbefore. lia. }
    { by rewrite Hrd1, <- Nat.iter_succ_r. }
    split.
    + intros [| fuel] Hf; [done |]. rewrite wait_round. simpl.
      rewrite bool_decide_eq_true_2 by done. apply Hnone. lia.
    + exists s'. split.
      * intros [| fuel] Hf; [lia |]. rewrite wait_round. simpl.
        rewrite bool_decide_eq_true_2 by done. apply Hsome. lia.
      * by rewrite Hrd', Hrd1, <- Nat.iter_succ_r.
Qed.

(** X15.  While no card shows, [chipcard_wait_for_card] does not return:
    when every round passes without a card, no number of rounds gives a
    result. *)
Theorem wait_does_not_return_without_card (s : slot) :
  (∀ i, round_without_card (Nat.iter i idled (rd s))) →
  ∀ fuel, chipcard_wait_for_card fuel s = None.
Proof.
  intros Hnever fuel. revert s Hnever.
  induction fuel as [| fuel IH]; intros s Hnever; [done |].
  pose proof (Hnever 0%nat) as Hfirst. simpl in Hfirst.
  rewrite wait_round. simpl.
  rewrite bool_decide_eq_true_2 by done.
  apply IH. intros i. simpl.
  rewrite (round_end_idled _ Hfirst), <- Nat.iter_succ_r.
  apply Hnever.
Qed.

End SlotFacts.

Section SlotExamples.

Import Chipcard.

(** X13 at a slot in which the card appears during the second wait. *)
Lemma wait_returns_only_with_card_witness :
  @chipcard_wait_for_card countdown 5 waiting
  = Some (1, @Build_slot countdown 0%nat
               [GetSlotStatus; Read; WaitForInterrupt;
                GetSlotStatus; Read; WaitForInterrupt]) ∧
  @cc_status countdown 0%nat ≠ @CHIPCARD_NOT_PRESENT countdown.
Proof.
  assert (H1 : @chipcard_wait_for_card countdown 5 waiting
               = Some (1, @Build_slot countdown 0%nat
                            [GetSlotStatus; Read; WaitForInterrupt;
                             GetSlotStatus; Read; WaitForInterrupt]))
    by (vm_compute; reflexivity).
  split; [exact H1 |].
  exact (proj1 (proj2 (@wait_returns_only_with_card countdown 5 _ _ _ H1))).
Defined.

(** X14 at the same slot: the first round passes without a card, the
    second does not. *)
Lemma wait_returns_in_first_round_with_card_witness :
  @chipcard_wait_for_card countdown 1 waiting = None ∧
  ∃ s', @chipcard_wait_for_card countdown 2 waiting = Some (1, s').
Proof.
  assert (H1 : ∀ i, (i < 1)%nat →
                 @round_without_card countdown
                   (Nat.iter i (@idled countdown) (@rd countdown waiting))).
  { intros [| i] Hi; [| lia]. vm_compute. split; reflexivity. }
  assert (H2 : ¬ @round_without_card countdown
                   (Nat.iter 1 (@idled countdown) (@rd countdown waiting))).
  { intros [_ H]. vm_compute in H. discriminate. }
  destruct (@wait_returns_in_first_round_with_card countdown 1 waiting H1 H2)
    as (Hnone & s' & Hsome & _).
  split; [apply Hnone; lia |].
  exists s'. apply Hsome. lia.
Defined.

(** X15 at a slot that stays empty. *)
Lemma wait_does_not_return_without_card_witness :
  @chipcard_wait_for_card empty_slot 100 deserted = None.
Proof.
  assert (H1 : ∀ i, @round_without_card empty_slot
                      (Nat.iter i (@idled empty_slot)
                         (@rd empty_slot deserted))).
  { intros i. split; reflexivity. }
  exact (@wait_does_not_return_without_card empty_slot deserted H1 100%nat).
Defined.

End SlotExamples.
